(** * react-sub: the subscription manager, embedded and verified

    A shallow embedding of [src/manager.ts], with [src/watch.ts] and
    [src/config.ts], followed by the theorems about it.

    - [JS]: JavaScript values, and plain objects used as dictionaries
      with the enumeration order of [Object.keys].
    - [Objects]: assignment and [hasOwnProperty] calls on such objects,
      which go through the prototype chain: the keys ["__proto__"] and
      ["hasOwnProperty"].
    - [Eff]: exceptions, the manager's mutable fields and the calls to
      injected callbacks, as a state-and-error monad that records the
      outside calls in order.
    - [Manager]: [SubscriptionManager] and its methods, and the manager
      together with its deferral function as a transition system.
    - [Rendering]: the contexts of watch.ts, with their reset lists and
      [render], in one store with the managers.
    - Then the notions the statements use, sample managers and stores,
      the facts about dictionaries and effects, and the theorems:
      reconciliation, [get], scheduling and registration, key
      derivation, [updateQueries], and rendering. *)

From Stdlib Require Import String Ascii List ZArith NArith Bool Arith Lia.
From Stdlib Require Import Permutation DecimalString.
From Stdlib Require DecimalN.
Import ListNotations.
Open Scope string_scope.
Open Scope list_scope.

(* ================================================================== *)
(** * JavaScript values and objects *)
(* ================================================================== *)

Module JS.

(** The values a query can be at run time (the code takes [q: any]).
    An object is an ordinary object, whose prototype is
    [Object.prototype], given by its own data properties in creation
    order; a function value is given by the string it returns, whatever
    it is called on and with (the code calls a value as [toString()] and
    as [hasOwnProperty(key)]). *)
#[local] Set Warnings "-register-all".
Inductive Value : Type :=
| Undefined
| Null
| Boolean (b : bool)
| Number (n : Z)
| NaN
| Str (s : string)
| Object (own : list (string * Value))
| Method (returns : string).

(** [typeof v]. *)
Definition typeof (v : Value) : string :=
  match v with
  | Undefined => "undefined"
  | Null => "object"
  | Boolean _ => "boolean"
  | Number _ | NaN => "number"
  | Str _ => "string"
  | Object _ => "object"
  | Method _ => "function"
  end.

(** [!!v]: the falsy values are [undefined], [null], [false], [0], [NaN]
    and the empty string. *)
Definition ToBoolean (v : Value) : bool :=
  match v with
  | Undefined | Null | NaN => false
  | Boolean b => b
  | Number n => negb (Z.eqb n 0)
  | Str s => negb (s =? "")
  | Object _ | Method _ => true
  end.

(** ** The own properties of an object used as a map ([Record<string, V>])

    The own enumerable string-keyed properties, in creation order, with
    what acts on them alone: reading an own key, storing under an own
    key, [delete], [Object.keys], and the test the built-in
    [hasOwnProperty] makes.  An assignment [o[k] = v] and a call
    [o.hasOwnProperty(k)] go through the object's prototype chain; they
    are [set] and [call_hasOwnProperty] of [Objects] below. *)
Section Dictionaries.

Variable V : Type.

Definition Dict : Type := list (string * V).

(** [o[k]] for an own key: [None] stands for a missing property. *)
Fixpoint lookup (o : Dict) (k : string) : option V :=
  match o with
  | [] => None
  | (k', v) :: rest => if k' =? k then Some v else lookup rest k
  end.

(** What the built-in [Object.prototype.hasOwnProperty] answers for [o]
    and [k]: whether [k] is an own key. *)
Definition hasOwnProperty (o : Dict) (k : string) : bool :=
  match lookup o k with
  | Some _ => true
  | None => false
  end.

(** Storing [v] as the own property [k]: an existing property keeps its
    place, a new one is created last.  (What [o[k] = v] does when it
    stores, which it does for every key but ["__proto__"].) *)
Fixpoint assign (o : Dict) (k : string) (v : V) : Dict :=
  match o with
  | [] => [(k, v)]
  | (k', v') :: rest =>
      if k' =? k then (k', v) :: rest else (k', v') :: assign rest k v
  end.

(** [delete o[k]]. *)
Fixpoint delete (o : Dict) (k : string) : Dict :=
  match o with
  | [] => []
  | (k', v') :: rest =>
      if k' =? k then delete rest k else (k', v') :: delete rest k
  end.

End Dictionaries.

Arguments lookup {V} o k.
Arguments hasOwnProperty {V} o k.
Arguments assign {V} o k v.
Arguments delete {V} o k.

(** ** Enumeration order ([Object.keys])

    [OrdinaryOwnPropertyKeys]: the keys that are array indices (the
    canonical decimal form of an integer below [2^32 - 1]) come first, in
    ascending numeric order; the other keys follow in creation order. *)

Definition index_to_string (n : N) : string :=
  NilEmpty.string_of_uint (N.to_uint n).

Definition array_index (k : string) : option N :=
  match NilEmpty.uint_of_string k with
  | Some d =>
      let n := N.of_uint d in
      if (index_to_string n =? k) && (n <? 4294967295)%N
      then Some n else None
  | None => None
  end.

Fixpoint insert_index (n : N) (l : list N) : list N :=
  match l with
  | [] => [n]
  | x :: rest => if (n <=? x)%N then n :: l else x :: insert_index n rest
  end.

Fixpoint index_keys (ks : list string) : list N :=
  match ks with
  | [] => []
  | k :: rest =>
      match array_index k with
      | Some n => insert_index n (index_keys rest)
      | None => index_keys rest
      end
  end.

Definition is_name (k : string) : bool :=
  match array_index k with
  | Some _ => false
  | None => true
  end.

Definition OrdinaryOwnPropertyKeys (ks : list string) : list string :=
  map index_to_string (index_keys ks) ++ filter is_name ks.

(** [Object.keys(o)]. *)
Definition Object_keys {V} (o : Dict V) : list string :=
  OrdinaryOwnPropertyKeys (map fst o).

(** The idiom [Object.keys(o).forEach(key => { const v = o[key]; ... })]:
    the keys in enumeration order, each with the value read back under
    it.  ([entries_keys] below: no key is lost.) *)
Definition entries {V} (o : Dict V) : list (string * V) :=
  flat_map
    (fun key => match lookup o key with
                | Some v => [(key, v)]
                | None => []
                end)
    (Object_keys o).

(** [Object.keys(o).map(key => o[key])]. *)
Definition values {V} (o : Dict V) : list V := map snd (entries o).

(** ** Property access on a value *)

(** [v.name] for the two names the code reads, [key] and [toString], on
    a value that is neither [null] nor [undefined] nor a string: an own
    property of an object, or else what it inherits, which is nothing
    for [key] and the [toString] of [Object.prototype] for [toString]. *)
Definition member (v : Value) (name : string) : Value :=
  match v with
  | Object own =>
      match lookup own name with
      | Some x => x
      | None =>
          if name =? "toString" then Method "[object Object]" else Undefined
      end
  | _ => Undefined
  end.

(** ** Prototypes *)

(** The [[Prototype]] of an object used as a map: [Object.prototype],
    with which [{}] starts, or what an assignment under ["__proto__"]
    has made it: [null], or a query that is an object or a function. *)
Inductive Prototype : Type :=
| ObjectPrototype
| NullPrototype
| ValuePrototype (v : Value).

(** A plain object: its own properties and its prototype. *)
Record Obj (V : Type) : Type := {
  own : Dict V;
  proto : Prototype
}.

Arguments Build_Obj {V} _ _.
Arguments own {V} _.
Arguments proto {V} _.

(** [{}]. *)
Definition empty {V} : Obj V := {| own := []; proto := ObjectPrototype |}.

(** The data property [name] that an object with this prototype
    inherits from below [Object.prototype], if any: an own property of
    the object that is its prototype. *)
Definition inherited (p : Prototype) (name : string) : option Value :=
  match p with
  | ValuePrototype (Object properties) => lookup properties name
  | _ => None
  end.

(** The prototype once the setter of [Object.prototype.__proto__] has
    run with [v]: an object, a function or [null] becomes the prototype,
    any other value is ignored. *)
Definition setPrototypeOf (p : Prototype) (v : Value) : Prototype :=
  match v with
  | Object _ | Method _ => ValuePrototype v
  | Null => NullPrototype
  | _ => p
  end.

End JS.

(* ================================================================== *)
(** * Exceptions and effects *)
(* ================================================================== *)

(** What can be thrown, one constructor per [throw] site of the code, one
    for a call of something that is no function, and one for whatever an
    injected callback throws. *)
Inductive Error : Type :=
| FalseyQuery
| NoStringForm
| OutsideContext (name : string)
| WatchedContextMissing (id : string)
| NotAFunction (what : string)
| Thrown (what : JS.Value).

(** The message of the errors the code creates. *)
Definition message (e : Error) : option string :=
  match e with
  | FalseyQuery => Some "Unable to convert falsey query to string"
  | NoStringForm => Some "Unable to convert query to string"
  | OutsideContext name =>
      Some ("Called '" ++ name ++ "' outside a valid subscription context")%string
  | WatchedContextMissing id =>
      Some ("Unable to locate watched context '" ++ id ++ "'")%string
  | NotAFunction what => Some (what ++ " is not a function")%string
  | Thrown _ => None
  end.

(** The answer of an injected callback: a value, or what it throws. *)
Definition thrown {A} (r : JS.Value + A) : Error + A :=
  match r with
  | inl what => inl (Thrown what)
  | inr a => inr a
  end.

(** A computation over mutable state [S] that may throw and that calls
    outside functions, recorded in order as events [E].  State changes
    made before a throw stay (JavaScript has no rollback). *)
Record Outcome (S E A : Type) : Type := {
  result : Error + A;
  final : S;
  trace : list E
}.

Arguments Build_Outcome {S E A} _ _ _.
Arguments result {S E A} _.
Arguments final {S E A} _.
Arguments trace {S E A} _.

Definition Eff (S E A : Type) : Type := S -> Outcome S E A.

Section Effects.

Context {S E : Type}.

Definition ret {A} (a : A) : Eff S E A :=
  fun s => Build_Outcome (inr a) s [].

Definition throw {A} (e : Error) : Eff S E A :=
  fun s => Build_Outcome (inl e) s [].

Definition bind {A B} (c : Eff S E A) (k : A -> Eff S E B) : Eff S E B :=
  fun s =>
    let o := c s in
    match result o with
    | inl e => Build_Outcome (inl e) (final o) (trace o)
    | inr a =>
        let o' := k a (final o) in
        Build_Outcome (result o') (final o') (trace o ++ trace o')
    end.

(** Read the state ([this]). *)
Definition this : Eff S E S :=
  fun s => Build_Outcome (inr s) s [].

(** Update the state. *)
Definition modify (f : S -> S) : Eff S E unit :=
  fun s => Build_Outcome (inr tt) (f s) [].

(** Call an outside function: the call is recorded, and its answer (a
    value or an exception) comes back. *)
Definition call {A} (ev : E) (answer : Error + A) : Eff S E A :=
  fun s => Build_Outcome answer s [ev].

(** A value or an exception computed without effect. *)
Definition lift {A} (r : Error + A) : Eff S E A :=
  fun s => Build_Outcome r s [].

End Effects.

Declare Scope eff_scope.
Delimit Scope eff_scope with eff.
Notation "x <- c ;; k" := (bind c (fun x => k))
  (at level 61, c at next level, right associativity) : eff_scope.
Notation "c ;; k" := (bind c (fun _ => k))
  (at level 61, right associativity) : eff_scope.

Section Loops.

Context {S E : Type}.
Open Scope eff_scope.

(** [l.forEach(body)]. *)
Fixpoint forEach {A} (l : list A) (body : A -> Eff S E unit) : Eff S E unit :=
  match l with
  | [] => ret tt
  | x :: rest => body x ;; forEach rest body
  end.

(** [l.map(f)], for an [f] with effects. *)
Fixpoint mapM {A B} (l : list A) (f : A -> Eff S E B) : Eff S E (list B) :=
  match l with
  | [] => ret []
  | x :: rest => y <- f x ;; ys <- mapM rest f ;; ret (y :: ys)
  end.

(** [l.find(test)]: the first element on which [test] answers true. *)
Fixpoint findM {A} (l : list A) (test : A -> Eff S E bool) : Eff S E (option A) :=
  match l with
  | [] => ret None
  | x :: rest => b <- test x ;; if b then ret (Some x) else findM rest test
  end.

End Loops.

(* ================================================================== *)
(** * Assignment and method calls on plain objects *)
(* ================================================================== *)

(** The two operations of the code on its maps that go through the
    prototype chain.  The values stored are queries; [toJS] says what a
    stored value is at run time. *)
Module Objects.

Import JS.

Section Operations.

Context {V : Type} (toJS : V -> Value).

(** [o[k] = v].  Every key but ["__proto__"] is stored as an own
    property.  Under ["__proto__"] the assignment stores only if the
    object has that own property already or inherits a data property of
    that name before the accessor of [Object.prototype] is reached;
    otherwise it runs that accessor's setter, which changes the
    prototype and stores nothing. *)
Definition set (o : Obj V) (k : string) (v : V) : Obj V :=
  let stored := {| own := assign (own o) k v; proto := proto o |} in
  let setter := {| own := own o; proto := setPrototypeOf (proto o) (toJS v) |} in
  if negb (k =? "__proto__") then stored
  else if hasOwnProperty (own o) k then stored
  else
    match proto o with
    | ObjectPrototype => setter
    | NullPrototype => stored
    | ValuePrototype _ =>
        match inherited (proto o) k with
        | Some _ => stored
        | None => setter
        end
    end.

(** Calling what [o.hasOwnProperty] is: a function answers (the code
    uses the answer as a boolean), anything else is no function. *)
Definition called (what : string) (f : Value) : Error + bool :=
  match f with
  | Method returns => inr (ToBoolean (Str returns))
  | _ => inl (NotAFunction what)
  end.

(** [o.hasOwnProperty(k)], as a boolean.  The method is looked up on
    the object: an own property of that name is what is called, then an
    inherited one, then the built-in of [Object.prototype]; an object
    with no prototype has no such method.  [what] names the callee in
    the error. *)
Definition call_hasOwnProperty (what : string) (o : Obj V) (k : string)
  : Error + bool :=
  match lookup (own o) "hasOwnProperty" with
  | Some v => called what (toJS v)
  | None =>
      match proto o with
      | ObjectPrototype => inr (hasOwnProperty (own o) k)
      | NullPrototype => inl (NotAFunction what)
      | ValuePrototype _ =>
          match inherited (proto o) "hasOwnProperty" with
          | Some f => called what f
          | None => inr (hasOwnProperty (own o) k)
          end
      end
  end.

End Operations.

(** [v.hasOwnProperty(name)] on a value that is neither [null] nor
    [undefined]: an object is asked as above; a function or a primitive
    value reaches the built-in and has no own property of the names the
    code asks for. *)
Definition has_own (v : Value) (name : string) : Error + bool :=
  match v with
  | Object properties =>
      call_hasOwnProperty (fun x => x) "q.hasOwnProperty"
        {| own := properties; proto := ObjectPrototype |} name
  | _ => inr false
  end.

End Objects.

(* ================================================================== *)
(** * watch.ts and config.ts: what the manager reads of them *)
(* ================================================================== *)

Module Watch.

(** A [BaseSubscriptionContext] as the manager sees it: its [id], which
    is unique to the instance ([getId] counts up; an id is a decimal
    numeral) and never reassigned.  Its [registerReset] and
    [forceUpdate] are outside calls, recorded as events. *)
Record BaseSubscriptionContext : Type := { id : string }.

End Watch.

(** The module-level state [get] reads: [currentContext] of watch.ts (the
    context being rendered, if any) and [globalConfig] of config.ts. *)
Record Globals : Type := {
  currentContext : option Watch.BaseSubscriptionContext;
  noGetOutsideContext : bool
}.

(** config.ts: [noGetOutsideContext: true]; no render under way. *)
Definition globalConfig : Globals :=
  {| currentContext := None; noGetOutsideContext := true |}.

Definition getCurrentContext (g : Globals) : option Watch.BaseSubscriptionContext :=
  currentContext g.

(* ================================================================== *)
(** * manager.ts *)
(* ================================================================== *)

(** [defaultQueryToString(q: any): string]. *)
Definition defaultQueryToString (q : JS.Value) : Error + string :=
  match q with
  | JS.Str s => inr s
  | _ =>
  if JS.typeof q =? "undefined" then inr ""
  else if negb (JS.ToBoolean q) then inl FalseyQuery
  else
    match JS.member q "key" with
    | JS.Str key => inr key
    | _ =>
        match Objects.has_own q "toString" with
        | inl e => inl e
        | inr true =>
            match JS.member q "toString" with
            | JS.Method s => inr s
            | _ => inl (NotAFunction "q.toString")
            end
        | inr false => inl NoStringForm
        end
    end
  end.

(** [SubscriptionManagerConfig<T, Q>]: the injected callbacks.  Each is
    given by its answer: [inr] a value, or [inl] what it throws. *)
Module Config.

(** The two ways an update is deferred: the configured
    [updateSubscription], or [requestAnimationFrame]. *)
Inductive Deferral : Type :=
| requestAnimationFrame
| configured (name : string).

Record SubscriptionManagerConfig (T Q : Type) : Type := {
  get : Q -> JS.Value + T;
  subscribe : list Q -> JS.Value + unit;
  unsubscribe : list Q -> JS.Value + unit;
  queryToString : option (Q -> JS.Value + string);
  updateSubscription : option Deferral
}.

Arguments get {T Q} _ _.
Arguments subscribe {T Q} _ _.
Arguments unsubscribe {T Q} _ _.
Arguments queryToString {T Q} _.
Arguments updateSubscription {T Q} _.

End Config.

Module Manager.

Import JS Objects.

(** The calls the manager makes to the outside, in the order made. *)
Inductive Event (Q : Type) : Type :=
| GetCalled (query : Q)
| SubscribeCalled (queries : list Q)
| UnsubscribeCalled (queries : list Q)
| DeferCalled (by_ : Config.Deferral)
| RegisterResetCalled (context : Watch.BaseSubscriptionContext)
| ForceUpdateCalled (context : Watch.BaseSubscriptionContext).

Arguments GetCalled {Q} _.
Arguments SubscribeCalled {Q} _.
Arguments UnsubscribeCalled {Q} _.
Arguments DeferCalled {Q} _.
Arguments RegisterResetCalled {Q} _.
Arguments ForceUpdateCalled {Q} _.

(** The fields of a [SubscriptionManager<T, Q>] that its methods read or
    write (its [id] is read by none of them).  The maps are given by
    their own properties.  The two maps keyed by context id are only
    ever indexed by ids.  The maps keyed by query keys also have a
    prototype that an assignment can change: [watchedPrototypes] holds,
    by context id, the prototype of each object in
    [watchedQueryKeysByContextId] that is no longer [Object.prototype],
    and [subscribedPrototype] is the prototype of
    [subscribedQueryKeys]. *)
Record SubscriptionManager (Q : Type) : Type := {
  watchedQueryKeysByContextId : Dict (Dict Q);
  watchedContexts : Dict Watch.BaseSubscriptionContext;
  subscribedQueryKeys : Dict Q;
  pendingSubscriptionUpdate : bool;
  watchedPrototypes : Dict Prototype;
  subscribedPrototype : Prototype
}.

Arguments Build_SubscriptionManager {Q} _ _ _ _ _ _.
Arguments watchedQueryKeysByContextId {Q} _.
Arguments watchedContexts {Q} _.
Arguments subscribedQueryKeys {Q} _.
Arguments pendingSubscriptionUpdate {Q} _.
Arguments watchedPrototypes {Q} _.
Arguments subscribedPrototype {Q} _.

(** The argument of [updateQueries]: none, a list of queries, or a test. *)
Inductive UpdateParam (Q : Type) : Type :=
| NoParam
| QueryList (queries : list Q)
| QueryTest (queryTest : Q -> bool).

Arguments NoParam {Q}.
Arguments QueryList {Q} _.
Arguments QueryTest {Q} _.

Section Methods.

(** The response and query types, and what a query is at run time. *)
Variables T Q : Type.
Variable toJS : Q -> Value.
Variable config : Config.SubscriptionManagerConfig T Q.

#[local] Abbreviation Mgr := (SubscriptionManager Q).
#[local] Abbreviation M := (Eff Mgr (Event Q)).

Open Scope eff_scope.

(** A manager as constructed. *)
Definition new : Mgr :=
  {| watchedQueryKeysByContextId := [];
     watchedContexts := [];
     subscribedQueryKeys := [];
     pendingSubscriptionUpdate := false;
     watchedPrototypes := [];
     subscribedPrototype := ObjectPrototype |}.

Definition set_watchedQueryKeysByContextId (w : Dict (Dict Q)) (m : Mgr) : Mgr :=
  {| watchedQueryKeysByContextId := w;
     watchedContexts := watchedContexts m;
     subscribedQueryKeys := subscribedQueryKeys m;
     pendingSubscriptionUpdate := pendingSubscriptionUpdate m;
     watchedPrototypes := watchedPrototypes m;
     subscribedPrototype := subscribedPrototype m |}.

Definition set_watchedContexts (c : Dict Watch.BaseSubscriptionContext) (m : Mgr) : Mgr :=
  {| watchedQueryKeysByContextId := watchedQueryKeysByContextId m;
     watchedContexts := c;
     subscribedQueryKeys := subscribedQueryKeys m;
     pendingSubscriptionUpdate := pendingSubscriptionUpdate m;
     watchedPrototypes := watchedPrototypes m;
     subscribedPrototype := subscribedPrototype m |}.

Definition set_subscribedQueryKeys (s : Dict Q) (m : Mgr) : Mgr :=
  {| watchedQueryKeysByContextId := watchedQueryKeysByContextId m;
     watchedContexts := watchedContexts m;
     subscribedQueryKeys := s;
     pendingSubscriptionUpdate := pendingSubscriptionUpdate m;
     watchedPrototypes := watchedPrototypes m;
     subscribedPrototype := subscribedPrototype m |}.

Definition set_pendingSubscriptionUpdate (b : bool) (m : Mgr) : Mgr :=
  {| watchedQueryKeysByContextId := watchedQueryKeysByContextId m;
     watchedContexts := watchedContexts m;
     subscribedQueryKeys := subscribedQueryKeys m;
     pendingSubscriptionUpdate := b;
     watchedPrototypes := watchedPrototypes m;
     subscribedPrototype := subscribedPrototype m |}.

Definition set_watchedPrototypes (ps : Dict Prototype) (m : Mgr) : Mgr :=
  {| watchedQueryKeysByContextId := watchedQueryKeysByContextId m;
     watchedContexts := watchedContexts m;
     subscribedQueryKeys := subscribedQueryKeys m;
     pendingSubscriptionUpdate := pendingSubscriptionUpdate m;
     watchedPrototypes := ps;
     subscribedPrototype := subscribedPrototype m |}.

Definition set_subscribedPrototype (p : Prototype) (m : Mgr) : Mgr :=
  {| watchedQueryKeysByContextId := watchedQueryKeysByContextId m;
     watchedContexts := watchedContexts m;
     subscribedQueryKeys := subscribedQueryKeys m;
     pendingSubscriptionUpdate := pendingSubscriptionUpdate m;
     watchedPrototypes := watchedPrototypes m;
     subscribedPrototype := p |}.

(** The object [this.watchedQueryKeysByContextId[id]], if there is one,
    and the object [this.subscribedQueryKeys]. *)
Definition watchedObject (m : Mgr) (id : string) : option (Obj Q) :=
  match lookup (watchedQueryKeysByContextId m) id with
  | Some queryKeys =>
      Some {| own := queryKeys;
              proto := match lookup (watchedPrototypes m) id with
                       | Some p => p
                       | None => ObjectPrototype
                       end |}
  | None => None
  end.

Definition subscribedObject (m : Mgr) : Obj Q :=
  {| own := subscribedQueryKeys m; proto := subscribedPrototype m |}.

(** The manager once [this.watchedQueryKeysByContextId[id]] is the
    object [o], and once [this.subscribedQueryKeys] is. *)
Definition set_watchedObject (id : string) (o : Obj Q) (m : Mgr) : Mgr :=
  set_watchedPrototypes
    (match proto o with
     | ObjectPrototype => delete (watchedPrototypes m) id
     | p => assign (watchedPrototypes m) id p
     end)
    (set_watchedQueryKeysByContextId
       (assign (watchedQueryKeysByContextId m) id (own o)) m).

Definition set_subscribedObject (o : Obj Q) (m : Mgr) : Mgr :=
  set_subscribedPrototype (proto o) (set_subscribedQueryKeys (own o) m).

(** The key of a query: [(queryToString || defaultQueryToString)(query)],
    the configured conversion or else the default one. *)
Definition toKey (query : Q) : Error + string :=
  match Config.queryToString config with
  | Some queryToString => thrown (queryToString query)
  | None => defaultQueryToString (toJS query)
  end.

(** [queryToString(query)]. *)
Definition queryToString (query : Q) : M string :=
  lift (toKey query).

(** [getContext(name, context?)]. *)
Definition getContext (g : Globals) (name : string)
    (context : option Watch.BaseSubscriptionContext)
  : M (option Watch.BaseSubscriptionContext) :=
  let currentContext :=
    match context with
    | Some c => Some c
    | None => getCurrentContext g
    end in
  match currentContext with
  | None =>
      if noGetOutsideContext g then throw (OutsideContext name)
      else ret currentContext
  | Some _ => ret currentContext
  end.

(** [this.config.updateSubscription || requestAnimationFrame]. *)
Definition defer : Config.Deferral :=
  match Config.updateSubscription config with
  | Some updateSubscription => updateSubscription
  | None => Config.requestAnimationFrame
  end.

(** [scheduleSubscriptionUpdate()]. *)
Definition scheduleSubscriptionUpdate : M unit :=
  m <- this ;;
  if pendingSubscriptionUpdate m then ret tt
  else
    modify (set_pendingSubscriptionUpdate true) ;;
    call (DeferCalled defer) (inr tt).

(** [registerQuery(context, query)]. *)
Definition registerQuery (context : Watch.BaseSubscriptionContext) (query : Q)
  : M unit :=
  let id := Watch.id context in
  key <- queryToString query ;;
  m <- this ;;
  queryKeys <-
    match watchedObject m id with
    | Some queryKeys => ret queryKeys
    | None =>
        modify (set_watchedObject id empty) ;;
        ret empty
    end ;;
  (if Nat.eqb (length (Object_keys (own queryKeys))) 0
   then call (RegisterResetCalled context) (inr tt)
   else ret tt) ;;
  (* [this.watchedQueryKeysByContextId[id]] is the object [queryKeys] *)
  modify (set_watchedObject id (set toJS queryKeys key query)) ;;
  modify (fun m => set_watchedContexts (assign (watchedContexts m) id context) m).

(** [reset(context)], the callback registered with a context.  (With
    the entry its object goes, prototype and all.) *)
Definition reset (context : Watch.BaseSubscriptionContext) : M unit :=
  let id := Watch.id context in
  modify (fun m => set_watchedPrototypes (delete (watchedPrototypes m) id)
            (set_watchedQueryKeysByContextId
               (delete (watchedQueryKeysByContextId m) id) m)) ;;
  modify (fun m => set_watchedContexts (delete (watchedContexts m) id) m) ;;
  scheduleSubscriptionUpdate.

(** [get(query, context?)]. *)
Definition get (g : Globals) (query : Q)
    (context : option Watch.BaseSubscriptionContext) : M T :=
  ret_ <- call (GetCalled query) (thrown (Config.get config query)) ;;
  currentContext <- getContext g "get" context ;;
  match currentContext with
  | Some c =>
      registerQuery c query ;;
      scheduleSubscriptionUpdate ;;
      ret ret_
  | None => ret ret_
  end.

(** A loop over a list whose body may throw. *)
Fixpoint foldE {A B} (body : A -> B -> Error + A) (l : list B) (acc : A)
  : Error + A :=
  match l with
  | [] => inr acc
  | x :: rest =>
      match body acc x with
      | inl e => inl e
      | inr acc' => foldE body rest acc'
      end
  end.

(** The body of the first loop of [updateSubscriptions], for one key
    watched by one context: [keysBeingWatched] and [toSubscribe] are the
    two local objects it fills. *)
Definition scanWatchedKey (m : Mgr) (acc : Obj Q * Obj Q)
    (entry : string * Q) : Error + (Obj Q * Obj Q) :=
  let '(keysBeingWatched, toSubscribe) := acc in
  let '(key, query) := entry in
  let keysBeingWatched := set toJS keysBeingWatched key query in
  match call_hasOwnProperty toJS "this.subscribedQueryKeys.hasOwnProperty"
          (subscribedObject m) key with
  | inl e => inl e
  | inr subscribed =>
      inr (keysBeingWatched,
           if negb subscribed then set toJS toSubscribe key query
           else toSubscribe)
  end.

(** The first loop, over every context and every key it watches. *)
Definition watchedScan (m : Mgr) : Error + (Obj Q * Obj Q) :=
  foldE
    (fun acc '(contextId, queryKeys) =>
       foldE (scanWatchedKey m) (entries queryKeys) acc)
    (entries (watchedQueryKeysByContextId m))
    (empty, empty).

(** The body of the second loop, for one subscribed key. *)
Definition scanSubscribedKey (keysBeingWatched : Obj Q) (toUnsubscribe : Obj Q)
    (entry : string * Q) : Error + Obj Q :=
  let '(key, query) := entry in
  match call_hasOwnProperty toJS "keysBeingWatched.hasOwnProperty"
          keysBeingWatched key with
  | inl e => inl e
  | inr watched =>
      inr (if negb watched then set toJS toUnsubscribe key query
           else toUnsubscribe)
  end.

(** The second loop, over the subscribed keys: it fills [toUnsubscribe]. *)
Definition subscribedScan (m : Mgr) (keysBeingWatched : Obj Q)
  : Error + Obj Q :=
  foldE (scanSubscribedKey keysBeingWatched)
    (entries (subscribedQueryKeys m)) empty.

(** The two loops: [toUnsubscribe] and [toSubscribe] by their own
    properties, or what a call of [hasOwnProperty] throws. *)
Definition scans (m : Mgr) : Error + (Dict Q * Dict Q) :=
  match watchedScan m with
  | inl e => inl e
  | inr (keysBeingWatched, toSubscribe) =>
      match subscribedScan m keysBeingWatched with
      | inl e => inl e
      | inr toUnsubscribe => inr (own toUnsubscribe, own toSubscribe)
      end
  end.

(** [key => { delete this.subscribedQueryKeys[key]; return toUnsubscribe[key]; }] *)
Definition dropSubscribed (entry : string * Q) : M Q :=
  let '(key, query) := entry in
  modify (fun m => set_subscribedQueryKeys
            (delete (subscribedQueryKeys m) key) m) ;;
  ret query.

(** [key => { const query = toSubscribe[key];
             this.subscribedQueryKeys[key] = query; return query; }] *)
Definition addSubscribed (entry : string * Q) : M Q :=
  let '(key, query) := entry in
  modify (fun m => set_subscribedObject
            (set toJS (subscribedObject m) key query) m) ;;
  ret query.

(** [updateSubscriptions()]. *)
Definition updateSubscriptions : M unit :=
  modify (set_pendingSubscriptionUpdate false) ;;
  m <- this ;;
  found <- lift (scans m) ;;
  let '(toUnsubscribe, toSubscribe) := found in
  toUnsubscribeQueries <- mapM (entries toUnsubscribe) dropSubscribed ;;
  (if negb (Nat.eqb (length toUnsubscribeQueries) 0)
   then call (UnsubscribeCalled toUnsubscribeQueries)
          (thrown (Config.unsubscribe config toUnsubscribeQueries))
   else ret tt) ;;
  toSubscribeQueries <- mapM (entries toSubscribe) addSubscribed ;;
  if negb (Nat.eqb (length toSubscribeQueries) 0)
  then call (SubscribeCalled toSubscribeQueries)
         (thrown (Config.subscribe config toSubscribeQueries))
  else ret tt.

(** [testFn] of [updateQueries]. *)
Definition testFn (param : UpdateParam Q) (q : Q) : M bool :=
  match param with
  | NoParam => ret true
  | QueryList param =>
      found <-
        findM param
          (fun p =>
             kp <- queryToString p ;;
             kq <- queryToString q ;;
             ret (kp =? kq)) ;;
      ret (match found with
           | Some p => ToBoolean (toJS p)
           | None => false
           end)
  | QueryTest param => ret (param q)
  end.

(** [updateQueries(param?)]. *)
Definition updateQueries (param : UpdateParam Q) : M unit :=
  m <- this ;;
  forEach (entries (watchedQueryKeysByContextId m))
    (fun '(id, queryKeys) =>
       found <-
         findM (entries queryKeys) (fun '(key, query) => testFn param query) ;;
       let doUpdate :=
         match found with
         | Some (key, _) => ToBoolean (Str key)
         | None => false
         end in
       if doUpdate then
         m <- this ;;
         match lookup (watchedContexts m) id with
         | None => throw (WatchedContextMissing id)
         | Some context => call (ForceUpdateCalled context) (inr tt)
         end
       else ret tt).

(** ** The manager and its deferral function together

    The deferral function's contract is to run the callback it is handed
    once, later.  [outstanding] counts the callbacks handed over and not
    yet run. *)
Record System : Type := {
  manager : Mgr;
  outstanding : nat
}.

Inductive Step : Type :=
| DoGet (g : Globals) (query : Q) (context : option Watch.BaseSubscriptionContext)
| DoReset (context : Watch.BaseSubscriptionContext)
| DoUpdateQueries (param : UpdateParam Q)
| RunDeferred.

Definition is_defer (e : Event Q) : bool :=
  match e with
  | DeferCalled _ => true
  | _ => false
  end.

Definition deferrals (t : list (Event Q)) : nat := length (filter is_defer t).

Definition after {A} (s : System) (o : Outcome Mgr (Event Q) A) (ran : nat) : System :=
  {| manager := final o;
     outstanding := outstanding s - ran + deferrals (trace o) |}.

(** One step of the system; the deferred callback runs only when one is
    outstanding. *)
Definition step (s : System) (c : Step) : option System :=
  match c with
  | DoGet g query context => Some (after s (get g query context (manager s)) 0)
  | DoReset context => Some (after s (reset context (manager s)) 0)
  | DoUpdateQueries param => Some (after s (updateQueries param (manager s)) 0)
  | RunDeferred =>
      if Nat.eqb (outstanding s) 0 then None
      else Some (after s (updateSubscriptions (manager s)) 1)
  end.

Definition start : System := {| manager := new; outstanding := 0 |}.

Inductive reachable : System -> Prop :=
| reachable_start : reachable start
| reachable_step s c s' : reachable s -> step s c = Some s' -> reachable s'.

(** The states reached when every step taken is one of [allowed]. *)
Inductive reachable_by (allowed : Step -> Prop) : System -> Prop :=
| reachable_by_start : reachable_by allowed start
| reachable_by_step s c s' :
    reachable_by allowed s -> allowed c -> step s c = Some s' ->
    reachable_by allowed s'.

End Methods.

Arguments new {Q}.
Arguments set_watchedQueryKeysByContextId {Q} w m.
Arguments set_watchedContexts {Q} c m.
Arguments set_subscribedQueryKeys {Q} s m.
Arguments set_pendingSubscriptionUpdate {Q} b m.
Arguments set_watchedPrototypes {Q} ps m.
Arguments set_subscribedPrototype {Q} p m.
Arguments watchedObject {Q} m id.
Arguments subscribedObject {Q} m.
Arguments set_watchedObject {Q} id o m.
Arguments set_subscribedObject {Q} o m.
Arguments foldE {A B} body l acc.
Arguments scanWatchedKey {Q} toJS m acc entry.
Arguments watchedScan {Q} toJS m.
Arguments scanSubscribedKey {Q} toJS keysBeingWatched toUnsubscribe entry.
Arguments subscribedScan {Q} toJS m keysBeingWatched.
Arguments scans {Q} toJS m.
Arguments dropSubscribed {Q} entry.
Arguments addSubscribed {Q} toJS entry.
Arguments getContext {Q} g name context.
Arguments toKey {T Q} toJS config query.
Arguments queryToString {T Q} toJS config query.
Arguments defer {T Q} config.
Arguments scheduleSubscriptionUpdate {T Q} config.
Arguments registerQuery {T Q} toJS config context query.
Arguments reset {T Q} config context.
Arguments get {T Q} toJS config g query context.
Arguments updateSubscriptions {T Q} toJS config.
Arguments testFn {T Q} toJS config param q.
Arguments updateQueries {T Q} toJS config param.
Arguments manager {Q} s.
Arguments outstanding {Q} s.
Arguments Build_System {Q} _ _.
Arguments DoGet {Q} g query context.
Arguments DoReset {Q} context.
Arguments DoUpdateQueries {Q} param.
Arguments RunDeferred {Q}.
Arguments after {Q A} s o ran.
Arguments step {T Q} toJS config s c.
Arguments start {Q}.
Arguments reachable {T Q} toJS config s.
Arguments reachable_by {T Q} toJS config allowed s.
Arguments is_defer {Q} e.
Arguments deferrals {Q} t.

End Manager.


(* ================================================================== *)
(** * Notions used in the statements *)
(* ================================================================== *)

Section Notions.

Import JS Manager.
Context {Q : Type}.

(** What a context watches at present ([{}] if it has no entry), and the
    keys of that. *)
Definition watchedBy (m : SubscriptionManager Q) (id : string) : Dict Q :=
  match lookup (watchedQueryKeysByContextId m) id with
  | Some queryKeys => queryKeys
  | None => []
  end.

Definition watchedKeys (m : SubscriptionManager Q) (id : string) : list string :=
  Object_keys (watchedBy m id).

(** The object [this.watchedQueryKeysByContextId[id]] that
    [registerQuery] assigns to: the one there, or a new [{}]. *)
Definition queryKeysOf (m : SubscriptionManager Q) (id : string) : Obj Q :=
  match watchedObject m id with
  | Some queryKeys => queryKeys
  | None => empty
  end.

(** The manager once [registerQuery] has assigned [query] under [key]
    for [context] and recorded the context. *)
Definition registered (toJS : Q -> Value)
    (context : Watch.BaseSubscriptionContext) (key : string)
    (query : Q) (m : SubscriptionManager Q) : SubscriptionManager Q :=
  let id := Watch.id context in
  let m0 :=
    match watchedObject m id with
    | Some _ => m
    | None => set_watchedObject id empty m
    end in
  let m1 := set_watchedObject id (Objects.set toJS (queryKeysOf m id) key query) m0 in
  set_watchedContexts (assign (watchedContexts m1) id context) m1.

(** The manager once [reset] has deleted what it holds for a context
    id: its watched queries, with their object, and its dispatch entry. *)
Definition unwatched (id : string) (m : SubscriptionManager Q)
  : SubscriptionManager Q :=
  set_watchedContexts (delete (watchedContexts m) id)
    (set_watchedPrototypes (delete (watchedPrototypes m) id)
       (set_watchedQueryKeysByContextId
          (delete (watchedQueryKeysByContextId m) id) m)).

(** The context a call of [get] finds: [context || getCurrentContext()]. *)
Definition available (g : Globals)
    (context : option Watch.BaseSubscriptionContext)
  : option Watch.BaseSubscriptionContext :=
  match context with
  | Some c => Some c
  | None => getCurrentContext g
  end.

(** Every (key, query) pair watched, context by context. *)
Definition watchedEntries (m : SubscriptionManager Q) : list (string * Q) :=
  flat_map (fun c => entries (snd c)) (entries (watchedQueryKeysByContextId m)).

(** ** The maps the loops of [updateSubscriptions] are meant to build

    What the two loops build when every call of [hasOwnProperty] reaches
    the built-in and every assignment stores: the union of the watched
    maps, the part of it that is not subscribed, and the subscribed keys
    that are not in it. *)
Definition addWatchedKey (m : SubscriptionManager Q) (acc : Dict Q * Dict Q)
    (entry : string * Q) : Dict Q * Dict Q :=
  let '(keysBeingWatched, toSubscribe) := acc in
  let '(key, query) := entry in
  (assign keysBeingWatched key query,
   if negb (hasOwnProperty (subscribedQueryKeys m) key)
   then assign toSubscribe key query
   else toSubscribe).

Definition watchedUnion (m : SubscriptionManager Q) : Dict Q * Dict Q :=
  fold_left
    (fun acc '(contextId, queryKeys) =>
       fold_left (addWatchedKey m) (entries queryKeys) acc)
    (entries (watchedQueryKeysByContextId m))
    ([], []).

Definition keysBeingWatched (m : SubscriptionManager Q) : Dict Q :=
  fst (watchedUnion m).

Definition toSubscribe (m : SubscriptionManager Q) : Dict Q :=
  snd (watchedUnion m).

Definition addUnwatchedKey (m : SubscriptionManager Q) (toUnsubscribe : Dict Q)
    (entry : string * Q) : Dict Q :=
  let '(key, query) := entry in
  if negb (hasOwnProperty (keysBeingWatched m) key)
  then assign toUnsubscribe key query
  else toUnsubscribe.

Definition toUnsubscribe (m : SubscriptionManager Q) : Dict Q :=
  fold_left (addUnwatchedKey m) (entries (subscribedQueryKeys m)) [].

(** The keys of a map let its assignments store and its
    [hasOwnProperty] reach the built-in: neither ["__proto__"] nor
    ["hasOwnProperty"] is an own key. *)
Definition ordinary_keys {V} (o : Dict V) : Prop :=
  hasOwnProperty o "__proto__" = false /\
  hasOwnProperty o "hasOwnProperty" = false.

(** The keys a manager holds are ordinary, and [subscribedQueryKeys]
    has the prototype it started with. *)
Definition ordinary_state (m : SubscriptionManager Q) : Prop :=
  subscribedPrototype m = ObjectPrototype /\
  ordinary_keys (subscribedQueryKeys m) /\
  forall id queryKeys,
    lookup (watchedQueryKeysByContextId m) id = Some queryKeys ->
    ordinary_keys queryKeys.

(** The same, as tests. *)
Definition ordinary_keysb {V} (o : Dict V) : bool :=
  negb (hasOwnProperty o "__proto__") &&
  negb (hasOwnProperty o "hasOwnProperty").

Definition ordinary_stateb (m : SubscriptionManager Q) : bool :=
  match subscribedPrototype m with
  | ObjectPrototype => true
  | _ => false
  end &&
  ordinary_keysb (subscribedQueryKeys m) &&
  forallb (fun e => ordinary_keysb (snd e)) (watchedQueryKeysByContextId m).

(** The object with the given own properties and the prototype [{}]
    starts with. *)
Definition plain (o : Dict Q) : Obj Q :=
  {| own := o; proto := ObjectPrototype |}.

(** The manager once the keys of a map [toUnsubscribe] are deleted from
    [subscribedQueryKeys], and once, after that, the entries of a map
    [toSubscribe] are assigned to it. *)
Definition afterUnsubscribing (toUnsubscribe : Dict Q)
    (m : SubscriptionManager Q) : SubscriptionManager Q :=
  set_subscribedQueryKeys
    (fold_left delete (Object_keys toUnsubscribe) (subscribedQueryKeys m))
    (set_pendingSubscriptionUpdate false m).

Definition afterSubscribing (toJS : Q -> Value) (toSubscribe : Dict Q)
    (m : SubscriptionManager Q) : SubscriptionManager Q :=
  set_subscribedObject
    (fold_left (fun o e => Objects.set toJS o (fst e) (snd e))
       (entries toSubscribe) (subscribedObject m))
    m.

(** The same for the maps of [toUnsubscribe] and [toSubscribe] above,
    every entry stored. *)
Definition afterUnsubscribe (m : SubscriptionManager Q) : SubscriptionManager Q :=
  afterUnsubscribing (toUnsubscribe m) m.

Definition afterSubscribe (m : SubscriptionManager Q) : SubscriptionManager Q :=
  set_subscribedQueryKeys
    (fold_left (fun o e => assign o (fst e) (snd e)) (entries (toSubscribe m))
       (subscribedQueryKeys (afterUnsubscribe m)))
    (afterUnsubscribe m).

(** The batched call of a callback, made only for a non-empty batch, and
    its answer. *)
Definition batched (ev : list Q -> Event Q) (queries : list Q) : list (Event Q) :=
  if negb (Nat.eqb (length queries) 0) then [ev queries] else [].

Definition answer (f : list Q -> Value + unit) (queries : list Q) : Error + unit :=
  if negb (Nat.eqb (length queries) 0) then thrown (f queries) else inr tt.

(** How often a context was asked to register a reset, or to update. *)
Definition registrations (c : Watch.BaseSubscriptionContext)
    (t : list (Event Q)) : nat :=
  length (filter (fun e => match e with
                           | RegisterResetCalled c' => Watch.id c' =? Watch.id c
                           | _ => false
                           end) t).

Definition forcedUpdates (c : Watch.BaseSubscriptionContext)
    (t : list (Event Q)) : nat :=
  length (filter (fun e => match e with
                           | ForceUpdateCalled c' => Watch.id c' =? Watch.id c
                           | _ => false
                           end) t).

(** The two context-indexed maps are in step: no context id twice; a
    dispatch entry exactly for the ids with an entry of watched queries;
    each dispatch entry is the context of that id. *)
Definition in_step (m : SubscriptionManager Q) : Prop :=
  NoDup (map fst (watchedQueryKeysByContextId m)) /\
  (forall id,
     hasOwnProperty (watchedQueryKeysByContextId m) id =
     hasOwnProperty (watchedContexts m) id) /\
  (forall id c, lookup (watchedContexts m) id = Some c -> Watch.id c = id).

(** Every context with an entry of watched queries watches a key. *)
Definition nonempty_watched (m : SubscriptionManager Q) : Prop :=
  forall id queryKeys,
    lookup (watchedQueryKeysByContextId m) id = Some queryKeys ->
    Object_keys queryKeys <> [].

(** Some context watches a key. *)
Definition watches_a_key (m : SubscriptionManager Q) : bool :=
  existsb (fun w => negb (Nat.eqb (length (Object_keys (snd w))) 0))
    (entries (watchedQueryKeysByContextId m)).

(** The test [updateQueries] applies to a watched query, for the forms of
    its argument that call no key conversion. *)
Definition matches (param : UpdateParam Q) (q : Q) : bool :=
  match param with
  | NoParam => true
  | QueryList _ => false
  | QueryTest queryTest => queryTest q
  end.

(** [!!Object.keys(queryKeys).find(key => test(queryKeys[key]))]. *)
Definition doUpdate (test : Q -> bool) (queryKeys : Dict Q) : bool :=
  match find (fun e => test (snd e)) (entries queryKeys) with
  | Some (key, _) => ToBoolean (Str key)
  | None => false
  end.

(** What [updateQueries] calls for one entry of the watched map. *)
Definition forced (param : UpdateParam Q) (m : SubscriptionManager Q)
    (e : string * Dict Q) : list (Event Q) :=
  if doUpdate (matches param) (snd e) then
    match lookup (watchedContexts m) (fst e) with
    | Some c => [ForceUpdateCalled c]
    | None => []
    end
  else [].

(** The error [updateQueries] throws at one entry of the watched map:
    the context is to be updated and cannot be located. *)
Definition unlocated (param : UpdateParam Q) (m : SubscriptionManager Q)
    (e : string * Dict Q) : option Error :=
  if doUpdate (matches param) (snd e) then
    match lookup (watchedContexts m) (fst e) with
    | Some _ => None
    | None => Some (WatchedContextMissing (fst e))
    end
  else None.

(** The deferred reconciliations a manager believes outstanding. *)
Definition pending_count (m : SubscriptionManager Q) : nat :=
  if pendingSubscriptionUpdate m then 1 else 0.

(** A computation that leaves its state alone and defers nothing. *)
Definition quiet {S A} (c : Eff S (Event Q) A) : Prop :=
  forall s, final (c s) = s /\ deferrals (trace (c s)) = 0.

End Notions.

(* ================================================================== *)
(** * Sample managers *)
(* ================================================================== *)

Module Examples.

Import JS Manager.
Open Scope eff_scope.

Definition context1 : Watch.BaseSubscriptionContext := {| Watch.id := "1" |}.
Definition context2 : Watch.BaseSubscriptionContext := {| Watch.id := "2" |}.

(** The globals while a context renders. *)
Definition rendering (c : Watch.BaseSubscriptionContext) : Globals :=
  {| currentContext := Some c; noGetOutsideContext := true |}.

(** A manager of string queries with a deferral function of its own. *)
Definition config1 : Config.SubscriptionManagerConfig string string :=
  {| Config.get := fun key => inr ("get1-" ++ key)%string;
     Config.subscribe := fun _ => inr tt;
     Config.unsubscribe := fun _ => inr tt;
     Config.queryToString := None;
     Config.updateSubscription := Some (Config.configured "updateSubscription1") |}.

(** The same, with an [unsubscribe] that throws. *)
Definition config1_failing : Config.SubscriptionManagerConfig string string :=
  {| Config.get := fun key => inr ("get1-" ++ key)%string;
     Config.subscribe := fun _ => inr tt;
     Config.unsubscribe := fun _ => inl (Str "offline");
     Config.queryToString := None;
     Config.updateSubscription := Some (Config.configured "updateSubscription1") |}.

(** A manager whose queries are any value and whose getter answers 123. *)
Definition config_any : Config.SubscriptionManagerConfig Z Value :=
  {| Config.get := fun _ => inr 123%Z;
     Config.subscribe := fun _ => inr tt;
     Config.unsubscribe := fun _ => inr tt;
     Config.queryToString := None;
     Config.updateSubscription := None |}.

(** A context reads a query of [config1]'s manager while it renders. *)
Definition read (c : Watch.BaseSubscriptionContext) (key : string)
  : Eff (SubscriptionManager string) (Event string) string :=
  get JS.Str config1 (rendering c) key None.

(** [context1] has read "p1a" and "p1b" and the manager has subscribed;
    it has rendered again and read "p1b" and "p1c". *)
Definition rerendered : SubscriptionManager string :=
  Eval vm_compute in
  final ((get JS.Str config1 (rendering context1) "p1a" None ;;
          get JS.Str config1 (rendering context1) "p1b" None ;;
          updateSubscriptions Str config1 ;;
          reset config1 context1 ;;
          get JS.Str config1 (rendering context1) "p1b" None ;;
          get JS.Str config1 (rendering context1) "p1c" None) new).

(** [context1] has read the query [undefined]. *)
Definition watching_undefined : SubscriptionManager Value :=
  Eval vm_compute in
  final (get (fun q => q) config_any (rendering context1) Undefined None new).

(** The manager with its deferral queue, once [context1] has read "p1a". *)
Definition first_read : System string :=
  Eval vm_compute in
  after start (get JS.Str config1 (rendering context1) "p1a" None new) 0.

(** A manager whose watched map names a context that cannot be located. *)
Definition unlocatable : SubscriptionManager string :=
  {| watchedQueryKeysByContextId := [("7", [("p1a", "p1a")])];
     watchedContexts := [];
     subscribedQueryKeys := [];
     pendingSubscriptionUpdate := false;
     watchedPrototypes := [];
     subscribedPrototype := ObjectPrototype |}.

End Examples.

(* ================================================================== *)
(** * Further notions: the list form of updateQueries *)
(* ================================================================== *)

Section ListForm.

Import JS Manager.
Context {T Q : Type} (toJS : Q -> Value)
        (config : Config.SubscriptionManagerConfig T Q).

(** [p => this.queryToString(p) === this.queryToString(q)], for a [q]
    whose key is [kq]. *)
Definition sameKey (kq : string) (p : Q) : bool :=
  match toKey toJS config p with
  | inr kp => kp =? kq
  | inl _ => false
  end.

(** [q => !!param.find(p => ...)]: what the test of the list form answers
    when every conversion returns. *)
Definition listTest (param : list Q) (q : Q) : bool :=
  match toKey toJS config q with
  | inr kq =>
      match find (sameKey kq) param with
      | Some p => ToBoolean (toJS p)
      | None => false
      end
  | inl _ => false
  end.

End ListForm.

Section OrdinaryReads.

Import JS Manager.
Context {T Q : Type} (toJS : Q -> Value)
        (config : Config.SubscriptionManagerConfig T Q).

(** A key under which an assignment stores and which does not shadow
    [hasOwnProperty]. *)
Definition ordinary (key : string) : Prop :=
  key <> "__proto__" /\ key <> "hasOwnProperty".

(** A query whose key, if it has one, is ordinary; a step that reads
    such a query, or reads none. *)
Definition ordinary_query (query : Q) : Prop :=
  forall key, toKey toJS config query = inr key -> ordinary key.

Definition ordinary_step (c : Step Q) : Prop :=
  match c with
  | DoGet _ query _ => ordinary_query query
  | _ => True
  end.

(** The states a manager reaches when the queries read are ordinary. *)
Definition reachable_ordinarily (s : System Q) : Prop :=
  reachable_by toJS config ordinary_step s.

End OrdinaryReads.

Section OwnKeys.

Import JS Manager.
Context {T Q : Type} (toJS : Q -> Value)
        (config : Config.SubscriptionManagerConfig T Q).

(** Every query a manager holds is held under its own key. *)
Definition own_keys (m : SubscriptionManager Q) : Prop :=
  (forall id queryKeys k q,
     lookup (watchedQueryKeysByContextId m) id = Some queryKeys ->
     lookup queryKeys k = Some q ->
     toKey toJS config q = inr k) /\
  (forall k q,
     lookup (subscribedQueryKeys m) k = Some q ->
     toKey toJS config q = inr k).

End OwnKeys.

Section Invariants.

Context {S E : Type}.

(** A computation keeps a property of the state, whether it returns or
    throws. *)
Definition preserves {A} (P : S -> Prop) (c : Eff S E A) : Prop :=
  forall s, P s -> P (final (c s)).

(** A computation makes only outside calls of a given kind. *)
Definition emits {A} (P : E -> Prop) (c : Eff S E A) : Prop :=
  forall s, Forall P (trace (c s)).

End Invariants.

(* ================================================================== *)
(** * watch.ts: contexts, their reset callbacks and rendering *)
(* ================================================================== *)

(** [BaseSubscriptionContext] keeps the reset callbacks registered with
    it in [resets]; [render] makes the context the current one, calls and
    clears the resets, and runs the render function, whose reads register
    the context with the managers again.  The managers and the contexts
    are objects that refer to each other, so they live in one store, the
    [World]: the fields of each manager under the manager's [id], the
    [resets] of each context under the context's [id], and the
    module-level state of watch.ts and config.ts. *)

Module Rendering.

Import JS.
Open Scope eff_scope.

(** ** Ids *)

(** [idCount += 1] on a JavaScript number: exact while [idCount] is below
    2^53; 2^53 + 1 is not a number and rounds back to 2^53. *)
Definition increment (idCount : N) : N :=
  if (idCount <? 9007199254740992)%N then (idCount + 1)%N else idCount.

(** [String(idCount)] for the integers [idCount] takes (at most 2^53,
    below the 10^21 where the exponent notation starts): the decimal
    digits. *)
Definition ToString (idCount : N) : string := index_to_string idCount.

(** [getId()], of watch.ts and of manager.ts alike; the state is the
    module's [idCount]. *)
Definition getId {E} : Eff N E string :=
  modify increment ;;
  idCount <- this ;;
  ret (ToString idCount).

(** ** The store *)

(** A [ResetCb]: the bound [reset] of the manager with this id, the
    callback managers register. *)
Inductive ResetCb : Type :=
| ManagerReset (manager : string).

Section World.

Context {T Q : Type} (toJS : Q -> Value)
        (configOf : string -> Config.SubscriptionManagerConfig T Q).

Record World : Type := {
  globals : Globals;
  resets : Dict (list ResetCb);
  managers : Dict (Manager.SubscriptionManager Q)
}.

(** Outside calls, each with the id of the manager that made it. *)
#[local] Abbreviation W := (Eff World (string * Manager.Event Q)).

Definition set_globals (g : Globals) (w : World) : World :=
  {| globals := g; resets := resets w; managers := managers w |}.

Definition set_resets (r : Dict (list ResetCb)) (w : World) : World :=
  {| globals := globals w; resets := r; managers := managers w |}.

Definition set_managers (ms : Dict (Manager.SubscriptionManager Q)) (w : World)
  : World :=
  {| globals := globals w; resets := resets w; managers := ms |}.

(** [this.resets] of the context with this id; a context is constructed
    with [resets = []]. *)
Definition resetsOf (w : World) (id : string) : list ResetCb :=
  match lookup (resets w) id with
  | Some l => l
  | None => []
  end.

(** The fields of a manager; a manager is constructed as [Manager.new]. *)
Definition managerAt (w : World) (i : string) : Manager.SubscriptionManager Q :=
  match lookup (managers w) i with
  | Some m => m
  | None => Manager.new
  end.

(** No manager and no context has done anything yet. *)
Definition start : World :=
  {| globals := globalConfig; resets := []; managers := [] |}.

(** ** Contexts *)

(** [registerReset(resetCb)]: [this.resets.push(resetCb)]. *)
Definition registerReset (c : Watch.BaseSubscriptionContext) (resetCb : ResetCb)
  : W unit :=
  modify (fun w =>
            set_resets
              (assign (resets w) (Watch.id c)
                 (resetsOf w (Watch.id c) ++ [resetCb])) w).

(** What a call a manager makes does to the store: [registerReset] of a
    context pushes the manager's reset; the other calls go outside. *)
Definition deliver (i : string) (w : World) (ev : Manager.Event Q) : World :=
  match ev with
  | Manager.RegisterResetCalled c => final (registerReset c (ManagerReset i) w)
  | _ => w
  end.

(** A method of manager [i], run on that manager's fields in the store.
    The calls it makes to [registerReset] are applied to the contexts'
    lists; no method of a manager reads a list, so it makes no difference
    that they are applied once the method is through. *)
Definition onManager {A} (i : string)
    (method : Eff (Manager.SubscriptionManager Q) (Manager.Event Q) A) : W A :=
  fun w =>
    let o := method (managerAt w i) in
    Build_Outcome (result o)
      (fold_left (deliver i) (trace o)
         (set_managers (assign (managers w) i (final o)) w))
      (map (pair i) (trace o)).

(** [manager.get(query, context?)] of manager [i]. *)
Definition get (i : string) (query : Q)
    (context : option Watch.BaseSubscriptionContext) : W T :=
  w <- this ;;
  onManager i (Manager.get toJS (configOf i) (globals w) query context).

(** [reset(this)] for a registered callback. *)
Definition runReset (c : Watch.BaseSubscriptionContext) (resetCb : ResetCb)
  : W unit :=
  match resetCb with
  | ManagerReset i => onManager i (Manager.reset (configOf i) c)
  end.

(** [reset()] of a context.  ([forEach] visits the callbacks present when
    it starts; a manager's reset registers none.) *)
Definition reset (c : Watch.BaseSubscriptionContext) : W unit :=
  w <- this ;;
  forEach (resetsOf w (Watch.id c)) (runReset c) ;;
  modify (fun w => set_resets (assign (resets w) (Watch.id c) []) w).

(** [currentContext = c]. *)
Definition setCurrentContext (c : option Watch.BaseSubscriptionContext)
  : W unit :=
  modify (fun w =>
            set_globals
              {| currentContext := c;
                 noGetOutsideContext := noGetOutsideContext (globals w) |} w).

(** [try { body } finally { handler }]: the handler runs whether or not
    the body throws; the outcome is the body's unless the handler
    throws. *)
Definition finally {A} (body : W A) (handler : W unit) : W A :=
  fun w =>
    let o := body w in
    let o' := handler (final o) in
    Build_Outcome
      (match result o' with
       | inl e => inl e
       | inr _ => result o
       end)
      (final o') (trace o ++ trace o').

(** [render()]. *)
Definition render {A} (c : Watch.BaseSubscriptionContext) (renderContent : W A)
  : W A :=
  setCurrentContext (Some c) ;;
  finally
    (reset c ;;
     renderContent)
    (setCurrentContext None).

(** [componentWillUnmount()]. *)
Definition componentWillUnmount (c : Watch.BaseSubscriptionContext) : W unit :=
  reset c.

(** ** Render functions that read *)

(** One read of a render function: [manager.get(query, context?)]. *)
Definition Read : Type :=
  string * Q * option Watch.BaseSubscriptionContext.

(** A render function that makes these reads in turn. *)
Definition reads (l : list Read) : W (list T) :=
  mapM l (fun '(i, query, context) => get i query context).

(** The context a read made while [c] renders registers with. *)
Definition target (c : Watch.BaseSubscriptionContext) (r : Read)
  : Watch.BaseSubscriptionContext :=
  match snd r with
  | Some context => context
  | None => c
  end.

(** ** What can happen to the store *)

Inductive Step : Type :=
| Configure (noGetOutsideContext : bool)
| Render (c : Watch.BaseSubscriptionContext) (content : list Read)
| Unmount (c : Watch.BaseSubscriptionContext)
| Get (i : string) (query : Q) (context : option Watch.BaseSubscriptionContext)
| UpdateQueries (i : string) (param : Manager.UpdateParam Q)
| RunDeferred (i : string).

(** One step; the deferred [updateSubscriptions] of a manager runs only
    when the manager has handed one over. *)
Definition step (w : World) (st : Step) : option World :=
  match st with
  | Configure b =>
      Some (set_globals {| currentContext := currentContext (globals w);
                           noGetOutsideContext := b |} w)
  | Render c content => Some (final (render c (reads content) w))
  | Unmount c => Some (final (componentWillUnmount c w))
  | Get i query context => Some (final (get i query context w))
  | UpdateQueries i param =>
      Some (final (onManager i
                     (Manager.updateQueries toJS (configOf i) param) w))
  | RunDeferred i =>
      if Manager.pendingSubscriptionUpdate (managerAt w i)
      then Some (final (onManager i
                          (Manager.updateSubscriptions toJS (configOf i)) w))
      else None
  end.

Inductive reachable : World -> Prop :=
| reachable_start : reachable start
| reachable_step w st w' : reachable w -> step w st = Some w' -> reachable w'.

(** The states reached when every step taken is one of [allowed]. *)
Inductive reachable_by (allowed : Step -> Prop) : World -> Prop :=
| reachable_by_start : reachable_by allowed start
| reachable_by_step w st w' :
    reachable_by allowed w -> allowed st -> step w st = Some w' ->
    reachable_by allowed w'.

(** No read is of a query with the key ["__proto__"], under which an
    assignment does not store. *)
Definition storable (l : list Read) : Prop :=
  forall i query context,
    In (i, query, context) l ->
    Manager.toKey toJS (configOf i) query <> inr "__proto__".

(** Every read is of a query whose key, if it has one, is neither
    ["__proto__"] nor ["hasOwnProperty"]; a step whose reads are. *)
Definition ordinary_reads (l : list Read) : Prop :=
  forall i query context,
    In (i, query, context) l -> ordinary_query toJS (configOf i) query.

Definition ordinary_step (st : Step) : Prop :=
  match st with
  | Render _ content => ordinary_reads content
  | Get i query _ => ordinary_query toJS (configOf i) query
  | _ => True
  end.

(** The states of the store reached when the queries read are
    ordinary. *)
Definition reachable_ordinarily (w : World) : Prop :=
  reachable_by ordinary_step w.

(** ** Notions used in the statements *)

(** What manager [i] watches for the context with this id. *)
Definition watching (w : World) (i id : string) : Dict Q :=
  watchedBy (managerAt w i) id.

(** The contexts' reset lists and the managers' watched maps are linked:
    a context's list holds a manager's reset once if the manager has an
    entry for the context, and not at all otherwise. *)
Definition linked (w : World) : Prop :=
  forall id,
    NoDup (resetsOf w id) /\
    forall i,
      In (ManagerReset i) (resetsOf w id) <->
      hasOwnProperty
        (Manager.watchedQueryKeysByContextId (managerAt w i)) id = true.

(** A context's list holds the reset of every manager that has an entry
    for the context. *)
Definition covered (w : World) : Prop :=
  forall i id,
    hasOwnProperty
      (Manager.watchedQueryKeysByContextId (managerAt w i)) id = true ->
    In (ManagerReset i) (resetsOf w id).

(** The keys of every manager are ordinary, and every context with an
    entry of watched queries watches a key. *)
Definition tidy (w : World) : Prop :=
  forall i,
    ordinary_state (managerAt w i) /\ nonempty_watched (managerAt w i).

(** The resets that the calls manager [i] made push on the list of the
    context with this id. *)
Definition pushed (i id : string) (t : list (Manager.Event Q)) : list ResetCb :=
  flat_map (fun ev => match ev with
                      | Manager.RegisterResetCalled c =>
                          if Watch.id c =? id then [ManagerReset i] else []
                      | _ => []
                      end) t.

(** A list of resets holds the reset of manager [j]. *)
Definition mentions (j : string) (l : list ResetCb) : bool :=
  existsb (fun resetCb => match resetCb with ManagerReset i => i =? j end) l.

(** Every read's getter returns and every read's query has a key. *)
Definition readable (l : list Read) : Prop :=
  forall i query context,
    In (i, query, context) l ->
    (exists v, Config.get (configOf i) query = inr v) /\
    (exists key, Manager.toKey toJS (configOf i) query = inr key).


End World.

Arguments World : clear implicits.
Arguments Read : clear implicits.

End Rendering.

(* ================================================================== *)
(** * Sample stores *)
(* ================================================================== *)

Module Scenes.

Import JS Manager Examples.

(** Managers of string queries, each configured as [config1]. *)
Definition managers1 (i : string) : Config.SubscriptionManagerConfig string string :=
  config1.

(** The two managers of watch.spec: manager 2 answers "get2-..." and
    defers with a function of its own. *)
Definition config2 : Config.SubscriptionManagerConfig string string :=
  {| Config.get := fun key => inr ("get2-" ++ key)%string;
     Config.subscribe := fun _ => inr tt;
     Config.unsubscribe := fun _ => inr tt;
     Config.queryToString := None;
     Config.updateSubscription := Some (Config.configured "updateSubscription2") |}.

Definition managers12 (i : string) : Config.SubscriptionManagerConfig string string :=
  if i =? "2" then config2 else config1.

(** [WatchedComponent] of watch.spec: reads the queries [q1] from manager
    1, then the queries [q2] from manager 2. *)
Definition WatchedComponent (q1 q2 : list string) : list (Rendering.Read string) :=
  map (fun key => ("1", key, None)) q1 ++ map (fun key => ("2", key, None)) q2.


(** A render function that reads "p1a" and "p1b" from manager 1 and
    "p2a" from manager 2, and one that reads "p1b" and "p1c" from
    manager 1. *)
Definition content1 : list (Rendering.Read string) :=
  [("1", "p1a", None); ("1", "p1b", None); ("2", "p2a", None)].


(** [context1] has rendered [content1]. *)
Definition mounted : Rendering.World string :=
  Eval vm_compute in
  final (Rendering.render managers1 context1
           (Rendering.reads Str managers1 content1) Rendering.start).

(** The manager of [first_read], once its deferred reconciliation has
    run. *)
Definition first_subscribed : System string :=
  Eval vm_compute in
  after first_read (updateSubscriptions Str config1 (manager first_read)) 1.

(** A manager of any-value queries, once [context1] has read "a". *)
Definition any_read : System Value :=
  Eval vm_compute in
  after start
    (get (fun q => q) config_any (rendering context1) (Str "a") None new) 0.

(** The manager of [first_read], once [context1] has also read "p1b". *)
Definition second_read : System string :=
  Eval vm_compute in
  after first_read
    (get Str config1 (rendering context1) "p1b" None (manager first_read)) 0.

(** A manager of string queries: [context1] has read "hasOwnProperty",
    the reconciliation has run, and [context1] has read "b". *)
Definition shadowed : SubscriptionManager string :=
  Eval vm_compute in
  final ((get Str config1 (rendering context1) "hasOwnProperty" None ;;
          updateSubscriptions Str config1 ;;
          get Str config1 (rendering context1) "b" None)%eff new).



End Scenes.

(* ================================================================== *)
(** * Facts about effects *)
(* ================================================================== *)

Section EffFacts.

Context {S E : Type}.

Lemma outcome_eta {A} (o : Outcome S E A) :
  Build_Outcome (result o) (final o) (trace o) = o.
Proof. now destruct o. Qed.

Lemma bind_ret {A B} (a : A) (k : A -> Eff S E B) s :
  bind (ret a) k s = k a s.
Proof. unfold bind, ret. simpl. apply outcome_eta. Qed.

Lemma bind_this {B} (k : S -> Eff S E B) s : bind this k s = k s s.
Proof. unfold bind, this. simpl. apply outcome_eta. Qed.

Lemma bind_modify {B} (f : S -> S) (k : unit -> Eff S E B) s :
  bind (modify f) k s = k tt (f s).
Proof. unfold bind, modify. simpl. apply outcome_eta. Qed.

Lemma bind_throw {A B} (e : Error) (k : A -> Eff S E B) s :
  bind (throw e) k s = Build_Outcome (inl e) s [].
Proof. reflexivity. Qed.

Lemma bind_lift {A B} (r : Error + A) (k : A -> Eff S E B) s :
  bind (lift r) k s =
  match r with
  | inl e => Build_Outcome (inl e) s []
  | inr a => k a s
  end.
Proof. unfold bind, lift. destruct r; simpl; [reflexivity | apply outcome_eta]. Qed.

Lemma bind_call {A B} (ev : E) (r : Error + A) (k : A -> Eff S E B) s :
  bind (call ev r) k s =
  match r with
  | inl e => Build_Outcome (inl e) s [ev]
  | inr a =>
      Build_Outcome (result (k a s)) (final (k a s)) (ev :: trace (k a s))
  end.
Proof. unfold bind, call. destruct r; reflexivity. Qed.

Lemma bind_assoc {A B C} (c : Eff S E A) (k : A -> Eff S E B)
    (h : B -> Eff S E C) s :
  bind (bind c k) h s = bind c (fun a => bind (k a) h) s.
Proof.
  unfold bind. destruct (c s) as [[e|a] s1 t1]; simpl; [reflexivity|].
  destruct (k a s1) as [[e|b] s2 t2]; simpl; [reflexivity|].
  now rewrite app_assoc.
Qed.

(** A computation that returns, leaves the state alone and calls nothing
    outside can be skipped over. *)
Lemma bind_known {A B} (c : Eff S E A) (k : A -> Eff S E B) s a s' :
  c s = Build_Outcome (inr a) s' [] -> bind c k s = k a s'.
Proof. unfold bind. intros ->. simpl. apply outcome_eta. Qed.

Lemma bind_returned {A B} (c : Eff S E A) (k : A -> Eff S E B) s a s' t :
  c s = Build_Outcome (inr a) s' t ->
  bind c k s =
  Build_Outcome (result (k a s')) (final (k a s')) (t ++ trace (k a s')).
Proof. unfold bind. now intros ->. Qed.

Lemma bind_failed {A B} (c : Eff S E A) (k : A -> Eff S E B) s e s' t :
  c s = Build_Outcome (inl e) s' t ->
  bind c k s = Build_Outcome (inl e) s' t.
Proof. unfold bind. now intros ->. Qed.

End EffFacts.

(* ================================================================== *)
(** * Facts about dictionaries *)
(* ================================================================== *)

Section DictFacts.

Import JS.
Context {V : Type}.
Implicit Types (o : Dict V) (k : string) (v : V).

Lemma lookup_assign_same o k v : lookup (assign o k v) k = Some v.
Proof.
  induction o as [|[k' v'] o IH]; simpl.
  - now rewrite String.eqb_refl.
  - destruct (k' =? k) eqn:E; simpl; now rewrite E.
Qed.

Lemma lookup_assign_other o k k' v :
  k <> k' -> lookup (assign o k v) k' = lookup o k'.
Proof.
  intros Hne. induction o as [|[k0 v0] o IH]; simpl.
  - destruct (String.eqb_spec k k'); [contradiction | reflexivity].
  - destruct (String.eqb_spec k0 k) as [->|Hk]; simpl.
    + destruct (String.eqb_spec k k'); [contradiction | reflexivity].
    + now rewrite IH.
Qed.

Lemma lookup_delete_same o k : lookup (delete o k) k = None.
Proof.
  induction o as [|[k' v'] o IH]; simpl; [reflexivity|].
  destruct (k' =? k) eqn:E; simpl; [assumption | now rewrite E].
Qed.

Lemma lookup_delete_other o k k' :
  k <> k' -> lookup (delete o k) k' = lookup o k'.
Proof.
  intros Hne. induction o as [|[k0 v0] o IH]; simpl; [reflexivity|].
  destruct (String.eqb_spec k0 k) as [->|Hk]; simpl.
  - destruct (String.eqb_spec k k'); [contradiction | assumption].
  - now rewrite IH.
Qed.

Lemma lookup_Some_In o k v : lookup o k = Some v -> In (k, v) o.
Proof.
  induction o as [|[k' v'] o IH]; simpl; [discriminate|].
  destruct (String.eqb_spec k' k) as [->|Hk].
  - intros [= ->]. now left.
  - intros H. right. now apply IH.
Qed.

Lemma hasOwnProperty_In o k :
  hasOwnProperty o k = true <-> In k (map fst o).
Proof.
  unfold hasOwnProperty.
  induction o as [|[k' v'] o IH]; simpl.
  - split; [discriminate | contradiction].
  - destruct (String.eqb_spec k' k) as [->|Hk].
    + split; auto.
    + rewrite IH. split; [auto | intros [H|H]; [contradiction | assumption]].
Qed.

Lemma hasOwnProperty_lookup o k :
  hasOwnProperty o k = true <-> exists v, lookup o k = Some v.
Proof.
  unfold hasOwnProperty. destruct (lookup o k) as [v|].
  - split; eauto.
  - split; [discriminate | intros [v [=]]].
Qed.

Lemma hasOwnProperty_false o k :
  hasOwnProperty o k = false <-> lookup o k = None.
Proof.
  unfold hasOwnProperty. destruct (lookup o k); split; congruence.
Qed.

Lemma lookup_all_None o : (forall k, lookup o k = None) -> o = [].
Proof.
  destruct o as [|[k v] o]; [reflexivity|].
  intros H. specialize (H k). simpl in H.
  now rewrite String.eqb_refl in H.
Qed.

(** The own property names after an assignment. *)
Lemma names_assign o k v :
  map fst (assign o k v) =
  if hasOwnProperty o k then map fst o else map fst o ++ [k].
Proof.
  unfold hasOwnProperty.
  induction o as [|[k' v'] o IH]; simpl; [reflexivity|].
  destruct (k' =? k) eqn:E; simpl; [reflexivity|].
  rewrite IH. now destruct (lookup o k).
Qed.

Lemma names_NoDup_assign o k v :
  NoDup (map fst o) -> NoDup (map fst (assign o k v)).
Proof.
  intros H. rewrite names_assign.
  destruct (hasOwnProperty o k) eqn:E; [assumption|].
  apply (Permutation_NoDup (Permutation_cons_append (map fst o) k)).
  constructor; [|assumption].
  intros Hin. apply hasOwnProperty_In in Hin. congruence.
Qed.

(** ** Enumeration *)

Lemma array_index_canonical k n :
  array_index k = Some n -> index_to_string n = k.
Proof.
  unfold array_index.
  destruct (NilEmpty.uint_of_string k) as [d|]; [|discriminate].
  cbv zeta.
  destruct (index_to_string (N.of_uint d) =? k) eqn:E; simpl; [|discriminate].
  destruct (N.of_uint d <? 4294967295)%N; [|discriminate].
  intros [= <-]. now apply String.eqb_eq.
Qed.

Lemma insert_index_perm n l : Permutation (insert_index n l) (n :: l).
Proof.
  induction l as [|x l IH]; simpl; [reflexivity|].
  destruct (n <=? x)%N; [reflexivity|].
  rewrite IH. apply perm_swap.
Qed.

Lemma OrdinaryOwnPropertyKeys_perm ks :
  Permutation (OrdinaryOwnPropertyKeys ks) ks.
Proof.
  unfold OrdinaryOwnPropertyKeys, is_name.
  induction ks as [|k ks IH]; simpl; [reflexivity|].
  destruct (array_index k) as [n|] eqn:E.
  - rewrite insert_index_perm. simpl.
    rewrite (array_index_canonical _ _ E). now constructor.
  - rewrite <- Permutation_middle. now constructor.
Qed.

Lemma Object_keys_perm o : Permutation (Object_keys o) (map fst o).
Proof. apply OrdinaryOwnPropertyKeys_perm. Qed.

Lemma Object_keys_In o k :
  In k (Object_keys o) <-> hasOwnProperty o k = true.
Proof.
  rewrite hasOwnProperty_In. split; apply Permutation_in.
  - apply Object_keys_perm.
  - symmetry. apply Object_keys_perm.
Qed.

Lemma Object_keys_NoDup o : NoDup (map fst o) -> NoDup (Object_keys o).
Proof.
  apply Permutation_NoDup. symmetry. apply Object_keys_perm.
Qed.

Lemma Object_keys_nil : Object_keys (@nil (string * V)) = [].
Proof. reflexivity. Qed.

(** Reading back the value under each enumerated key loses no key. *)
Lemma entries_keys o : map fst (entries o) = Object_keys o.
Proof.
  unfold entries.
  assert (H : forall k, In k (Object_keys o) -> hasOwnProperty o k = true)
    by (intros k; apply Object_keys_In).
  induction (Object_keys o) as [|k ks IH]; simpl; [reflexivity|].
  rewrite map_app, IH by (intros; apply H; now right).
  specialize (H k (or_introl eq_refl)). unfold hasOwnProperty in H.
  now destruct (lookup o k).
Qed.

Lemma entries_In o k v : In (k, v) (entries o) <-> lookup o k = Some v.
Proof.
  unfold entries. rewrite in_flat_map. split.
  - intros (k' & _ & H). destruct (lookup o k') as [v'|] eqn:E; simpl in H.
    + destruct H as [[= -> ->]|[]]. assumption.
    + contradiction.
  - intros H. exists k. split.
    + apply Object_keys_In, hasOwnProperty_lookup. eauto.
    + rewrite H. now left.
Qed.

Lemma entries_nil : entries (@nil (string * V)) = [].
Proof. reflexivity. Qed.

Lemma values_In o v : In v (values o) <-> exists k, lookup o k = Some v.
Proof.
  unfold values. rewrite in_map_iff. split.
  - intros ([k v'] & <- & H). exists k. now apply entries_In.
  - intros (k & H). exists (k, v). split; [reflexivity | now apply entries_In].
Qed.

Lemma values_length o : length (values o) = length (Object_keys o).
Proof.
  unfold values. now rewrite length_map, <- entries_keys, length_map.
Qed.

End DictFacts.

Section ScanFacts.

Import JS Manager.
Context {Q : Type}.
Implicit Types (m : SubscriptionManager Q) (k key : string) (q query : Q).

Lemma watchedUnion_flat m :
  watchedUnion m = fold_left (addWatchedKey m) (watchedEntries m) ([], []).
Proof.
  unfold watchedUnion, watchedEntries.
  generalize (@nil (string * Q), @nil (string * Q)).
  induction (entries (watchedQueryKeysByContextId m)) as [|[id qk] l IH];
    intros acc; simpl; [reflexivity|].
  now rewrite fold_left_app, IH.
Qed.

Lemma watchedEntries_In m k q :
  In (k, q) (watchedEntries m) <->
  exists id queryKeys,
    lookup (watchedQueryKeysByContextId m) id = Some queryKeys /\
    lookup queryKeys k = Some q.
Proof.
  unfold watchedEntries. rewrite in_flat_map. split.
  - intros ([id qk] & Hc & Hk). exists id, qk.
    split; [now apply entries_In | now apply entries_In].
  - intros (id & qk & Hc & Hk). exists (id, qk).
    split; [now apply entries_In | now apply entries_In].
Qed.

(** The loop invariant of the first loop: [toSubscribe] is
    [keysBeingWatched] without the keys already subscribed. *)
Lemma addWatchedKey_invariant m l : forall kbw ts,
  (forall k, lookup ts k =
             if hasOwnProperty (subscribedQueryKeys m) k then None
             else lookup kbw k) ->
  forall k,
    lookup (snd (fold_left (addWatchedKey m) l (kbw, ts))) k =
    if hasOwnProperty (subscribedQueryKeys m) k then None
    else lookup (fst (fold_left (addWatchedKey m) l (kbw, ts))) k.
Proof.
  induction l as [|[key query] l IH]; intros kbw ts Hinv; simpl;
    [assumption|].
  apply IH. intros k.
  destruct (String.eqb_spec key k) as [->|Hne].
  - rewrite lookup_assign_same.
    destruct (hasOwnProperty (subscribedQueryKeys m) k) eqn:E; simpl.
    + now rewrite Hinv, E.
    + apply lookup_assign_same.
  - rewrite (lookup_assign_other kbw) by assumption.
    destruct (hasOwnProperty (subscribedQueryKeys m) key); simpl.
    + apply Hinv.
    + rewrite lookup_assign_other by assumption. apply Hinv.
Qed.

(** What the first loop leaves in [keysBeingWatched]: the last pair
    listed under each key. *)
Lemma addWatchedKey_sound m l : forall kbw ts k q,
  lookup (fst (fold_left (addWatchedKey m) l (kbw, ts))) k = Some q ->
  lookup kbw k = Some q \/ In (k, q) l.
Proof.
  induction l as [|[key query] l IH]; intros kbw ts k q H; simpl in *;
    [now left|].
  apply IH in H. destruct H as [H|H]; [|now right; right].
  destruct (String.eqb_spec key k) as [->|Hne].
  - rewrite lookup_assign_same in H. injection H as ->. right. now left.
  - rewrite lookup_assign_other in H by assumption. now left.
Qed.

Lemma addWatchedKey_complete m l : forall kbw ts k,
  hasOwnProperty kbw k = true \/ In k (map fst l) ->
  hasOwnProperty (fst (fold_left (addWatchedKey m) l (kbw, ts))) k = true.
Proof.
  induction l as [|[key query] l IH]; intros kbw ts k H; simpl in *.
  - destruct H as [H|[]]. assumption.
  - apply IH.
    destruct (String.eqb_spec key k) as [->|Hne].
    + left. apply hasOwnProperty_lookup. exists query. apply lookup_assign_same.
    + destruct H as [H|[H|H]]; [left | contradiction | now right].
      unfold hasOwnProperty. now rewrite lookup_assign_other.
Qed.

(** [keysBeingWatched] is the union of the watched keys over all contexts. *)
Lemma keysBeingWatched_union m k :
  hasOwnProperty (keysBeingWatched m) k = true <->
  exists id queryKeys,
    lookup (watchedQueryKeysByContextId m) id = Some queryKeys /\
    hasOwnProperty queryKeys k = true.
Proof.
  unfold keysBeingWatched. rewrite watchedUnion_flat. split.
  - intros H. apply hasOwnProperty_lookup in H. destruct H as [q H].
    apply addWatchedKey_sound in H. destruct H as [H|H]; [discriminate|].
    apply watchedEntries_In in H. destruct H as (id & qk & Hc & Hk).
    exists id, qk. split; [assumption|].
    apply hasOwnProperty_lookup. eauto.
  - intros (id & qk & Hc & Hk).
    apply hasOwnProperty_lookup in Hk. destruct Hk as [q Hk].
    apply addWatchedKey_complete. right.
    apply in_map_iff. exists (k, q). split; [reflexivity|].
    apply watchedEntries_In. eauto.
Qed.

(** Each query in [keysBeingWatched] is one a context watches under
    that key. *)
Lemma keysBeingWatched_lookup m k q :
  lookup (keysBeingWatched m) k = Some q ->
  exists id queryKeys,
    lookup (watchedQueryKeysByContextId m) id = Some queryKeys /\
    lookup queryKeys k = Some q.
Proof.
  unfold keysBeingWatched. rewrite watchedUnion_flat. intros H.
  apply addWatchedKey_sound in H. destruct H as [H|H]; [discriminate|].
  now apply watchedEntries_In.
Qed.

(** [toSubscribe]: the watched keys that are not subscribed. *)
Lemma toSubscribe_lookup m k :
  lookup (toSubscribe m) k =
  if hasOwnProperty (subscribedQueryKeys m) k then None
  else lookup (keysBeingWatched m) k.
Proof.
  unfold toSubscribe, keysBeingWatched. rewrite watchedUnion_flat.
  apply addWatchedKey_invariant. intros k'. simpl.
  now destruct (hasOwnProperty (subscribedQueryKeys m) k').
Qed.

(** [toUnsubscribe]: the subscribed keys that are not watched. *)
Lemma addUnwatchedKey_invariant m l : forall tu,
  (forall k q, In (k, q) l -> lookup (subscribedQueryKeys m) k = Some q) ->
  (forall k, lookup tu k = None \/
             (hasOwnProperty (keysBeingWatched m) k = false /\
              lookup tu k = lookup (subscribedQueryKeys m) k)) ->
  forall k,
    let tu' := fold_left (addUnwatchedKey m) l tu in
    (lookup tu' k = None \/
     (hasOwnProperty (keysBeingWatched m) k = false /\
      lookup tu' k = lookup (subscribedQueryKeys m) k)) /\
    ((hasOwnProperty tu k = true \/ In k (map fst l)) ->
     hasOwnProperty (keysBeingWatched m) k = false ->
     hasOwnProperty tu' k = true).
Proof.
  induction l as [|[key query] l IH]; intros tu Hl Hinv k; simpl.
  - split; [apply Hinv|]. intros [H|[]] _. assumption.
  - assert (Hkey : lookup (subscribedQueryKeys m) key = Some query)
      by (apply Hl; now left).
    assert (Hl' : forall k q, In (k, q) l ->
                    lookup (subscribedQueryKeys m) k = Some q)
      by (intros; apply Hl; now right).
    destruct (hasOwnProperty (keysBeingWatched m) key) eqn:Ew; simpl.
    + destruct (IH tu Hl' Hinv k) as [IH1 IH2]. split; [exact IH1|].
      intros [H|[H|H]] Hk; [apply IH2; auto | simpl in H; congruence
                            | apply IH2; auto].
    + assert (Hinv' : forall k0,
                lookup (assign tu key query) k0 = None \/
                (hasOwnProperty (keysBeingWatched m) k0 = false /\
                 lookup (assign tu key query) k0 =
                 lookup (subscribedQueryKeys m) k0)).
      { intros k0. destruct (String.eqb_spec key k0) as [<-|Hne].
        - right. split; [assumption|]. now rewrite lookup_assign_same.
        - rewrite lookup_assign_other by assumption. apply Hinv. }
      destruct (IH (assign tu key query) Hl' Hinv' k) as [IH1 IH2].
      split; [exact IH1|].
      intros H Hk. apply IH2; [|assumption].
      destruct (String.eqb_spec key k) as [<-|Hne].
      * left. apply hasOwnProperty_lookup. exists query.
        apply lookup_assign_same.
      * destruct H as [H|[H|H]]; [left | simpl in H; congruence | now right].
        unfold hasOwnProperty. now rewrite lookup_assign_other.
Qed.

Lemma toUnsubscribe_lookup m k :
  lookup (toUnsubscribe m) k =
  if hasOwnProperty (keysBeingWatched m) k then None
  else lookup (subscribedQueryKeys m) k.
Proof.
  unfold toUnsubscribe.
  destruct (addUnwatchedKey_invariant m (entries (subscribedQueryKeys m)) []
              (fun k q H => proj1 (entries_In _ k q) H)
              (fun k => or_introl eq_refl) k) as [H1 H2].
  cbv zeta in H1, H2.
  destruct (hasOwnProperty (keysBeingWatched m) k) eqn:Ew.
  - destruct H1 as [H1|[H1 _]]; [assumption | discriminate].
  - destruct (lookup (subscribedQueryKeys m) k) as [q|] eqn:Es.
    + destruct H1 as [H1|[_ H1]]; [|assumption].
      assert (Hin : hasOwnProperty
                (fold_left (addUnwatchedKey m)
                   (entries (subscribedQueryKeys m)) []) k = true).
      { apply H2; [|reflexivity]. right. rewrite entries_keys.
        apply Object_keys_In, hasOwnProperty_lookup. eauto. }
      apply hasOwnProperty_lookup in Hin. destruct Hin as [q' Hin]. congruence.
    + destruct H1 as [H1|[_ H1]]; assumption.
Qed.

(** The two local maps are built from [{}]: no key twice. *)
Lemma addWatchedKey_NoDup m l : forall kbw ts,
  NoDup (map fst ts) ->
  NoDup (map fst (snd (fold_left (addWatchedKey m) l (kbw, ts)))).
Proof.
  induction l as [|[key query] l IH]; intros kbw ts H; simpl; [assumption|].
  apply IH. destruct (negb _); [now apply names_NoDup_assign | assumption].
Qed.

Lemma toSubscribe_NoDup m : NoDup (Object_keys (toSubscribe m)).
Proof.
  apply Object_keys_NoDup. unfold toSubscribe. rewrite watchedUnion_flat.
  apply addWatchedKey_NoDup. constructor.
Qed.

Lemma addUnwatchedKey_NoDup m l : forall tu,
  NoDup (map fst tu) ->
  NoDup (map fst (fold_left (addUnwatchedKey m) l tu)).
Proof.
  induction l as [|[key query] l IH]; intros tu H; simpl; [assumption|].
  apply IH. destruct (negb _); [now apply names_NoDup_assign | assumption].
Qed.

Lemma toUnsubscribe_NoDup m : NoDup (Object_keys (toUnsubscribe m)).
Proof.
  apply Object_keys_NoDup. unfold toUnsubscribe.
  apply addUnwatchedKey_NoDup. constructor.
Qed.

End ScanFacts.

(* ================================================================== *)
(** * Assignment and hasOwnProperty on plain objects *)
(* ================================================================== *)

Section ObjectFacts.

Import JS Objects.
Context {V : Type} (toJS : V -> Value).
Implicit Types (o : Obj V) (k : string) (v : V).

(** Every key but ["__proto__"] is stored. *)
Lemma set_stored o k v :
  k <> "__proto__" ->
  set toJS o k v = {| own := assign (own o) k v; proto := proto o |}.
Proof.
  intros H. unfold set. apply String.eqb_neq in H. now rewrite H.
Qed.

(** An assignment stores under its key or leaves the own properties
    alone. *)
Lemma set_own o k v :
  own (set toJS o k v) = assign (own o) k v \/
  (k = "__proto__" /\ own (set toJS o k v) = own o).
Proof.
  unfold set. destruct (String.eqb_spec k "__proto__") as [->|Hne];
    cbn [negb]; [|now left].
  destruct (hasOwnProperty (own o) "__proto__"); [now left|].
  destruct (proto o) as [| |pv]; [now right | now left |].
  destruct (inherited (ValuePrototype pv) "__proto__");
    [now left | now right].
Qed.

(** What an object holds after an assignment, it held before or was
    assigned. *)
Lemma set_lookup o k v k' v' :
  lookup (own (set toJS o k v)) k' = Some v' ->
  (k' = k /\ v' = v) \/ lookup (own o) k' = Some v'.
Proof.
  destruct (set_own o k v) as [->|[_ ->]]; [|now right].
  destruct (String.eqb_spec k k') as [<-|Hne].
  - rewrite lookup_assign_same. intros [= <-]. now left.
  - rewrite lookup_assign_other by assumption. now right.
Qed.

Lemma set_names_NoDup o k v :
  NoDup (map fst (own o)) -> NoDup (map fst (own (set toJS o k v))).
Proof.
  intros H. destruct (set_own o k v) as [->|[_ ->]]; [|assumption].
  now apply names_NoDup_assign.
Qed.

(** With no own property of that name and the prototype [{}] starts
    with, [hasOwnProperty] is the built-in. *)
Lemma call_hasOwnProperty_builtin what o k :
  hasOwnProperty (own o) "hasOwnProperty" = false ->
  proto o = ObjectPrototype ->
  call_hasOwnProperty toJS what o k = inr (hasOwnProperty (own o) k).
Proof.
  intros H Hp. unfold call_hasOwnProperty.
  apply hasOwnProperty_false in H. now rewrite H, Hp.
Qed.

End ObjectFacts.

Section FoldFacts.

Import Manager.

(** A loop whose body does not throw on the values it meets is a fold. *)
Lemma foldE_fold {A A' B} (emb : A' -> A) (body : A -> B -> Error + A)
    (f : A' -> B -> A') (l : list B) :
  (forall acc x, In x l -> body (emb acc) x = inr (emb (f acc x))) ->
  forall acc, foldE body l (emb acc) = inr (emb (fold_left f l acc)).
Proof.
  induction l as [|x l IH]; intros H acc; cbn [foldE fold_left];
    [reflexivity|].
  rewrite H by now left. apply IH. intros; apply H; now right.
Qed.

(** A property kept by the body is kept by the loop. *)
Lemma foldE_invariant {A B} (P : A -> Prop) (body : A -> B -> Error + A)
    (l : list B) :
  (forall acc x acc', In x l -> P acc -> body acc x = inr acc' -> P acc') ->
  forall acc acc', P acc -> foldE body l acc = inr acc' -> P acc'.
Proof.
  induction l as [|x l IH]; intros H acc acc' Hacc; cbn [foldE].
  - now intros [= <-].
  - destruct (body acc x) as [e|acc1] eqn:E; [discriminate|].
    apply IH; [intros; eapply H; eauto; now right|].
    eapply H; eauto. now left.
Qed.

End FoldFacts.

Section RunFacts.

Import JS Objects Manager.
Context {T Q : Type} (toJS : Q -> Value)
  (config : Config.SubscriptionManagerConfig T Q).
Implicit Types (m : SubscriptionManager Q) (k key : string) (q query : Q).

Lemma set_subscribedQueryKeys_same m :
  set_subscribedQueryKeys (subscribedQueryKeys m) m = m.
Proof. now destruct m. Qed.

Lemma mapM_dropSubscribed (l : list (string * Q)) : forall m,
  mapM l dropSubscribed m =
  Build_Outcome (inr (map snd l))
    (set_subscribedQueryKeys
       (fold_left delete (map fst l) (subscribedQueryKeys m)) m)
    [].
Proof.
  induction l as [|[key query] l IH]; intros m; simpl.
  - unfold ret. now rewrite set_subscribedQueryKeys_same.
  - unfold dropSubscribed at 1.
    rewrite bind_assoc, bind_modify, bind_ret.
    erewrite bind_known by apply IH. reflexivity.
Qed.

Lemma set_subscribedObject_same m :
  set_subscribedObject (subscribedObject m) m = m.
Proof. now destruct m. Qed.

Lemma subscribedObject_set (o : Obj Q) m :
  subscribedObject (set_subscribedObject o m) = o.
Proof. now destruct o. Qed.

Lemma set_subscribedObject_twice (o o' : Obj Q) m :
  set_subscribedObject o' (set_subscribedObject o m) = set_subscribedObject o' m.
Proof. reflexivity. Qed.

Lemma mapM_addSubscribed (l : list (string * Q)) : forall m,
  mapM l (addSubscribed toJS) m =
  Build_Outcome (inr (map snd l))
    (set_subscribedObject
       (fold_left (fun o e => set toJS o (fst e) (snd e)) l
          (subscribedObject m)) m)
    [].
Proof.
  induction l as [|[key query] l IH]; intros m; simpl.
  - unfold ret. now rewrite set_subscribedObject_same.
  - unfold addSubscribed at 1.
    rewrite bind_assoc, bind_modify, bind_ret.
    erewrite bind_known by apply IH.
    now rewrite subscribedObject_set, set_subscribedObject_twice.
Qed.

(** The run of [updateSubscriptions], by what its two loops find. *)
Lemma updateSubscriptions_scanned m :
  updateSubscriptions toJS config m =
  match scans toJS m with
  | inl e => Build_Outcome (inl e) (set_pendingSubscriptionUpdate false m) []
  | inr (toUnsubscribe, toSubscribe) =>
      let us := values toUnsubscribe in
      let ss := values toSubscribe in
      match answer (Config.unsubscribe config) us with
      | inl e =>
          Build_Outcome (inl e) (afterUnsubscribing toUnsubscribe m)
            [UnsubscribeCalled us]
      | inr _ =>
          Build_Outcome (answer (Config.subscribe config) ss)
            (afterSubscribing toJS toSubscribe
               (afterUnsubscribing toUnsubscribe m))
            (batched UnsubscribeCalled us ++ batched SubscribeCalled ss)
      end
  end.
Proof.
  unfold updateSubscriptions.
  rewrite bind_modify, bind_this.
  change (scans toJS (set_pendingSubscriptionUpdate false m))
    with (scans toJS m).
  rewrite bind_lift.
  destruct (scans toJS m) as [e|[toUnsubscribe toSubscribe]].
  - reflexivity.
  - cbv zeta.
    erewrite bind_known by apply mapM_dropSubscribed.
    rewrite entries_keys. fold (values toUnsubscribe).
    fold (afterUnsubscribing toUnsubscribe m).
    unfold answer, batched.
    destruct (negb (length (values toUnsubscribe) =? 0)%nat).
    + rewrite bind_call.
      destruct (Config.unsubscribe config (values toUnsubscribe))
        as [e|[]]; simpl; [reflexivity|].
      erewrite bind_known by apply mapM_addSubscribed.
      fold (values toSubscribe).
      fold (afterSubscribing toJS toSubscribe
              (afterUnsubscribing toUnsubscribe m)).
      destruct (negb (length (values toSubscribe) =? 0)%nat); reflexivity.
    + rewrite bind_ret.
      erewrite bind_known by apply mapM_addSubscribed.
      fold (values toSubscribe).
      fold (afterSubscribing toJS toSubscribe
              (afterUnsubscribing toUnsubscribe m)).
      destruct (negb (length (values toSubscribe) =? 0)%nat); reflexivity.
Qed.

(** ** What the loops find, whatever the keys *)

Lemma ordinary_keysb_sound {V} (o : Dict V) :
  ordinary_keysb o = true -> ordinary_keys o.
Proof.
  unfold ordinary_keysb, ordinary_keys.
  destruct (hasOwnProperty o "__proto__"),
    (hasOwnProperty o "hasOwnProperty"); simpl; intros; auto; discriminate.
Qed.

Lemma ordinary_stateb_sound m : ordinary_stateb m = true -> ordinary_state m.
Proof.
  unfold ordinary_stateb, ordinary_state.
  intros H. apply andb_prop in H. destruct H as [H Hw].
  apply andb_prop in H. destruct H as [Hp Hs].
  split; [now destruct (subscribedPrototype m)|].
  split; [now apply ordinary_keysb_sound|].
  intros id queryKeys Hl. apply lookup_Some_In in Hl.
  rewrite forallb_forall in Hw. apply ordinary_keysb_sound.
  apply (Hw _ Hl).
Qed.



Lemma scanSubscribedKey_sound (kbw tu tu' : Obj Q) key query :
  scanSubscribedKey toJS kbw tu (key, query) = inr tu' ->
  tu' = tu \/ tu' = set toJS tu key query.
Proof.
  unfold scanSubscribedKey.
  destruct (call_hasOwnProperty _ _ _ _) as [e|[]]; [discriminate| |];
    cbn [negb]; intros [= <-]; auto.
Qed.

Lemma scanWatchedKey_sound m (kbw ts kbw' ts' : Obj Q) key query :
  scanWatchedKey toJS m (kbw, ts) (key, query) = inr (kbw', ts') ->
  kbw' = set toJS kbw key query /\
  (ts' = ts \/ ts' = set toJS ts key query).
Proof.
  unfold scanWatchedKey.
  destruct (call_hasOwnProperty _ _ _ _) as [e|[]]; [discriminate| |];
    cbn [negb]; intros [= <- <-]; auto.
Qed.

(** What the second loop finds to unsubscribe is subscribed, one query
    per key. *)
Lemma subscribedScan_sound m (kbw tu : Obj Q) :
  subscribedScan toJS m kbw = inr tu ->
  NoDup (map fst (own tu)) /\
  forall k q, lookup (own tu) k = Some q ->
              lookup (subscribedQueryKeys m) k = Some q.
Proof.
  unfold subscribedScan.
  apply (foldE_invariant
           (fun tu : Obj Q =>
              NoDup (map fst (own tu)) /\
              forall k q, lookup (own tu) k = Some q ->
                          lookup (subscribedQueryKeys m) k = Some q)).
  - intros acc [key query] acc' Hin [Hnd Hacc] Hstep.
    apply scanSubscribedKey_sound in Hstep. destruct Hstep as [->| ->];
      [now split|].
    split; [now apply set_names_NoDup|].
    intros k q Hl. apply set_lookup in Hl. destruct Hl as [[-> ->]|Hl].
    + now apply entries_In.
    + now apply Hacc.
  - split; [constructor | discriminate].
Qed.

(** What the first loop finds to subscribe is watched by some context,
    one query per key. *)
Lemma watchedScan_sound m (kbw ts : Obj Q) :
  watchedScan toJS m = inr (kbw, ts) ->
  NoDup (map fst (own ts)) /\
  forall k q, lookup (own ts) k = Some q ->
    exists id queryKeys,
      lookup (watchedQueryKeysByContextId m) id = Some queryKeys /\
      lookup queryKeys k = Some q.
Proof.
  unfold watchedScan.
  pose (P := fun acc : Obj Q * Obj Q =>
     NoDup (map fst (own (snd acc))) /\
     forall k q, lookup (own (snd acc)) k = Some q ->
       exists id queryKeys,
         lookup (watchedQueryKeysByContextId m) id = Some queryKeys /\
         lookup queryKeys k = Some q).
  intros H.
  apply (foldE_invariant P _ _) with (acc' := (kbw, ts)) in H; [exact H| |].
  - intros acc [id queryKeys] acc' Hin Hacc Hstep.
    apply entries_In in Hin.
    revert Hstep. apply (foldE_invariant P); [|assumption].
    intros [kbw0 ts0] [key query] [kbw1 ts1] Hin' [Hnd H0] Hstep.
    apply scanWatchedKey_sound in Hstep. destruct Hstep as [_ [->| ->]];
      [now split|].
    split; [now apply set_names_NoDup|].
    cbn [snd] in *. intros k q Hl. apply set_lookup in Hl.
    destruct Hl as [[-> ->]|Hl].
    + exists id, queryKeys. split; [assumption | now apply entries_In].
    + now apply H0.
  - split; [constructor | discriminate].
Qed.

Lemma scans_sound m (toUnsubscribe toSubscribe : Dict Q) :
  scans toJS m = inr (toUnsubscribe, toSubscribe) ->
  NoDup (map fst toUnsubscribe) /\
  (forall k q, lookup toUnsubscribe k = Some q ->
               lookup (subscribedQueryKeys m) k = Some q) /\
  NoDup (map fst toSubscribe) /\
  (forall k q, lookup toSubscribe k = Some q ->
     exists id queryKeys,
       lookup (watchedQueryKeysByContextId m) id = Some queryKeys /\
       lookup queryKeys k = Some q).
Proof.
  unfold scans.
  destruct (watchedScan toJS m) as [e|[kbw ts]] eqn:Ew; [discriminate|].
  destruct (subscribedScan toJS m kbw) as [e|tu] eqn:Es; [discriminate|].
  intros [= <- <-].
  destruct (subscribedScan_sound _ _ _ Es), (watchedScan_sound _ _ _ Ew).
  tauto.
Qed.

(** ** Ordinary keys: the loops find the maps they are meant to build *)

Lemma ordinary_keys_In {V} (o : Dict V) k v :
  ordinary_keys o -> In (k, v) (entries o) ->
  k <> "__proto__" /\ k <> "hasOwnProperty".
Proof.
  intros [Hp Hh] Hin.
  assert (Hk : hasOwnProperty o k = true).
  { apply Object_keys_In. rewrite <- entries_keys.
    now apply (in_map fst) in Hin. }
  split; intros ->; congruence.
Qed.

Lemma scanWatchedKey_ordinary m kbw ts key query :
  subscribedPrototype m = ObjectPrototype ->
  hasOwnProperty (subscribedQueryKeys m) "hasOwnProperty" = false ->
  key <> "__proto__" ->
  scanWatchedKey toJS m (plain kbw, plain ts) (key, query) =
  inr (plain (fst (addWatchedKey m (kbw, ts) (key, query))),
       plain (snd (addWatchedKey m (kbw, ts) (key, query)))).
Proof.
  intros Hp Hh Hk. unfold scanWatchedKey, addWatchedKey.
  rewrite (call_hasOwnProperty_builtin toJS _ (subscribedObject m))
    by assumption.
  rewrite !set_stored by assumption. cbn [own proto subscribedObject fst snd].
  destruct (hasOwnProperty (subscribedQueryKeys m) key); reflexivity.
Qed.

Lemma watchedScan_ordinary m :
  ordinary_state m ->
  watchedScan toJS m = inr (plain (keysBeingWatched m), plain (toSubscribe m)).
Proof.
  intros (Hp & [_ Hh] & Hw).
  unfold watchedScan, keysBeingWatched, toSubscribe, watchedUnion.
  pose (emb := fun acc : Dict Q * Dict Q => (plain (fst acc), plain (snd acc))).
  refine (foldE_fold emb _
            (fun acc '(contextId, queryKeys) =>
               fold_left (addWatchedKey m) (entries queryKeys) acc)
            _ _ ([], [])).
  intros acc [id queryKeys] Hin.
  apply entries_In in Hin.
  specialize (Hw _ _ Hin).
  apply (foldE_fold emb).
  intros [kbw ts] [key query] Hin'.
  unfold emb at 1. cbn [fst snd].
  rewrite scanWatchedKey_ordinary; try assumption.
  - reflexivity.
  - now apply (ordinary_keys_In _ _ _ Hw Hin').
Qed.

Lemma keysBeingWatched_ordinary m :
  ordinary_state m -> ordinary_keys (keysBeingWatched m).
Proof.
  intros (_ & _ & Hw).
  split; apply not_true_is_false; intros H;
    apply keysBeingWatched_union in H; destruct H as (id & qk & Hl & Hk);
    destruct (Hw _ _ Hl); congruence.
Qed.

Lemma subscribedScan_ordinary m :
  ordinary_state m ->
  subscribedScan toJS m (plain (keysBeingWatched m)) =
  inr (plain (toUnsubscribe m)).
Proof.
  intros Hm. pose proof (keysBeingWatched_ordinary m Hm) as [_ Hh].
  destruct Hm as (_ & Hs & _).
  unfold subscribedScan, toUnsubscribe.
  apply (foldE_fold plain).
  intros tu [key query] Hin.
  unfold scanSubscribedKey, addUnwatchedKey.
  rewrite (call_hasOwnProperty_builtin toJS _ (plain (keysBeingWatched m)))
    by (try assumption; reflexivity).
  rewrite set_stored by now apply (ordinary_keys_In _ _ _ Hs Hin).
  cbn [own proto plain].
  destruct (hasOwnProperty (keysBeingWatched m) key); reflexivity.
Qed.

(** With ordinary keys the two loops throw nothing and find the keys
    subscribed and not watched, and the keys watched and not subscribed. *)
Lemma scans_ordinary m :
  ordinary_state m -> scans toJS m = inr (toUnsubscribe m, toSubscribe m).
Proof.
  intros Hm. unfold scans.
  rewrite watchedScan_ordinary by assumption.
  now rewrite subscribedScan_ordinary by assumption.
Qed.

Lemma set_all_stored (l : list (string * Q)) : forall (o : Obj Q),
  (forall k v, In (k, v) l -> k <> "__proto__") ->
  fold_left (fun o e => set toJS o (fst e) (snd e)) l o =
  {| own := fold_left (fun o e => assign o (fst e) (snd e)) l (own o);
     proto := proto o |}.
Proof.
  induction l as [|[k v] l IH]; intros o H; cbn [fold_left fst snd].
  - now destruct o.
  - rewrite IH by (intros; eapply H; right; eauto).
    rewrite set_stored by (eapply H; left; reflexivity). reflexivity.
Qed.

Lemma toSubscribe_ordinary m k q :
  ordinary_state m -> In (k, q) (entries (toSubscribe m)) ->
  k <> "__proto__" /\ k <> "hasOwnProperty".
Proof.
  intros Hm Hin. apply entries_In in Hin.
  assert (Hk : hasOwnProperty (keysBeingWatched m) k = true).
  { rewrite toSubscribe_lookup in Hin.
    destruct (hasOwnProperty (subscribedQueryKeys m) k); [discriminate|].
    unfold hasOwnProperty. now rewrite Hin. }
  destruct (keysBeingWatched_ordinary m Hm) as [Hp Hh].
  split; intros ->; congruence.
Qed.

Lemma afterSubscribing_ordinary m :
  ordinary_state m ->
  afterSubscribing toJS (toSubscribe m) (afterUnsubscribe m) = afterSubscribe m.
Proof.
  intros Hm. unfold afterSubscribing, afterSubscribe.
  rewrite set_all_stored
    by (intros k v Hin; now apply (toSubscribe_ordinary m k v Hm)).
  reflexivity.
Qed.

(** The run of [updateSubscriptions] in closed form, for ordinary keys. *)
Lemma updateSubscriptions_run m :
  ordinary_state m ->
  updateSubscriptions toJS config m =
  let us := values (toUnsubscribe m) in
  let ss := values (toSubscribe m) in
  match answer (Config.unsubscribe config) us with
  | inl e =>
      Build_Outcome (inl e) (afterUnsubscribe m) [UnsubscribeCalled us]
  | inr _ =>
      Build_Outcome (answer (Config.subscribe config) ss) (afterSubscribe m)
        (batched UnsubscribeCalled us ++ batched SubscribeCalled ss)
  end.
Proof.
  intros Hm. rewrite updateSubscriptions_scanned, scans_ordinary by assumption.
  cbv zeta. fold (afterUnsubscribe m).
  now rewrite afterSubscribing_ordinary.
Qed.

Lemma lookup_delete_all {V} (ks : list string) : forall (o : Dict V) k,
  lookup (fold_left delete ks o) k =
  if in_dec string_dec k ks then None else lookup o k.
Proof.
  induction ks as [|k0 ks IH]; intros o k; simpl; [reflexivity|].
  rewrite IH.
  destruct (in_dec string_dec k ks) as [Hin|Hin].
  - destruct (string_dec k0 k); reflexivity.
  - destruct (string_dec k0 k) as [->|Hne].
    + apply lookup_delete_same.
    + now apply lookup_delete_other.
Qed.

Lemma hasOwnProperty_assign_all {V} (l : list (string * V)) :
  forall (o : Dict V) k,
  hasOwnProperty (fold_left (fun o e => assign o (fst e) (snd e)) l o) k = true
  <-> hasOwnProperty o k = true \/ In k (map fst l).
Proof.
  induction l as [|[k0 v0] l IH]; intros o k; simpl.
  - tauto.
  - rewrite IH. unfold hasOwnProperty at 1.
    destruct (String.eqb_spec k0 k) as [->|Hne].
    + rewrite lookup_assign_same. tauto.
    + rewrite lookup_assign_other by assumption.
      fold (hasOwnProperty o k). tauto.
Qed.

(** A dictionary only assigned to keeps what it had. *)
Lemma lookup_assign_all_other {V} (l : list (string * V)) :
  forall (o : Dict V) k,
  ~ In k (map fst l) ->
  lookup (fold_left (fun o e => assign o (fst e) (snd e)) l o) k = lookup o k.
Proof.
  induction l as [|[k0 v0] l IH]; intros o k H; simpl in *; [reflexivity|].
  rewrite IH by tauto. apply lookup_assign_other. tauto.
Qed.

(** After the deletions: the subscribed keys that are still watched. *)
Lemma afterUnsubscribe_lookup m k :
  lookup (subscribedQueryKeys (afterUnsubscribe m)) k =
  if hasOwnProperty (keysBeingWatched m) k
  then lookup (subscribedQueryKeys m) k else None.
Proof.
  unfold afterUnsubscribe. simpl. rewrite lookup_delete_all.
  destruct (in_dec string_dec k (Object_keys (toUnsubscribe m))) as [Hin|Hin].
  - apply Object_keys_In, hasOwnProperty_lookup in Hin. destruct Hin as [q Hq].
    rewrite toUnsubscribe_lookup in Hq.
    destruct (hasOwnProperty (keysBeingWatched m) k); [discriminate|reflexivity].
  - rewrite Object_keys_In in Hin.
    apply not_true_is_false, hasOwnProperty_false in Hin.
    rewrite toUnsubscribe_lookup in Hin.
    destruct (hasOwnProperty (keysBeingWatched m) k); [reflexivity|assumption].
Qed.

(** After the additions: exactly the watched keys. *)
Lemma afterSubscribe_keys m k :
  hasOwnProperty (subscribedQueryKeys (afterSubscribe m)) k =
  hasOwnProperty (keysBeingWatched m) k.
Proof.
  clear toJS config.
  apply eq_true_iff_eq. unfold afterSubscribe.
  change (subscribedQueryKeys (set_subscribedQueryKeys ?s _)) with s.
  rewrite hasOwnProperty_assign_all, entries_keys, Object_keys_In.
  unfold hasOwnProperty at 1 2.
  rewrite afterUnsubscribe_lookup, toSubscribe_lookup.
  unfold hasOwnProperty at 2.
  destruct (hasOwnProperty (keysBeingWatched m) k) eqn:Ew;
    unfold hasOwnProperty in Ew;
    destruct (lookup (keysBeingWatched m) k);
    destruct (lookup (subscribedQueryKeys m) k); simpl;
    intuition congruence.
Qed.

(** Ordinary keys stay ordinary through a reconciliation. *)
Lemma afterSubscribe_ordinary m :
  ordinary_state m -> ordinary_state (afterSubscribe m).
Proof.
  intros Hm. pose proof (keysBeingWatched_ordinary m Hm) as [Hp Hh].
  destruct Hm as (Hproto & Hs & Hw).
  split; [assumption|]. split; [|exact Hw].
  split; now rewrite afterSubscribe_keys.
Qed.

Lemma afterUnsubscribe_ordinary m :
  ordinary_state m -> ordinary_state (afterUnsubscribe m).
Proof.
  intros (Hproto & [Hp Hh] & Hw).
  split; [assumption|]. split; [|exact Hw].
  split; apply hasOwnProperty_false; rewrite afterUnsubscribe_lookup;
    (destruct (hasOwnProperty (keysBeingWatched m) _);
     [now apply hasOwnProperty_false | reflexivity]).
Qed.

End RunFacts.

Section Reconciliation.

Import JS Objects Manager.
Context {T Q : Type} (toJS : Q -> Value)
  (config : Config.SubscriptionManagerConfig T Q).
Implicit Types (m : SubscriptionManager Q) (k key : string) (q query : Q).

Lemma keys_values_Forall2 {V} (o : Dict V) :
  Forall2 (fun k v => lookup o k = Some v) (Object_keys o) (values o).
Proof.
  rewrite <- entries_keys. unfold values.
  assert (H : forall k v, In (k, v) (entries o) -> lookup o k = Some v)
    by (intros k v; apply entries_In).
  induction (entries o) as [|[k v] l IH]; simpl; constructor.
  - apply H. now left.
  - apply IH. intros. apply H. now right.
Qed.

Lemma batched_nil (ev : list Q -> Event Q) : batched ev [] = [].
Proof. reflexivity. Qed.

Lemma answer_nil (f : list Q -> Value + unit) : answer f [] = inr tt.
Proof. reflexivity. Qed.

Lemma keysBeingWatched_same_watched m1 m2 :
  watchedQueryKeysByContextId m1 = watchedQueryKeysByContextId m2 ->
  keysBeingWatched m1 = keysBeingWatched m2.
Proof.
  intros H. unfold keysBeingWatched. rewrite !watchedUnion_flat.
  unfold watchedEntries. rewrite H.
  generalize (flat_map (fun c : string * Dict Q => entries (snd c))
                (entries (watchedQueryKeysByContextId m2))).
  intros l.
  assert (G : forall a b1 b2,
             fst (fold_left (addWatchedKey m1) l (a, b1)) =
             fst (fold_left (addWatchedKey m2) l (a, b2))).
  { induction l as [|[key query] l IH]; intros a b1 b2; simpl;
      [reflexivity | apply IH]. }
  apply G.
Qed.

Lemma answer_returns (f : list Q -> Value + unit) queries :
  (forall l, f l = inr tt) -> answer f queries = inr tt.
Proof.
  intros H. unfold answer. rewrite H. now destruct (negb _).
Qed.

(** C1, as amended.  When the reconciliation [updateSubscriptions] runs
    in a state whose keys are ordinary (none of the watched or
    subscribed keys is ["__proto__"] or ["hasOwnProperty"]) and the
    [unsubscribe] callback does not throw, [keysBeingWatched] is the
    union of the keys watched over all contexts; the [unsubscribe]
    callback is passed exactly the queries under the keys that are in
    [subscribedQueryKeys] and not in [keysBeingWatched]; the [subscribe]
    callback is passed exactly the queries under the keys that are in
    [keysBeingWatched] and not in [subscribedQueryKeys]; and afterwards the
    keys of [subscribedQueryKeys] are those of [keysBeingWatched]. *)
Theorem updateSubscriptions_reconciles m :
  ordinary_state m ->
  (forall queries, Config.unsubscribe config queries = inr tt) ->
  let o := updateSubscriptions toJS config m in
  (forall k,
     hasOwnProperty (keysBeingWatched m) k = true <->
     exists id queryKeys,
       lookup (watchedQueryKeysByContextId m) id = Some queryKeys /\
       hasOwnProperty queryKeys k = true) /\
  (exists subscribed unsubscribed : list Q,
     trace o =
       batched UnsubscribeCalled unsubscribed ++
       batched SubscribeCalled subscribed /\
     (forall q,
        In q subscribed <->
        exists k, lookup (keysBeingWatched m) k = Some q /\
                  hasOwnProperty (subscribedQueryKeys m) k = false) /\
     (forall q,
        In q unsubscribed <->
        exists k, lookup (subscribedQueryKeys m) k = Some q /\
                  hasOwnProperty (keysBeingWatched m) k = false)) /\
  (forall k,
     hasOwnProperty (subscribedQueryKeys (final o)) k =
     hasOwnProperty (keysBeingWatched m) k).
Proof.
  intros Hm Hu o. subst o. rewrite updateSubscriptions_run by assumption.
  cbv zeta.
  rewrite (answer_returns _ _ Hu). cbn [result final trace].
  split; [apply keysBeingWatched_union|]. split.
  - exists (values (toSubscribe m)), (values (toUnsubscribe m)).
    split; [reflexivity|]. split; intros q; rewrite values_In.
    + split; intros [k H]; exists k.
      * rewrite toSubscribe_lookup in H.
        destruct (hasOwnProperty (subscribedQueryKeys m) k);
          [discriminate | now split].
      * rewrite toSubscribe_lookup. destruct H as [H ->]. assumption.
    + split; intros [k H]; exists k.
      * rewrite toUnsubscribe_lookup in H.
        destruct (hasOwnProperty (keysBeingWatched m) k);
          [discriminate | now split].
      * rewrite toUnsubscribe_lookup. destruct H as [H ->]. assumption.
  - apply afterSubscribe_keys.
Qed.


(** C9, as amended.  The reconciliation is idempotent where the keys
    are ordinary: when [updateSubscriptions] has run in a state none of
    whose watched or subscribed keys is ["__proto__"] or
    ["hasOwnProperty"], without [unsubscribe] throwing, and runs again
    with no registration or reset in between, the second run returns,
    calls neither [subscribe] nor [unsubscribe] and leaves
    [subscribedQueryKeys] as it is. *)
Theorem updateSubscriptions_idempotent m :
  ordinary_state m ->
  (forall queries, Config.unsubscribe config queries = inr tt) ->
  let first := updateSubscriptions toJS config m in
  let second := updateSubscriptions toJS config (final first) in
  trace second = [] /\
  subscribedQueryKeys (final second) = subscribedQueryKeys (final first) /\
  result second = inr tt.
Proof.
  intros Hm Hu first second. subst first second.
  assert (Hf : final (updateSubscriptions toJS config m) = afterSubscribe m).
  { rewrite updateSubscriptions_run by assumption. cbv zeta.
    now rewrite (answer_returns _ _ Hu). }
  rewrite Hf. clear Hf.
  assert (Hw : keysBeingWatched (afterSubscribe m) = keysBeingWatched m)
    by (now apply keysBeingWatched_same_watched).
  assert (Hs : toSubscribe (afterSubscribe m) = []).
  { apply lookup_all_None. intros k.
    rewrite toSubscribe_lookup, afterSubscribe_keys, Hw.
    destruct (hasOwnProperty (keysBeingWatched m) k) eqn:E;
      [reflexivity | now apply hasOwnProperty_false]. }
  assert (Hn : toUnsubscribe (afterSubscribe m) = []).
  { apply lookup_all_None. intros k.
    rewrite toUnsubscribe_lookup, Hw.
    destruct (hasOwnProperty (keysBeingWatched m) k) eqn:E; [reflexivity|].
    apply hasOwnProperty_false. now rewrite afterSubscribe_keys. }
  assert (Hk : subscribedQueryKeys (afterSubscribe (afterSubscribe m)) =
               subscribedQueryKeys (afterSubscribe m)).
  { unfold afterSubscribe at 1, afterUnsubscribe at 1, afterUnsubscribing at 1.
    now rewrite Hs, Hn. }
  rewrite updateSubscriptions_run by now apply afterSubscribe_ordinary.
  cbv zeta. rewrite Hs, Hn.
  change (values (@nil (string * Q))) with (@nil Q).
  rewrite answer_nil, !batched_nil.
  cbn [result final trace app]. auto.
Qed.

End Reconciliation.

(* ================================================================== *)
(** * get, registerQuery, reset and scheduling *)
(* ================================================================== *)

Section MethodFacts.

Import JS Objects Manager.
Context {T Q : Type} (toJS : Q -> Value)
        (config : Config.SubscriptionManagerConfig T Q).
Implicit Types (m : SubscriptionManager Q) (k key : string) (q query : Q).
Implicit Types (c : Watch.BaseSubscriptionContext).

Lemma assign_assign {V} (o : Dict V) k (v v' : V) :
  assign (assign o k v) k v' = assign o k v'.
Proof.
  induction o as [|[k0 v0] o IH]; simpl.
  - now rewrite String.eqb_refl.
  - destruct (k0 =? k) eqn:E; simpl; rewrite E; [reflexivity | now rewrite IH].
Qed.

Lemma scheduleSubscriptionUpdate_run m :
  scheduleSubscriptionUpdate config m =
  if pendingSubscriptionUpdate m then Build_Outcome (inr tt) m []
  else Build_Outcome (inr tt) (set_pendingSubscriptionUpdate true m)
         [DeferCalled (defer config)].
Proof.
  unfold scheduleSubscriptionUpdate. rewrite bind_this.
  destruct (pendingSubscriptionUpdate m); [reflexivity|].
  now rewrite bind_modify.
Qed.

Lemma registered_pending c key query m :
  pendingSubscriptionUpdate (registered toJS c key query m) =
  pendingSubscriptionUpdate m.
Proof. unfold registered. now destruct (watchedObject m (Watch.id c)). Qed.

Lemma registered_subscribed c key query m :
  subscribedQueryKeys (registered toJS c key query m) = subscribedQueryKeys m /\
  subscribedPrototype (registered toJS c key query m) = subscribedPrototype m.
Proof. unfold registered. now destruct (watchedObject m (Watch.id c)). Qed.

Lemma registerQuery_run c query m :
  registerQuery toJS config c query m =
  match toKey toJS config query with
  | inl e => Build_Outcome (inl e) m []
  | inr key =>
      Build_Outcome (inr tt) (registered toJS c key query m)
        (if Nat.eqb (length (watchedKeys m (Watch.id c))) 0
         then [RegisterResetCalled c] else [])
  end.
Proof.
  unfold registerQuery, queryToString. rewrite bind_lift.
  destruct (toKey toJS config query) as [e|key]; [reflexivity|].
  rewrite bind_this.
  unfold registered, queryKeysOf, watchedKeys, watchedBy, watchedObject.
  destruct (lookup (watchedQueryKeysByContextId m) (Watch.id c))
    as [queryKeys|] eqn:E.
  - rewrite bind_ret. cbn [own].
    destruct (Nat.eqb (length (Object_keys queryKeys)) 0).
    + rewrite bind_call. cbv beta iota. now rewrite !bind_modify.
    + rewrite bind_ret. now rewrite !bind_modify.
  - rewrite bind_assoc, bind_modify, bind_ret.
    change (Nat.eqb (length (Object_keys (own (@empty Q)))) 0) with true.
    change (Nat.eqb (length (Object_keys (@nil (string * Q)))) 0) with true.
    cbv iota. rewrite bind_call. cbv beta iota.
    rewrite !bind_modify. reflexivity.
Qed.

Lemma reset_run c m :
  reset config c m =
  let m' := unwatched (Watch.id c) m in
  if pendingSubscriptionUpdate m then Build_Outcome (inr tt) m' []
  else Build_Outcome (inr tt) (set_pendingSubscriptionUpdate true m')
         [DeferCalled (defer config)].
Proof.
  unfold reset. rewrite !bind_modify, scheduleSubscriptionUpdate_run.
  reflexivity.
Qed.

Lemma getContext_run g name context m :
  getContext g name context m =
  match available g context with
  | Some c => Build_Outcome (inr (Some c)) m []
  | None =>
      if noGetOutsideContext g
      then Build_Outcome (inl (OutsideContext name)) m []
      else Build_Outcome (inr None) m []
  end.
Proof.
  unfold getContext, available.
  destruct context as [c|]; [reflexivity|].
  destruct (getCurrentContext g); [reflexivity|].
  now destruct (noGetOutsideContext g).
Qed.

(** The run of [get] in closed form. *)
Lemma get_run g query context m :
  get toJS config g query context m =
  match Config.get config query with
  | inl what => Build_Outcome (inl (Thrown what)) m [GetCalled query]
  | inr v =>
      match available g context with
      | None =>
          Build_Outcome
            (if noGetOutsideContext g then inl (OutsideContext "get")
             else inr v)
            m [GetCalled query]
      | Some c =>
          match toKey toJS config query with
          | inl e => Build_Outcome (inl e) m [GetCalled query]
          | inr key =>
              let m1 := registered toJS c key query m in
              Build_Outcome (inr v)
                (if pendingSubscriptionUpdate m then m1
                 else set_pendingSubscriptionUpdate true m1)
                (GetCalled query ::
                 (if Nat.eqb (length (watchedKeys m (Watch.id c))) 0
                  then [RegisterResetCalled c] else []) ++
                 (if pendingSubscriptionUpdate m then []
                  else [DeferCalled (defer config)]))
          end
      end
  end.
Proof.
  unfold get. rewrite bind_call.
  destruct (Config.get config query) as [what|v]; [reflexivity|].
  cbn [thrown].
  destruct (available g context) as [c|] eqn:Ea.
  - erewrite (bind_known (getContext g "get" context))
      by (rewrite getContext_run, Ea; reflexivity).
    destruct (toKey toJS config query) as [e|key] eqn:Ek.
    + erewrite bind_failed by (rewrite registerQuery_run, Ek; reflexivity).
      reflexivity.
    + erewrite (bind_returned (registerQuery toJS config c query))
        by (rewrite registerQuery_run, Ek; reflexivity).
      cbn [result final trace].
      destruct (pendingSubscriptionUpdate m) eqn:Ep.
      * erewrite bind_known
          by (rewrite scheduleSubscriptionUpdate_run;
              rewrite registered_pending, Ep; reflexivity).
        cbn [result final trace ret]. now rewrite !app_nil_r.
      * erewrite bind_returned
          by (rewrite scheduleSubscriptionUpdate_run;
              rewrite registered_pending, Ep; reflexivity).
        cbn [result final trace ret]. now rewrite !app_nil_r.
  - destruct (noGetOutsideContext g) eqn:En.
    + erewrite (bind_failed (getContext g "get" context))
        by (rewrite getContext_run, Ea, En; reflexivity).
      reflexivity.
    + erewrite (bind_known (getContext g "get" context))
        by (rewrite getContext_run, Ea, En; reflexivity).
      reflexivity.
Qed.

Lemma called_error what f e :
  called what f = inl e -> e = NotAFunction what.
Proof. destruct f; simpl; congruence. Qed.

Lemma has_own_error v name e :
  has_own v name = inl e -> e = NotAFunction "q.hasOwnProperty".
Proof.
  destruct v; simpl; try discriminate.
  unfold call_hasOwnProperty. cbn [JS.own proto].
  destruct (lookup _ "hasOwnProperty"); [apply called_error | discriminate].
Qed.

Lemma defaultQueryToString_error v e :
  defaultQueryToString v = inl e ->
  e = FalseyQuery \/ e = NoStringForm \/ exists what, e = NotAFunction what.
Proof.
  unfold defaultQueryToString.
  destruct (has_own v "toString") as [e'|[]] eqn:Eh;
    [apply has_own_error in Eh; subst e'| |];
    destruct v; try discriminate;
    repeat match goal with
           | |- context [if ?x then _ else _] => destruct x
           | |- context [match ?x with _ => _ end] => destruct x
           end;
    try discriminate; intros [= <-]; eauto.
Qed.

Lemma toKey_not_OutsideContext query name :
  toKey toJS config query <> inl (OutsideContext name).
Proof.
  unfold toKey.
  destruct (Config.queryToString config) as [f|].
  - destruct (f query); discriminate.
  - intros H. apply defaultQueryToString_error in H.
    destruct H as [H|[H|[what H]]]; discriminate.
Qed.

End MethodFacts.

(* ================================================================== *)
(** * The claims about get *)
(* ================================================================== *)

Section GetClaims.

Import JS Objects Manager.
Context {T Q : Type} (toJS : Q -> Value)
        (config : Config.SubscriptionManagerConfig T Q).
Implicit Types (m : SubscriptionManager Q) (k key : string) (q query : Q).
Implicit Types (c : Watch.BaseSubscriptionContext).

Lemma queryKeysOf_own m id : own (queryKeysOf m id) = watchedBy m id.
Proof.
  unfold queryKeysOf, watchedBy, watchedObject.
  now destruct (lookup (watchedQueryKeysByContextId m) id).
Qed.

Lemma registered_watchedBy c key query m :
  watchedBy (registered toJS c key query m) (Watch.id c) =
  own (set toJS (queryKeysOf m (Watch.id c)) key query).
Proof.
  unfold watchedBy at 1, registered.
  cbn [watchedQueryKeysByContextId set_watchedQueryKeysByContextId
       set_watchedContexts set_watchedObject set_watchedPrototypes].
  now rewrite lookup_assign_same.
Qed.




(** C3, as amended.  When the "require context" flag is set, no context
    is being rendered and none is passed, [get(query)] calls the
    configured getter once and then fails: with what the getter throws if
    it throws, with the missing-context error otherwise.  The manager is
    left as it was. *)
Theorem get_outside_context (g : Globals) query m :
  noGetOutsideContext g = true ->
  currentContext g = None ->
  let o := get toJS config g query None m in
  trace o = [GetCalled query] /\
  final o = m /\
  result o =
    match Config.get config query with
    | inl what => inl (Thrown what)
    | inr _ => inl (OutsideContext "get")
    end.
Proof.
  intros Hflag Hnone o. subst o. rewrite get_run.
  unfold available, getCurrentContext. rewrite Hnone, Hflag.
  destruct (Config.get config query); auto.
Qed.


(** C10.  In [get(query, context)] a context passed explicitly is the
    one used, whatever context is being rendered: the call does the same
    under every value of the globals, and never fails with the
    missing-context error, whatever the flag. *)
Theorem get_explicit_context (g : Globals) query c m :
  let o := get toJS config g query (Some c) m in
  getContext g "get" (Some c) m = Build_Outcome (inr (Some c)) m [] /\
  (forall g', get toJS config g' query (Some c) m = o) /\
  (forall name, result o <> inl (OutsideContext name)).
Proof.
  cbv zeta. split; [reflexivity|]. split.
  - intros g'. now rewrite !get_run.
  - intros name. rewrite get_run. cbn [available].
    destruct (Config.get config query); [discriminate|].
    destruct (toKey toJS config query) eqn:Ek; cbn [result];
      [|discriminate].
    intros [= ->]. exact (toKey_not_OutsideContext toJS config query name Ek).
Qed.

End GetClaims.

(* ================================================================== *)
(** * Scheduling, registration and reset *)
(* ================================================================== *)

Section Quiet.

Import JS Manager.
Context {S Q : Type}.

Lemma deferrals_app (t t' : list (Event Q)) :
  deferrals (t ++ t') = deferrals t + deferrals t'.
Proof. unfold deferrals. now rewrite filter_app, length_app. Qed.

Lemma quiet_ret {A} (a : A) : @quiet Q S A (ret a).
Proof. now intros s. Qed.

Lemma quiet_throw {A} e : @quiet Q S A (throw e).
Proof. now intros s. Qed.

Lemma quiet_lift {A} (r : Error + A) : @quiet Q S A (lift r).
Proof. now intros s. Qed.

Lemma quiet_this : @quiet Q S S this.
Proof. now intros s. Qed.

Lemma quiet_bind {A B} (c : Eff S (Event Q) A) (k : A -> Eff S (Event Q) B) :
  quiet c -> (forall a, quiet (k a)) -> quiet (bind c k).
Proof.
  intros Hc Hk s. unfold bind. destruct (Hc s) as [Hf Ht].
  destruct (result (c s)) as [e|a]; cbn [final trace]; [now split|].
  destruct (Hk a (final (c s))) as [Hf' Ht'].
  rewrite deferrals_app, Ht, Ht', Hf', Hf. now split.
Qed.

Lemma quiet_forEach {A} (l : list A) (body : A -> Eff S (Event Q) unit) :
  (forall x, quiet (body x)) -> quiet (forEach l body).
Proof.
  intros H. induction l as [|x l IH]; simpl;
    [apply quiet_ret | apply quiet_bind; auto].
Qed.

Lemma quiet_findM {A} (l : list A) (test : A -> Eff S (Event Q) bool) :
  (forall x, quiet (test x)) -> quiet (findM l test).
Proof.
  intros H. induction l as [|x l IH]; simpl; [apply quiet_ret|].
  apply quiet_bind; [apply H|]. intros [|]; [apply quiet_ret | exact IH].
Qed.

End Quiet.

Section Scheduling.

Import JS Objects Manager.
Context {T Q : Type} (toJS : Q -> Value)
        (config : Config.SubscriptionManagerConfig T Q).
Implicit Types (m : SubscriptionManager Q) (k key : string) (q query : Q).
Implicit Types (c : Watch.BaseSubscriptionContext).

Lemma testFn_quiet param q : quiet (testFn toJS config param q).
Proof.
  destruct param as [|ps|f]; simpl; try apply quiet_ret.
  apply quiet_bind; [|intros; apply quiet_ret].
  apply quiet_findM. intros p.
  apply quiet_bind; [apply quiet_lift|]. intros kp.
  apply quiet_bind; [apply quiet_lift|]. intros kq. apply quiet_ret.
Qed.

Lemma updateQueries_quiet param : quiet (updateQueries toJS config param).
Proof.
  unfold updateQueries. apply quiet_bind; [apply quiet_this|]. intros m.
  apply quiet_forEach. intros [id queryKeys].
  apply quiet_bind.
  - apply quiet_findM. intros [key query]. apply testFn_quiet.
  - intros found.
    destruct (match found with
              | Some (key, _) => ToBoolean (Str key)
              | None => false
              end); [|apply quiet_ret].
    apply quiet_bind; [apply quiet_this|]. intros m'.
    destruct (lookup (watchedContexts m') id); [|apply quiet_throw].
    now intros s.
Qed.

Lemma get_pending g query context m :
  let o := get toJS config g query context m in
  pending_count (final o) = pending_count m + deferrals (trace o).
Proof.
  cbv zeta. rewrite get_run. unfold pending_count.
  destruct (Config.get config query); cbn [final trace]; [now rewrite Nat.add_0_r|].
  destruct (available g context) as [c|]; cbn [final trace];
    [|now rewrite Nat.add_0_r].
  destruct (toKey toJS config query); cbn [final trace];
    [now rewrite Nat.add_0_r|].
  change (GetCalled query :: ?t) with ([GetCalled query] ++ t).
  rewrite !deferrals_app.
  destruct (pendingSubscriptionUpdate m) eqn:Ep;
    destruct (Nat.eqb (length (watchedKeys m (Watch.id c))) 0);
    cbn [final trace pendingSubscriptionUpdate set_pendingSubscriptionUpdate];
    rewrite ?registered_pending, ?Ep; reflexivity.
Qed.

Lemma reset_pending c m :
  let o := reset config c m in
  pending_count (final o) = pending_count m + deferrals (trace o).
Proof.
  cbv zeta. rewrite reset_run. unfold pending_count. cbv zeta.
  destruct (pendingSubscriptionUpdate m) eqn:Ep; cbn; rewrite ?Ep; reflexivity.
Qed.

Lemma deferrals_batched (ev : list Q -> Event Q) qs :
  (forall l, is_defer (ev l) = false) -> deferrals (batched ev qs) = 0.
Proof.
  intros H. unfold batched, deferrals.
  destruct (negb (Nat.eqb (length qs) 0)); [|reflexivity].
  cbn [filter]. now rewrite H.
Qed.

Lemma updateSubscriptions_pending m :
  let o := updateSubscriptions toJS config m in
  pendingSubscriptionUpdate (final o) = false /\ deferrals (trace o) = 0.
Proof.
  cbv zeta. rewrite updateSubscriptions_scanned.
  destruct (scans toJS m) as [e|[toUnsubscribe toSubscribe]];
    [now split|]. cbv zeta.
  destruct (answer (Config.unsubscribe config) (values toUnsubscribe));
    cbn [final trace]; split; try reflexivity.
  rewrite deferrals_app, !deferrals_batched by reflexivity. reflexivity.
Qed.

Lemma reachable_pending s :
  reachable toJS config s -> outstanding s = pending_count (manager s).
Proof.
  induction 1 as [|s st s' Hs IH Hstep]; [reflexivity|].
  destruct st as [g query context|c|param|]; simpl in Hstep.
  - injection Hstep as <-. unfold after. cbn [manager outstanding].
    rewrite (get_pending g query context (manager s)), IH. lia.
  - injection Hstep as <-. unfold after. cbn [manager outstanding].
    rewrite (reset_pending c (manager s)), IH. lia.
  - injection Hstep as <-. unfold after. cbn [manager outstanding].
    destruct (updateQueries_quiet param (manager s)) as [-> ->]. lia.
  - destruct (Nat.eqb (outstanding s) 0) eqn:E; [discriminate|].
    injection Hstep as <-. unfold after. cbn [manager outstanding].
    destruct (updateSubscriptions_pending (manager s)) as [Hp ->].
    unfold pending_count at 1. rewrite Hp.
    apply Nat.eqb_neq in E. rewrite IH in *. unfold pending_count in *.
    destruct (pendingSubscriptionUpdate (manager s)); lia.
Qed.

(** C5.  [scheduleSubscriptionUpdate] does nothing when an update is
    pending; otherwise it sets the flag and hands the reconciliation to
    the deferral function, once.  So at most one deferred reconciliation
    is outstanding at any time, and the flag is set exactly while one is.
    The reconciliation clears the flag before anything else: whatever
    its outcome, even a callback's exception, the flag is clear after it
    and the next scheduling defers again. *)
Theorem scheduling_at_most_one_pending :
  (forall m,
     pendingSubscriptionUpdate m = true ->
     scheduleSubscriptionUpdate config m = Build_Outcome (inr tt) m []) /\
  (forall m,
     pendingSubscriptionUpdate m = false ->
     scheduleSubscriptionUpdate config m =
     Build_Outcome (inr tt) (set_pendingSubscriptionUpdate true m)
       [DeferCalled (defer config)]) /\
  (forall s,
     reachable toJS config s ->
     outstanding s <= 1 /\
     (pendingSubscriptionUpdate (manager s) = true <-> outstanding s = 1)) /\
  (forall m,
     let o := updateSubscriptions toJS config m in
     pendingSubscriptionUpdate (final o) = false /\
     deferrals (trace o) = 0 /\
     scheduleSubscriptionUpdate config (final o) =
     Build_Outcome (inr tt) (set_pendingSubscriptionUpdate true (final o))
       [DeferCalled (defer config)]).
Proof.
  split; [|split; [|split]].
  - intros m H. now rewrite scheduleSubscriptionUpdate_run, H.
  - intros m H. now rewrite scheduleSubscriptionUpdate_run, H.
  - intros s H. apply reachable_pending in H. rewrite H.
    unfold pending_count.
    destruct (pendingSubscriptionUpdate (manager s)); split;
      try lia; split; congruence.
  - intros m o. destruct (updateSubscriptions_pending m) as [Hp Hd].
    fold o in Hp, Hd. repeat split; try assumption.
    now rewrite scheduleSubscriptionUpdate_run, Hp.
Qed.

(** ** Registration *)

Lemma Object_keys_assign_nonempty {V} (o : Dict V) k (v : V) :
  Object_keys (assign o k v) <> [].
Proof.
  intros H.
  assert (Hin : In k (Object_keys (assign o k v))).
  { apply Object_keys_In, hasOwnProperty_lookup. exists v.
    apply lookup_assign_same. }
  now rewrite H in Hin.
Qed.





End Scheduling.

(* ================================================================== *)
(** * Key derivation and updateQueries *)
(* ================================================================== *)

Section KeyDerivation.

Import JS Objects.

Lemma member_Str_Object q name s :
  member q name = Str s -> exists own, q = Object own.
Proof. destruct q; try discriminate. eauto. Qed.

(** The built-in answers for an object with no own property
    ["hasOwnProperty"]. *)
Lemma has_own_builtin own name :
  lookup own "hasOwnProperty" = None ->
  has_own (Object own) name = inr (hasOwnProperty own name).
Proof.
  intros H. unfold has_own, call_hasOwnProperty. cbn [JS.own proto].
  now rewrite H.
Qed.

(** C7 at its failing inputs.  For an object query with no [key]
    attribute that is a string and with an own property
    ["hasOwnProperty"], [q.hasOwnProperty('toString')] is a call of that
    property: when it is no function the derivation throws a TypeError,
    also for a query with a [toString] of its own; when it is a function
    that answers something truthy, [q.toString()] is called whether or
    not the query has a [toString] of its own, and for a query that has
    none the key is the ["[object Object]"] of the inherited one. *)
Theorem defaultQueryToString_shadowed_hasOwnProperty
    (own : Dict Value) (f : Value) :
  lookup own "hasOwnProperty" = Some f ->
  (forall key, lookup own "key" <> Some (Str key)) ->
  defaultQueryToString (Object own) =
  match f with
  | Method returns =>
      if ToBoolean (Str returns) then
        match lookup own "toString" with
        | Some (Method s) => inr s
        | Some _ => inl (NotAFunction "q.toString")
        | None => inr "[object Object]"
        end
      else inl NoStringForm
  | _ => inl (NotAFunction "q.hasOwnProperty")
  end.
Proof.
  intros Hf Hkey. unfold defaultQueryToString.
  cbn [typeof ToBoolean negb]. change ("object" =? "undefined") with false.
  cbv iota.
  assert (Hk : match member (Object own) "key" with
               | Str _ => False
               | _ => True
               end).
  { cbn [member]. destruct (lookup own "key") as [[| |b|n| |key|o|s]|] eqn:E;
      try exact I. now elim (Hkey key). }
  assert (Hh : has_own (Object own) "toString" =
               called "q.hasOwnProperty" f).
  { unfold has_own, call_hasOwnProperty. cbn [JS.own]. now rewrite Hf. }
  rewrite Hh.
  destruct (member (Object own) "key"); try contradiction;
    (destruct f as [| | | | | | |r]; cbn [called]; try reflexivity;
     cbn [ToBoolean];
     destruct (negb (r =? "")); [|reflexivity];
     cbn [member];
     destruct (lookup own "toString") as [[]|]; reflexivity).
Qed.

(** X22.  The default key derivation returns a string query itself and
    the empty string for [undefined]; it returns the query's [key] attribute
    when that is a string; otherwise, for a query with no own property
    ["hasOwnProperty"], it uses the query's own [toString]; and it fails
    when none of these apply, in particular for every falsy query that
    is neither [undefined] nor a string. *)
Theorem defaultQueryToString_cases :
  (forall s, defaultQueryToString (Str s) = inr s) /\
  defaultQueryToString Undefined = inr "" /\
  (forall q key,
     member q "key" = Str key -> defaultQueryToString q = inr key) /\
  (forall own f,
     (forall key, lookup own "key" <> Some (Str key)) ->
     lookup own "hasOwnProperty" = None ->
     lookup own "toString" = Some f ->
     defaultQueryToString (Object own) =
     match f with
     | Method s => inr s
     | _ => inl (NotAFunction "q.toString")
     end) /\
  (forall q,
     (forall s, q <> Str s) ->
     q <> Undefined ->
     (forall key, member q "key" <> Str key) ->
     (forall own, q = Object own ->
                  lookup own "hasOwnProperty" = None /\
                  lookup own "toString" = None) ->
     defaultQueryToString q = inl FalseyQuery \/
     defaultQueryToString q = inl NoStringForm) /\
  (forall q,
     ToBoolean q = false ->
     q <> Undefined ->
     (forall s, q <> Str s) ->
     defaultQueryToString q = inl FalseyQuery).
Proof.
  split; [reflexivity|]. split; [reflexivity|]. split; [|split; [|split]].
  - intros q key H. destruct (member_Str_Object _ _ _ H) as [own ->].
    unfold defaultQueryToString. cbn [typeof ToBoolean negb String.eqb].
    simpl. simpl in H. now rewrite H.
  - intros own f Hkey Hh Hown.
    unfold defaultQueryToString.
    rewrite has_own_builtin by assumption.
    unfold hasOwnProperty. rewrite Hown.
    cbn [typeof ToBoolean negb member].
    change ("object" =? "undefined") with false. cbv iota.
    rewrite Hown.
    destruct (lookup own "key") as [[| |b|n| |key|own'|s]|] eqn:E;
      try reflexivity.
    now elim (Hkey key).
  - intros q Hs Hu Hkey Hown.
    destruct q as [| |b|n| |s|own|s]; simpl in *;
      try (now left); try (now right); try congruence.
    + destruct b; [now right | now left].
    + destruct (Z.eqb n 0); [now left | now right].
    + destruct (Hown own eq_refl) as [Hh Ht].
      unfold call_hasOwnProperty. cbn [JS.own proto].
      rewrite Hh. unfold hasOwnProperty. rewrite Ht.
      destruct (match lookup own "key" with
                | Some x => x
                | None => Undefined
                end) as [| |b|n| |key|own'|s] eqn:E; try (now right).
      now elim (Hkey key).
  - intros q Hf Hu Hs.
    destruct q as [| |b|n| |s|own|s]; simpl in *;
      try reflexivity; try congruence; now rewrite Hf.
Qed.

End KeyDerivation.

Section UpdateQueries.

Import JS Manager Examples.

(** C8 at a failing input.  [context1] has read the query [undefined]
    (its key is the empty string) and is registered for dispatch, and yet
    [updateQueries()] calls no [forceUpdate]: the key found is falsy. *)
Theorem updateQueries_skips_empty_key :
  let m := watching_undefined in
  toKey (fun q => q) config_any Undefined = inr "" /\
  watchedQueryKeysByContextId m = [("1", [("", Undefined)])] /\
  lookup (watchedContexts m) "1" = Some context1 /\
  updateQueries (fun q => q) config_any NoParam m = Build_Outcome (inr tt) m [].
Proof. repeat split. Qed.

End UpdateQueries.

(* ================================================================== *)
(** * The context maps stay in step *)
(* ================================================================== *)

Section InStep.

Import JS Objects Manager.
Context {T Q : Type} (toJS : Q -> Value)
        (config : Config.SubscriptionManagerConfig T Q).
Implicit Types (m : SubscriptionManager Q) (k key : string) (q query : Q).
Implicit Types (c : Watch.BaseSubscriptionContext).

Lemma hasOwnProperty_assign {V} (o : Dict V) k k' (v : V) :
  hasOwnProperty (assign o k v) k' = (k =? k') || hasOwnProperty o k'.
Proof.
  unfold hasOwnProperty. destruct (String.eqb_spec k k') as [->|Hne].
  - now rewrite lookup_assign_same.
  - now rewrite lookup_assign_other.
Qed.

Lemma hasOwnProperty_delete {V} (o : Dict V) k k' :
  hasOwnProperty (delete o k) k' = negb (k =? k') && hasOwnProperty o k'.
Proof.
  unfold hasOwnProperty. destruct (String.eqb_spec k k') as [->|Hne].
  - now rewrite lookup_delete_same.
  - now rewrite lookup_delete_other.
Qed.

Lemma names_delete_incl {V} (o : Dict V) k k' :
  In k' (map fst (delete o k)) -> In k' (map fst o).
Proof.
  induction o as [|[k0 v0] o IH]; simpl; [tauto|].
  destruct (k0 =? k); simpl; tauto.
Qed.

Lemma names_NoDup_delete {V} (o : Dict V) k :
  NoDup (map fst o) -> NoDup (map fst (delete o k)).
Proof.
  induction o as [|[k0 v0] o IH]; simpl; intros H; [constructor|].
  inversion H as [|? ? Hnot Hnd]; subst.
  destruct (k0 =? k); [auto|]. simpl. constructor; [|auto].
  intros Hin. apply Hnot. eapply names_delete_incl. eassumption.
Qed.

(** [in_step] reads the two context maps only. *)
Lemma in_step_same m m' :
  watchedQueryKeysByContextId m' = watchedQueryKeysByContextId m ->
  watchedContexts m' = watchedContexts m ->
  in_step m -> in_step m'.
Proof. unfold in_step. now intros -> ->. Qed.

Lemma in_step_new : in_step (@new Q).
Proof.
  unfold in_step. simpl. repeat split; try discriminate. constructor.
Qed.

Lemma in_step_registered c key query m :
  in_step m -> in_step (registered toJS c key query m).
Proof.
  intros (Hnd & Hstep & Hid). unfold in_step, registered.
  cbn [watchedQueryKeysByContextId watchedContexts
       set_watchedQueryKeysByContextId set_watchedContexts
       set_watchedObject set_watchedPrototypes].
  assert (Hw : forall id,
            hasOwnProperty
              (watchedQueryKeysByContextId
                 match watchedObject m (Watch.id c) with
                 | Some _ => m
                 | None => set_watchedObject (Watch.id c) empty m
                 end) id =
            (Watch.id c =? id) || hasOwnProperty (watchedContexts m) id).
  { intros id. unfold watchedObject.
    destruct (lookup (watchedQueryKeysByContextId m) (Watch.id c)) eqn:E.
    - rewrite Hstep.
      destruct (String.eqb_spec (Watch.id c) id) as [<-|]; [|reflexivity].
      rewrite <- Hstep. unfold hasOwnProperty. now rewrite E.
    - cbn [watchedQueryKeysByContextId set_watchedQueryKeysByContextId
           set_watchedObject set_watchedPrototypes].
      now rewrite hasOwnProperty_assign, Hstep. }
  repeat split.
  - apply names_NoDup_assign.
    destruct (watchedObject m (Watch.id c)); [assumption|].
    cbn [watchedQueryKeysByContextId set_watchedQueryKeysByContextId
         set_watchedObject set_watchedPrototypes].
    now apply names_NoDup_assign.
  - intros id. rewrite !hasOwnProperty_assign, Hw.
    destruct (watchedObject m (Watch.id c));
      cbn [watchedContexts set_watchedObject set_watchedPrototypes
           set_watchedQueryKeysByContextId];
      now destruct (Watch.id c =? id).
  - intros id c'.
    destruct (String.eqb_spec (Watch.id c) id) as [<-|Hne].
    + rewrite lookup_assign_same. now intros [= <-].
    + rewrite lookup_assign_other by assumption.
      destruct (watchedObject m (Watch.id c)); apply Hid.
Qed.

Lemma in_step_unwatched id m : in_step m -> in_step (unwatched id m).
Proof.
  intros (Hnd & Hstep & Hid). unfold in_step, unwatched.
  cbn [watchedQueryKeysByContextId watchedContexts
       set_watchedQueryKeysByContextId set_watchedContexts
       set_watchedPrototypes].
  repeat split.
  - now apply names_NoDup_delete.
  - intros id'. rewrite !hasOwnProperty_delete. now rewrite Hstep.
  - intros id' c'.
    destruct (String.eqb_spec id id') as [<-|Hne].
    + now rewrite lookup_delete_same.
    + rewrite lookup_delete_other by assumption. apply Hid.
Qed.

Lemma get_in_step g query context m :
  in_step m -> in_step (final (get toJS config g query context m)).
Proof.
  intros H. rewrite get_run.
  destruct (Config.get config query); [exact H|].
  destruct (available g context) as [c|]; [|exact H].
  destruct (toKey toJS config query) as [e|key]; [exact H|].
  cbv zeta. cbn [final].
  destruct (pendingSubscriptionUpdate m).
  - now apply in_step_registered.
  - eapply in_step_same; [| |apply in_step_registered; exact H]; reflexivity.
Qed.

Lemma reset_in_step c m :
  in_step m -> in_step (final (reset config c m)).
Proof.
  intros H. rewrite reset_run. cbv zeta.
  destruct (pendingSubscriptionUpdate m); cbn [final].
  - now apply in_step_unwatched.
  - eapply in_step_same; [| |apply in_step_unwatched; exact H]; reflexivity.
Qed.

(** The reconciliation leaves the two context maps alone. *)
Lemma updateSubscriptions_watched m :
  let m' := final (updateSubscriptions toJS config m) in
  watchedQueryKeysByContextId m' = watchedQueryKeysByContextId m /\
  watchedContexts m' = watchedContexts m /\
  watchedPrototypes m' = watchedPrototypes m.
Proof.
  cbv zeta. rewrite updateSubscriptions_scanned.
  destruct (scans toJS m) as [e|[toUnsubscribe toSubscribe]];
    [now cbn|]. cbv zeta.
  destruct (answer (Config.unsubscribe config) (values toUnsubscribe));
    now cbn.
Qed.

Lemma updateSubscriptions_in_step m :
  in_step m -> in_step (final (updateSubscriptions toJS config m)).
Proof.
  intros H. destruct (updateSubscriptions_watched m) as (Hw & Hc & _).
  now apply (in_step_same m).
Qed.

Lemma in_step_reachable (s : System Q) :
  reachable toJS config s -> in_step (manager s).
Proof.
  induction 1 as [|s st s' Hs IH Hstep]; [apply in_step_new|].
  destruct st as [g query context|c|param|]; simpl in Hstep.
  - injection Hstep as <-. now apply get_in_step.
  - injection Hstep as <-. now apply reset_in_step.
  - injection Hstep as <-. cbn [after manager].
    now destruct (updateQueries_quiet toJS config param (manager s)) as [-> _].
  - destruct (Nat.eqb (outstanding s) 0); [discriminate|].
    injection Hstep as <-. now apply updateSubscriptions_in_step.
Qed.

(** ** Ordinary reads keep the keys ordinary *)

Lemma reachable_ordinarily_reachable (s : System Q) :
  reachable_ordinarily toJS config s -> reachable toJS config s.
Proof.
  induction 1 as [|s st s' Hs IH Hst Hstep]; [constructor|].
  econstructor; eassumption.
Qed.

Lemma ordinary_keys_assign {V} (o : Dict V) k (v : V) :
  ordinary k -> ordinary_keys o -> ordinary_keys (assign o k v).
Proof.
  intros [Hp Hh] [Hop Hoh]. unfold ordinary_keys.
  rewrite !hasOwnProperty_assign, Hop, Hoh.
  split; apply orb_false_intro; try reflexivity; now apply String.eqb_neq.
Qed.

Lemma ordinary_state_same m m' :
  watchedQueryKeysByContextId m' = watchedQueryKeysByContextId m ->
  subscribedQueryKeys m' = subscribedQueryKeys m ->
  subscribedPrototype m' = subscribedPrototype m ->
  ordinary_state m -> ordinary_state m'.
Proof. unfold ordinary_state. now intros -> -> ->. Qed.

Lemma nonempty_watched_same m m' :
  watchedQueryKeysByContextId m' = watchedQueryKeysByContextId m ->
  nonempty_watched m -> nonempty_watched m'.
Proof. unfold nonempty_watched. now intros ->. Qed.

(** What a context watches once a query is registered for it under a
    key other than ["__proto__"], and what the others do. *)
Lemma registered_lookup c key query m id :
  key <> "__proto__" ->
  lookup (watchedQueryKeysByContextId (registered toJS c key query m)) id =
  if Watch.id c =? id then Some (assign (watchedBy m (Watch.id c)) key query)
  else lookup (watchedQueryKeysByContextId m) id.
Proof.
  intros Hk. unfold registered.
  cbn [watchedQueryKeysByContextId set_watchedQueryKeysByContextId
       set_watchedContexts set_watchedObject set_watchedPrototypes].
  destruct (String.eqb_spec (Watch.id c) id) as [<-|Hne].
  - rewrite lookup_assign_same, set_stored by assumption.
    cbn [own]. now rewrite queryKeysOf_own.
  - rewrite lookup_assign_other by assumption.
    destruct (watchedObject m (Watch.id c)); [reflexivity|].
    cbn [watchedQueryKeysByContextId set_watchedQueryKeysByContextId
         set_watchedObject set_watchedPrototypes].
    now rewrite lookup_assign_other by assumption.
Qed.

Lemma watchedBy_ordinary m id :
  ordinary_state m -> ordinary_keys (watchedBy m id).
Proof.
  intros (_ & _ & Hw). unfold watchedBy.
  destruct (lookup (watchedQueryKeysByContextId m) id) eqn:E;
    [now apply (Hw id) | now split].
Qed.

Lemma ordinary_state_registered c key query m :
  ordinary key -> ordinary_state m ->
  ordinary_state (registered toJS c key query m).
Proof.
  intros Hk Hm. pose proof (watchedBy_ordinary m (Watch.id c) Hm) as Hc.
  destruct Hm as (Hp & Hs & Hw). unfold ordinary_state.
  destruct (registered_subscribed toJS c key query m) as [-> ->].
  split; [assumption|]. split; [assumption|].
  intros id queryKeys. rewrite registered_lookup by apply Hk.
  destruct (Watch.id c =? id); [|apply Hw].
  intros [= <-]. now apply ordinary_keys_assign.
Qed.

Lemma nonempty_watched_registered c key query m :
  key <> "__proto__" -> nonempty_watched m ->
  nonempty_watched (registered toJS c key query m).
Proof.
  intros Hk Hm id queryKeys. rewrite registered_lookup by assumption.
  destruct (Watch.id c =? id); [|apply Hm].
  intros [= <-]. apply Object_keys_assign_nonempty.
Qed.

Lemma ordinary_state_unwatched id m :
  ordinary_state m -> ordinary_state (unwatched id m).
Proof.
  intros (Hp & Hs & Hw). split; [assumption|]. split; [assumption|].
  intros id' queryKeys. unfold unwatched.
  cbn [watchedQueryKeysByContextId set_watchedQueryKeysByContextId
       set_watchedContexts set_watchedPrototypes].
  destruct (String.eqb_spec id id') as [<-|Hne].
  - now rewrite lookup_delete_same.
  - rewrite lookup_delete_other by assumption. apply Hw.
Qed.

Lemma nonempty_watched_unwatched id m :
  nonempty_watched m -> nonempty_watched (unwatched id m).
Proof.
  intros Hm id' queryKeys. unfold unwatched.
  cbn [watchedQueryKeysByContextId set_watchedQueryKeysByContextId
       set_watchedContexts set_watchedPrototypes].
  destruct (String.eqb_spec id id') as [<-|Hne].
  - now rewrite lookup_delete_same.
  - rewrite lookup_delete_other by assumption. apply Hm.
Qed.

Lemma get_ordinary g query context m :
  ordinary_query toJS config query ->
  ordinary_state m /\ nonempty_watched m ->
  let m' := final (get toJS config g query context m) in
  ordinary_state m' /\ nonempty_watched m'.
Proof.
  intros Hq [Ho Hn]. cbv zeta. rewrite get_run.
  destruct (Config.get config query); [now split|].
  destruct (available g context) as [c|]; [|now split].
  destruct (toKey toJS config query) as [e|key] eqn:Ek; [now split|].
  specialize (Hq key Ek). cbv zeta. cbn [final].
  assert (H1 : ordinary_state (registered toJS c key query m))
    by now apply ordinary_state_registered.
  assert (H2 : nonempty_watched (registered toJS c key query m))
    by (apply nonempty_watched_registered; [apply Hq | assumption]).
  destruct (pendingSubscriptionUpdate m); split; assumption.
Qed.

Lemma reset_ordinary c m :
  ordinary_state m /\ nonempty_watched m ->
  let m' := final (reset config c m) in
  ordinary_state m' /\ nonempty_watched m'.
Proof.
  intros [Ho Hn]. cbv zeta. rewrite reset_run. cbv zeta.
  assert (H1 : ordinary_state (unwatched (Watch.id c) m))
    by now apply ordinary_state_unwatched.
  assert (H2 : nonempty_watched (unwatched (Watch.id c) m))
    by now apply nonempty_watched_unwatched.
  destruct (pendingSubscriptionUpdate m); split; assumption.
Qed.

Lemma updateSubscriptions_ordinary m :
  ordinary_state m ->
  ordinary_state (final (updateSubscriptions toJS config m)).
Proof.
  intros Hm. rewrite updateSubscriptions_run by assumption. cbv zeta.
  destruct (answer (Config.unsubscribe config) (values (toUnsubscribe m)));
    cbn [final];
    [now apply afterUnsubscribe_ordinary | now apply afterSubscribe_ordinary].
Qed.

(** With ordinary reads a manager's keys stay ordinary, and a context
    with an entry of watched queries watches a key. *)
Lemma ordinary_reachable (s : System Q) :
  reachable_ordinarily toJS config s ->
  ordinary_state (manager s) /\ nonempty_watched (manager s).
Proof.
  induction 1 as [|s st s' Hs IH Hst Hstep].
  - split; [|intros id queryKeys; discriminate].
    split; [reflexivity|]. split; [now split|]. intros id queryKeys.
    discriminate.
  - destruct st as [g query context|c|param|]; simpl in Hstep.
    + injection Hstep as <-. now apply get_ordinary.
    + injection Hstep as <-. now apply reset_ordinary.
    + injection Hstep as <-. cbn [after manager].
      now destruct (updateQueries_quiet toJS config param (manager s))
        as [-> _].
    + destruct (Nat.eqb (outstanding s) 0); [discriminate|].
      injection Hstep as <-. cbn [after manager]. destruct IH as [Ho Hn].
      split; [now apply updateSubscriptions_ordinary|].
      destruct (updateSubscriptions_watched (manager s)) as (Hw & _).
      now apply (nonempty_watched_same (manager s)).
Qed.

(** X1.  The two context maps of a manager are in step in every state it
    reaches: no context id occurs twice, [watchedContexts] has an entry
    exactly for the ids that have an entry in
    [watchedQueryKeysByContextId], and the entry is the context of that
    id.  When no query read has the key ["__proto__"] or
    ["hasOwnProperty"], each of these ids watches at least one key. *)
Theorem reachable_maps_in_step (s : System Q) :
  reachable toJS config s ->
  let m := manager s in
  NoDup (Object_keys (watchedQueryKeysByContextId m)) /\
  (forall id,
     hasOwnProperty (watchedQueryKeysByContextId m) id =
     hasOwnProperty (watchedContexts m) id) /\
  (reachable_ordinarily toJS config s ->
   forall id, hasOwnProperty (watchedQueryKeysByContextId m) id = true ->
     watchedKeys m id <> []) /\
  (forall id c, lookup (watchedContexts m) id = Some c -> Watch.id c = id).
Proof.
  intros H m. subst m.
  destruct (in_step_reachable s H) as (Hnd & Hstep & Hid).
  split; [now apply Object_keys_NoDup|]. split; [exact Hstep|].
  split; [|exact Hid].
  intros Ho id Hin. apply ordinary_reachable in Ho. destruct Ho as [_ Hsome].
  apply hasOwnProperty_lookup in Hin. destruct Hin as [qk Hq].
  unfold watchedKeys, watchedBy. rewrite Hq. now apply (Hsome id).
Qed.

End InStep.

(* ================================================================== *)
(** * updateQueries on the states a manager reaches *)
(* ================================================================== *)

Section ForceUpdates.

Import JS Manager.
Context {T Q : Type} (toJS : Q -> Value)
        (config : Config.SubscriptionManagerConfig T Q).
Implicit Types (m : SubscriptionManager Q) (k key : string) (q query : Q).
Implicit Types (c : Watch.BaseSubscriptionContext).

Lemma findM_pure {S E A} (l : list A) (test : A -> Eff S E bool)
    (f : A -> bool) :
  (forall x s, test x s = Build_Outcome (inr (f x)) s []) ->
  forall s, findM l test s = Build_Outcome (inr (find f l)) s [].
Proof.
  intros H. induction l as [|x l IH]; intros s; simpl; [reflexivity|].
  erewrite bind_known by apply H. destruct (f x); [reflexivity | apply IH].
Qed.

Lemma forEach_calls {S E A} (l : list A) (body : A -> Eff S E unit)
    (g : A -> list E) s :
  (forall x, In x l -> body x s = Build_Outcome (inr tt) s (g x)) ->
  forEach l body s = Build_Outcome (inr tt) s (flat_map g l).
Proof.
  induction l as [|x l IH]; intros H; simpl; [reflexivity|].
  erewrite bind_returned by (apply H; now left).
  rewrite IH by (intros; apply H; now right). reflexivity.
Qed.

Lemma testFn_pure param q m :
  (forall queries, param <> QueryList queries) ->
  testFn toJS config param q m = Build_Outcome (inr (matches param q)) m [].
Proof.
  intros H. destruct param as [|queries|f]; try reflexivity.
  now elim (H queries).
Qed.

Lemma updateQueries_run param m :
  (forall queries, param <> QueryList queries) ->
  in_step m ->
  updateQueries toJS config param m =
  Build_Outcome (inr tt) m
    (flat_map (forced param m) (entries (watchedQueryKeysByContextId m))).
Proof.
  intros Hp (_ & Hstep & _). unfold updateQueries. rewrite bind_this.
  apply forEach_calls. intros [id queryKeys] Hin.
  erewrite bind_known
    by (apply findM_pure with (f := fun e => matches param (snd e));
        intros [key query] s; now apply testFn_pure).
  unfold forced, doUpdate. cbn [fst snd].
  destruct (find (fun e => matches param (snd e)) (entries queryKeys))
    as [[key query]|]; [|reflexivity].
  destruct (ToBoolean (Str key)); [|reflexivity].
  rewrite bind_this.
  apply entries_In in Hin.
  assert (Hc : hasOwnProperty (watchedContexts m) id = true).
  { rewrite <- Hstep. apply hasOwnProperty_lookup. eauto. }
  apply hasOwnProperty_lookup in Hc. destruct Hc as [c Hc]. now rewrite Hc.
Qed.

Lemma forcedUpdates_app c (t t' : list (Event Q)) :
  forcedUpdates c (t ++ t') = forcedUpdates c t + forcedUpdates c t'.
Proof. unfold forcedUpdates. now rewrite filter_app, length_app. Qed.

Lemma forcedUpdates_other param m c (l : list (string * Dict Q)) :
  (forall id c', lookup (watchedContexts m) id = Some c' -> Watch.id c' = id) ->
  ~ In (Watch.id c) (map fst l) ->
  forcedUpdates c (flat_map (forced param m) l) = 0.
Proof.
  intros Hid. induction l as [|[id qk] l IH]; intros Hnot; [reflexivity|].
  simpl in Hnot. cbn [flat_map]. rewrite forcedUpdates_app, IH by tauto.
  unfold forced. cbn [fst snd].
  destruct (doUpdate (matches param) qk); [|reflexivity].
  destruct (lookup (watchedContexts m) id) as [c'|] eqn:E; [|reflexivity].
  apply Hid in E. unfold forcedUpdates. cbn [filter].
  destruct (String.eqb_spec (Watch.id c') (Watch.id c)); [|reflexivity].
  exfalso. apply Hnot. left. congruence.
Qed.

Lemma forcedUpdates_once param m c (l : list (string * Dict Q)) :
  (forall id c', lookup (watchedContexts m) id = Some c' -> Watch.id c' = id) ->
  (forall id qk, In (id, qk) l ->
     hasOwnProperty (watchedContexts m) id = true) ->
  NoDup (map fst l) ->
  forall qk, In (Watch.id c, qk) l ->
  forcedUpdates c (flat_map (forced param m) l) =
  if doUpdate (matches param) qk then 1 else 0.
Proof.
  intros Hid Hhas. induction l as [|[id qk0] l IH]; intros Hnd qk Hin;
    [contradiction|].
  inversion Hnd as [|? ? Hnot Hnd']; subst.
  cbn [flat_map]. rewrite forcedUpdates_app.
  destruct Hin as [[= -> ->]|Hin].
  - rewrite (forcedUpdates_other param m c l Hid Hnot), Nat.add_0_r.
    unfold forced. cbn [fst snd].
    destruct (doUpdate (matches param) qk); [|reflexivity].
    assert (Hc : hasOwnProperty (watchedContexts m) (Watch.id c) = true)
      by (eapply Hhas; now left).
    apply hasOwnProperty_lookup in Hc. destruct Hc as [c' Hc]. rewrite Hc.
    apply Hid in Hc. unfold forcedUpdates. cbn [filter].
    now rewrite Hc, String.eqb_refl.
  - rewrite (IH (fun id qk H => Hhas id qk (or_intror H)) Hnd' qk Hin).
    assert (Hne : id <> Watch.id c).
    { intros ->. apply Hnot. apply in_map_iff. now exists (Watch.id c, qk). }
    unfold forced at 1. cbn [fst snd].
    destruct (doUpdate (matches param) qk0); [|reflexivity].
    destruct (lookup (watchedContexts m) id) as [c'|] eqn:E; [|reflexivity].
    apply Hid in E. unfold forcedUpdates at 1. cbn [filter].
    destruct (String.eqb_spec (Watch.id c') (Watch.id c));
      [congruence | reflexivity].
Qed.

Lemma existsb_mapped {A B} (f : B -> bool) (g : A -> B) (l : list A) :
  existsb f (map g l) = existsb (fun x => f (g x)) l.
Proof.
  induction l as [|x l IH]; simpl; [reflexivity | now rewrite IH].
Qed.

Lemma find_existsb {A} (f : A -> bool) (l : list A) :
  existsb f l = match find f l with Some _ => true | None => false end.
Proof.
  induction l as [|x l IH]; simpl; [reflexivity|].
  now destruct (f x).
Qed.

(** When no watched key is the empty string, a context is updated exactly
    when one of its watched queries passes the test. *)
Lemma doUpdate_nonempty_keys (test : Q -> bool) (queryKeys : Dict Q) :
  hasOwnProperty queryKeys "" = false ->
  doUpdate test queryKeys = existsb test (values queryKeys).
Proof.
  intros Hno. unfold doUpdate, values. rewrite existsb_mapped, find_existsb.
  destruct (find (fun e => test (snd e)) (entries queryKeys))
    as [[key query]|] eqn:E; [|reflexivity].
  apply find_some in E. destruct E as [Hin _]. cbn.
  destruct (String.eqb_spec key "") as [->|]; [|reflexivity].
  apply entries_In in Hin.
  unfold hasOwnProperty in Hno. now rewrite Hin in Hno.
Qed.

(** X2.  In every state a manager reaches, [updateQueries()] and
    [updateQueries(test)] return, leave the manager as it is, and call
    [forceUpdate] on a context once if the first key it watches whose
    query passes the test is not the empty string, and not at all
    otherwise.  So a context that does not watch the empty key is updated
    exactly once if one of its queries passes the test, however many do,
    and not at all if none does. *)
Theorem updateQueries_forces_once (s : System Q) param c :
  reachable toJS config s ->
  (forall queries, param <> QueryList queries) ->
  let m := manager s in
  let o := updateQueries toJS config param m in
  result o = inr tt /\
  final o = m /\
  forcedUpdates c (trace o) =
    (if doUpdate (matches param) (watchedBy m (Watch.id c)) then 1 else 0) /\
  (hasOwnProperty (watchedBy m (Watch.id c)) "" = false ->
   forcedUpdates c (trace o) =
     if existsb (matches param) (values (watchedBy m (Watch.id c)))
     then 1 else 0).
Proof.
  intros Hs Hp m o. subst o m.
  pose proof (in_step_reachable toJS config s Hs) as Hstep.
  rewrite (updateQueries_run param (manager s) Hp Hstep).
  cbn [result final trace].
  assert (Hcount :
            forcedUpdates c
              (flat_map (forced param (manager s))
                 (entries (watchedQueryKeysByContextId (manager s)))) =
            if doUpdate (matches param) (watchedBy (manager s) (Watch.id c))
            then 1 else 0).
  { destruct Hstep as (Hnd & Hlock & Hid). unfold watchedBy.
    destruct (lookup (watchedQueryKeysByContextId (manager s)) (Watch.id c))
      as [qk|] eqn:E.
    - apply forcedUpdates_once; try assumption.
      + intros id qk' Hin. rewrite <- Hlock.
        apply hasOwnProperty_lookup. exists qk'. now apply entries_In.
      + rewrite entries_keys. now apply Object_keys_NoDup.
      + now apply entries_In.
    - rewrite forcedUpdates_other; [reflexivity | assumption |].
      rewrite entries_keys, Object_keys_In.
      apply hasOwnProperty_false in E. congruence. }
  repeat split; [exact Hcount|].
  intros Hno. now rewrite Hcount, doUpdate_nonempty_keys.
Qed.

End ForceUpdates.

Section MissingContext.

Import JS Manager.
Context {T Q : Type} (toJS : Q -> Value)
        (config : Config.SubscriptionManagerConfig T Q).
Implicit Types (m : SubscriptionManager Q) (k key : string) (q query : Q).

Lemma forEach_first_failure {S E A} (l : list A) (body : A -> Eff S E unit)
    (bad : A -> option Error) s :
  (forall x, exists t,
     body x s = Build_Outcome
                  (match bad x with Some e => inl e | None => inr tt end) s t) ->
  result (forEach l body s) =
  match find (fun x => match bad x with Some _ => true | None => false end) l
  with
  | Some x => match bad x with Some e => inl e | None => inr tt end
  | None => inr tt
  end.
Proof.
  intros H. induction l as [|x l IH]; simpl; [reflexivity|].
  destruct (H x) as [t Hx]. destruct (bad x) as [e|] eqn:Ebad.
  - rewrite (bind_failed _ _ _ _ _ _ Hx). cbn [result]. now rewrite ?Ebad.
  - rewrite (bind_returned _ _ _ _ _ _ Hx). exact IH.
Qed.

(** X3.  [updateQueries()] and [updateQueries(test)] throw exactly when a
    context that is to be updated has no entry in [watchedContexts], and
    then the error names that context's id. *)
Theorem updateQueries_unlocated_context param m :
  (forall queries, param <> QueryList queries) ->
  let o := updateQueries toJS config param m in
  ((exists e, result o = inl e) <->
   exists id queryKeys,
     lookup (watchedQueryKeysByContextId m) id = Some queryKeys /\
     doUpdate (matches param) queryKeys = true /\
     lookup (watchedContexts m) id = None) /\
  (forall e,
     result o = inl e ->
     exists id,
       e = WatchedContextMissing id /\
       hasOwnProperty (watchedQueryKeysByContextId m) id = true /\
       lookup (watchedContexts m) id = None).
Proof.
  intros Hp o. subst o. unfold updateQueries. rewrite bind_this.
  rewrite (forEach_first_failure _ _ (unlocated param m)).
  2:{ intros [id queryKeys].
      erewrite bind_known
        by (apply findM_pure with (f := fun e => matches param (snd e));
            intros [key query] s; now apply testFn_pure).
      unfold unlocated, doUpdate. cbn [fst snd].
      destruct (find (fun e => matches param (snd e)) (entries queryKeys))
        as [[key query]|]; [|now exists []].
      destruct (ToBoolean (Str key)); [|now exists []].
      rewrite bind_this.
      destruct (lookup (watchedContexts m) id) as [c|];
        [now exists [ForceUpdateCalled c] | now exists []]. }
  destruct (find
              (fun x => match unlocated param m x with
                        | Some _ => true
                        | None => false
                        end)
              (entries (watchedQueryKeysByContextId m)))
    as [[id queryKeys]|] eqn:E.
  - apply find_some in E. destruct E as [Hin Hbad].
    apply entries_In in Hin. unfold unlocated in *. cbn [fst snd] in *.
    destruct (doUpdate (matches param) queryKeys) eqn:Ed; [|discriminate].
    destruct (lookup (watchedContexts m) id) eqn:Ec; [discriminate|].
    split.
    + split; [intros _; now exists id, queryKeys | intros _; eauto].
    + intros e [= <-]. exists id. repeat split; [|assumption].
      apply hasOwnProperty_lookup. eauto.
  - split; [|discriminate].
    split; [intros [e [=]]|].
    intros (id & queryKeys & Hw & Hd & Hc). exfalso.
    assert (Hin : In (id, queryKeys) (entries (watchedQueryKeysByContextId m)))
      by now apply entries_In.
    apply (find_none _ _ E) in Hin.
    unfold unlocated in Hin. cbn [fst snd] in Hin.
    rewrite Hd, Hc in Hin. discriminate Hin.
Qed.

End MissingContext.

(* ================================================================== *)
(** * The test suites, replayed on the embedding *)
(* ================================================================== *)

Section Tests.

Import JS Manager Examples.
Open Scope eff_scope.

(** The sample managers, spelled out. *)
Example rerendered_fields :
  rerendered =
  {| watchedQueryKeysByContextId := [("1", [("p1b", "p1b"); ("p1c", "p1c")])];
     watchedContexts := [("1", context1)];
     subscribedQueryKeys := [("p1a", "p1a"); ("p1b", "p1b")];
     pendingSubscriptionUpdate := true;
     watchedPrototypes := [];
     subscribedPrototype := ObjectPrototype |}.
Proof. reflexivity. Qed.

Example watching_undefined_fields :
  watching_undefined =
  {| watchedQueryKeysByContextId := [("1", [("", Undefined)])];
     watchedContexts := [("1", context1)];
     subscribedQueryKeys := [];
     pendingSubscriptionUpdate := true;
     watchedPrototypes := [];
     subscribedPrototype := ObjectPrototype |}.
Proof. reflexivity. Qed.

Example first_read_fields :
  first_read =
  {| manager :=
       {| watchedQueryKeysByContextId := [("1", [("p1a", "p1a")])];
          watchedContexts := [("1", context1)];
          subscribedQueryKeys := [];
          pendingSubscriptionUpdate := true;
     watchedPrototypes := [];
     subscribedPrototype := ObjectPrototype |};
     outstanding := 1 |}.
Proof. reflexivity. Qed.

(** Context ids are enumerated in ascending numeric order, other keys in
    creation order. *)
Example enumeration_order :
  Object_keys [("b", 1); ("10", 2); ("a", 3); ("2", 4); ("02", 5); ("", 6)]
  = ["2"; "10"; "b"; "a"; "02"; ""].
Proof. reflexivity. Qed.

(** manager.spec: "allows get outside context if config is set". *)
Example allows_get_outside_context_if_config_is_set :
  get (fun q => q) config_any
    {| currentContext := None; noGetOutsideContext := false |}
    (Str "testQuery") None new
  = Build_Outcome (inr 123%Z) new [GetCalled (Str "testQuery")].
Proof. reflexivity. Qed.

(** watch.spec: "batches subscribe calls per manager". *)
Example batches_subscribe_calls_per_manager :
  let o := (read context1 "p1a" ;; read context1 "p1b") new in
  deferrals (trace o) = 1 /\
  trace (updateSubscriptions Str config1 (final o)) =
    [SubscribeCalled ["p1a"; "p1b"]].
Proof. split; reflexivity. Qed.

(** watch.spec: "does not subscribe to queries no longer needed". *)
Example does_not_subscribe_to_queries_no_longer_needed :
  let o :=
    (read context1 "p1a" ;; reset config1 context1 ;; read context1 "p1b")
      new in
  deferrals (trace o) = 1 /\
  trace (updateSubscriptions Str config1 (final o)) = [SubscribeCalled ["p1b"]].
Proof. split; reflexivity. Qed.

(** watch.spec: "unsubscribes from queries on prop change after
    subscribing". *)
Example unsubscribes_on_prop_change_after_subscribing :
  trace
    ((read context1 "p1a" ;; updateSubscriptions Str config1 ;;
      reset config1 context1 ;; read context1 "p1b" ;;
      updateSubscriptions Str config1) new)
  = [GetCalled "p1a"; RegisterResetCalled context1;
     DeferCalled (Config.configured "updateSubscription1");
     SubscribeCalled ["p1a"];
     DeferCalled (Config.configured "updateSubscription1");
     GetCalled "p1b"; RegisterResetCalled context1;
     UnsubscribeCalled ["p1a"]; SubscribeCalled ["p1b"]].
Proof. reflexivity. Qed.

(** watch.spec: "unsubscribes on unmount". *)
Example unsubscribes_on_unmount :
  trace
    ((read context1 "p1a" ;; updateSubscriptions Str config1 ;;
      reset config1 context1 ;; updateSubscriptions Str config1) new)
  = [GetCalled "p1a"; RegisterResetCalled context1;
     DeferCalled (Config.configured "updateSubscription1");
     SubscribeCalled ["p1a"];
     DeferCalled (Config.configured "updateSubscription1");
     UnsubscribeCalled ["p1a"]].
Proof. reflexivity. Qed.

(** watch.spec: "batches subscription updates across multiple component
    instances". *)
Example batches_across_component_instances :
  let o :=
    (read context1 "p1a" ;; read context2 "p1a" ;; read context2 "p1b")
      new in
  deferrals (trace o) = 1 /\
  trace (updateSubscriptions Str config1 (final o)) =
    [SubscribeCalled ["p1a"; "p1b"]].
Proof. split; reflexivity. Qed.

(** watch.spec: "batches unsubscribes across multiple components". *)
Example batches_unsubscribes_across_components :
  let o :=
    (read context1 "p1a" ;; read context2 "p1b" ;;
     updateSubscriptions Str config1 ;;
     reset config1 context1 ;;
     reset config1 context2 ;; read context2 "p1a") new in
  trace (updateSubscriptions Str config1 (final o)) = [UnsubscribeCalled ["p1b"]].
Proof. reflexivity. Qed.

(** watch.spec: "updates components when manager updates all queries"
    and "... updates queries by ID". *)
Example updates_components :
  let m :=
    final ((read context1 "p1a" ;; read context1 "p1b" ;;
            read context2 "p1b") new) in
  trace (updateQueries Str config1 NoParam m) =
    [ForceUpdateCalled context1; ForceUpdateCalled context2] /\
  trace (updateQueries Str config1 (QueryList ["p1a"]) m) =
    [ForceUpdateCalled context1].
Proof. split; reflexivity. Qed.

End Tests.

(* ================================================================== *)
(** * The theorems at sample inputs *)
(* ================================================================== *)

Section Samples.

Import JS Objects Manager Examples Scenes.

(** C1 as stated fails when [unsubscribe] throws: "p1c" is watched and
    not subscribed, and yet [subscribe] is not called and "p1c" is not
    among the subscribed keys afterwards. *)
Lemma updateSubscriptions_unsubscribe_throws :
  let m := rerendered in
  let o := updateSubscriptions Str config1_failing m in
  hasOwnProperty (keysBeingWatched m) "p1c" = true /\
  hasOwnProperty (subscribedQueryKeys m) "p1c" = false /\
  trace o = [UnsubscribeCalled ["p1a"]] /\
  ~ (forall k,
       hasOwnProperty (subscribedQueryKeys (final o)) k =
       hasOwnProperty (keysBeingWatched m) k).
Proof.
  cbv zeta. split; [reflexivity|]. split; [reflexivity|].
  split; [reflexivity|]. intros H. specialize (H "p1c"). discriminate H.
Qed.

(** C1 as amended, at a sample: [context1] read "p1a" and "p1b", then
    "p1b" and "p1c". *)
Lemma updateSubscriptions_reconciles_sample :
  let m := rerendered in
  let o := updateSubscriptions Str config1 m in
  ordinary_state m /\
  (forall queries, Config.unsubscribe config1 queries = inr tt) /\
  trace o = [UnsubscribeCalled ["p1a"]; SubscribeCalled ["p1c"]] /\
  (forall k,
     hasOwnProperty (subscribedQueryKeys (final o)) k =
     hasOwnProperty (keysBeingWatched m) k).
Proof.
  cbv zeta. split; [apply ordinary_stateb_sound; reflexivity|].
  split; [reflexivity|]. split; [reflexivity|].
  exact (proj2 (proj2
           (updateSubscriptions_reconciles Str config1 rerendered
              (ordinary_stateb_sound rerendered eq_refl)
              (fun _ => eq_refl)))).
Defined.


(** C9 as stated fails when the first run's [unsubscribe] throws: the
    second run calls [subscribe] and changes [subscribedQueryKeys]. *)
Lemma updateSubscriptions_retries_after_throw :
  let first := updateSubscriptions Str config1_failing rerendered in
  let second := updateSubscriptions Str config1_failing (final first) in
  trace second = [SubscribeCalled ["p1c"]] /\
  ~ (trace second = [] /\
     subscribedQueryKeys (final second) = subscribedQueryKeys (final first)).
Proof.
  cbv zeta. split; [reflexivity|]. intros (H & _). discriminate H.
Qed.

(** C9 as amended, at the same sample. *)
Lemma updateSubscriptions_idempotent_sample :
  let first := updateSubscriptions Str config1 rerendered in
  let second := updateSubscriptions Str config1 (final first) in
  ordinary_state rerendered /\
  (forall queries, Config.unsubscribe config1 queries = inr tt) /\
  trace second = [] /\
  subscribedQueryKeys (final second) = subscribedQueryKeys (final first) /\
  result second = inr tt.
Proof.
  cbv zeta. split; [apply ordinary_stateb_sound; reflexivity|].
  split; [reflexivity|].
  exact (updateSubscriptions_idempotent Str config1 rerendered
           (ordinary_stateb_sound rerendered eq_refl)
           (fun _ => eq_refl)).
Defined.

(** C3 as stated fails: in the first test of the suite (no context, the
    flag set) the getter has been called when [get] fails. *)
Lemma get_outside_context_calls_getter :
  let o := get Str config1 globalConfig "testQuery" None new in
  result o = inl (OutsideContext "get") /\
  trace o = [GetCalled "testQuery"] /\
  ~ ((exists e, result o = inl e) /\
     ~ In (GetCalled "testQuery") (trace o) /\
     final o = new).
Proof.
  cbv zeta. split; [reflexivity|]. split; [reflexivity|].
  intros (_ & H & _). apply H. now left.
Qed.

(** C3 as amended, at that input. *)
Lemma get_outside_context_sample :
  let o := get Str config1 globalConfig "testQuery" None new in
  noGetOutsideContext globalConfig = true /\
  currentContext globalConfig = None /\
  trace o = [GetCalled "testQuery"] /\
  final o = new /\
  result o = inl (OutsideContext "get").
Proof.
  cbv zeta. split; [reflexivity|]. split; [reflexivity|].
  exact (get_outside_context Str config1 globalConfig "testQuery" new
           eq_refl eq_refl).
Defined.



(** C5 at a sample: scheduling on a new manager. *)
Lemma scheduling_sample :
  pendingSubscriptionUpdate (@new string) = false /\
  scheduleSubscriptionUpdate config1 new =
  Build_Outcome (inr tt) (set_pendingSubscriptionUpdate true new)
    [DeferCalled (Config.configured "updateSubscription1")].
Proof.
  split; [reflexivity|].
  exact (proj1 (proj2 (scheduling_at_most_one_pending Str config1))
           new eq_refl).
Defined.



(** C7 at a failing input: the query
    [{hasOwnProperty: function () { return 'yes'; }}] has no [key] and
    no [toString] of its own, and yet it has a key, the string the
    inherited [toString] returns. *)
Lemma defaultQueryToString_shadowed_sample :
  let own := [("hasOwnProperty", Method "yes")] in
  lookup own "hasOwnProperty" = Some (Method "yes") /\
  (forall key, lookup own "key" <> Some (Str key)) /\
  lookup own "toString" = None /\
  defaultQueryToString (Object own) = inr "[object Object]".
Proof.
  cbv zeta. split; [reflexivity|]. split; [discriminate|].
  split; [reflexivity|].
  exact (defaultQueryToString_shadowed_hasOwnProperty
           [("hasOwnProperty", Method "yes")] (Method "yes") eq_refl
           (fun key => ltac:(discriminate))).
Defined.

(** X1 at a sample: [context1] has read "p1a". *)
Lemma reachable_maps_in_step_sample :
  reachable Str config1 first_read /\
  forall id,
    hasOwnProperty (watchedQueryKeysByContextId (manager first_read)) id =
    hasOwnProperty (watchedContexts (manager first_read)) id.
Proof.
  assert (H : reachable Str config1 first_read)
    by exact (reachable_step _ _ Str config1 start
                (DoGet (rendering context1) "p1a" None) first_read
                (reachable_start _ _ Str config1) eq_refl).
  split; [exact H|].
  exact (proj1 (proj2 (reachable_maps_in_step Str config1 first_read H))).
Defined.

(** X2 at that sample: [updateQueries()] calls one [forceUpdate] on
    [context1]. *)
Lemma updateQueries_forces_once_sample :
  reachable Str config1 first_read /\
  forcedUpdates context1
    (trace (updateQueries Str config1 NoParam (manager first_read))) = 1.
Proof.
  assert (H : reachable Str config1 first_read)
    by exact (reachable_step _ _ Str config1 start
                (DoGet (rendering context1) "p1a" None) first_read
                (reachable_start _ _ Str config1) eq_refl).
  split; [exact H|].
  exact (proj1 (proj2 (proj2
           (updateQueries_forces_once Str config1 first_read NoParam context1
              H (fun queries => ltac:(discriminate)))))).
Defined.

(** X3 at a sample: [updateQueries()] on a manager whose watched
    context "7" cannot be located. *)
Lemma updateQueries_unlocated_context_sample :
  (forall queries : list string, NoParam <> QueryList queries) /\
  exists id,
    result (updateQueries Str config1 NoParam unlocatable) =
      inl (WatchedContextMissing id) /\
    lookup (watchedContexts unlocatable) id = None.
Proof.
  split; [discriminate|].
  destruct (proj2 (updateQueries_unlocated_context Str config1 NoParam
                     unlocatable (fun queries => ltac:(discriminate)))
              (WatchedContextMissing "7") eq_refl)
    as (id & He & _ & Hc).
  exists id. split; [|exact Hc]. now rewrite <- He.
Defined.

End Samples.

(* ================================================================== *)
(** * More on one manager: what is subscribed, repeated reads, unmount *)
(* ================================================================== *)

Section Quiescence.

Import JS Objects Manager.
Context {T Q : Type} (toJS : Q -> Value)
        (config : Config.SubscriptionManagerConfig T Q).
Implicit Types (m : SubscriptionManager Q) (k key : string) (q query : Q).
Implicit Types (c : Watch.BaseSubscriptionContext).

Lemma settled_reachable (s : System Q) :
  (forall queries, Config.unsubscribe config queries = inr tt) ->
  reachable_ordinarily toJS config s ->
  pendingSubscriptionUpdate (manager s) = false ->
  forall k,
    hasOwnProperty (subscribedQueryKeys (manager s)) k =
    hasOwnProperty (keysBeingWatched (manager s)) k.
Proof.
  intros Hu. induction 1 as [|s st s' Hs IH Hst Hstep]; [reflexivity|].
  destruct st as [g query context|c|param|]; simpl in Hstep.
  - injection Hstep as <-. unfold after. cbn [manager].
    rewrite get_run.
    destruct (Config.get config query); [exact IH|].
    destruct (available g context) as [c|]; [|exact IH].
    destruct (toKey toJS config query) as [e|key]; [exact IH|].
    cbv zeta. cbn [final].
    destruct (pendingSubscriptionUpdate (manager s)) eqn:Ep.
    + rewrite registered_pending, Ep. discriminate.
    + discriminate.
  - injection Hstep as <-. unfold after. cbn [manager].
    rewrite reset_run. cbv zeta.
    destruct (pendingSubscriptionUpdate (manager s)) eqn:Ep; cbn [final].
    + unfold unwatched.
      cbn [pendingSubscriptionUpdate set_watchedContexts
           set_watchedQueryKeysByContextId set_watchedPrototypes].
      rewrite Ep. discriminate.
    + discriminate.
  - injection Hstep as <-. unfold after. cbn [manager].
    destruct (updateQueries_quiet toJS config param (manager s)) as [-> _].
    exact IH.
  - destruct (Nat.eqb (outstanding s) 0); [discriminate|].
    injection Hstep as <-. unfold after. cbn [manager].
    rewrite updateSubscriptions_run
      by apply (ordinary_reachable toJS config s Hs).
    cbv zeta.
    rewrite (answer_returns _ _ Hu). cbn [final]. intros _ k.
    rewrite afterSubscribe_keys.
    now rewrite (keysBeingWatched_same_watched (afterSubscribe (manager s))
                   (manager s)).
Qed.

(** X4.  When no reconciliation is pending, the manager is subscribed to
    exactly the keys that some context watches: in every state a manager
    reaches by reads of queries whose key is neither ["__proto__"] nor
    ["hasOwnProperty"], with an [unsubscribe] that does not throw, if
    the pending flag is clear then a key is in [subscribedQueryKeys] if
    and only if some context watches it. *)
Theorem subscribed_is_watched_when_idle (s : System Q) :
  (forall queries, Config.unsubscribe config queries = inr tt) ->
  reachable_ordinarily toJS config s ->
  pendingSubscriptionUpdate (manager s) = false ->
  forall k,
    hasOwnProperty (subscribedQueryKeys (manager s)) k = true <->
    exists id queryKeys,
      lookup (watchedQueryKeysByContextId (manager s)) id = Some queryKeys /\
      hasOwnProperty queryKeys k = true.
Proof.
  intros Hu Hs Hp k. rewrite (settled_reachable s Hu Hs Hp k).
  apply keysBeingWatched_union.
Qed.

(** ** Reading the same query again *)

Lemma delete_delete {V} (o : Dict V) k : delete (delete o k) k = delete o k.
Proof.
  induction o as [|[k0 v0] o IH]; simpl; [reflexivity|].
  destruct (k0 =? k) eqn:E; [exact IH|]. simpl. now rewrite E, IH.
Qed.

(** The prototype kept for the object of a context in
    [watchedPrototypes]. *)
Lemma set_watchedObject_again id (o : Obj Q) m :
  watchedObject (set_watchedObject id o m) id =
  Some {| own := own o; proto := proto o |} /\
  set_watchedObject id o (set_watchedObject id o m) = set_watchedObject id o m.
Proof.
  unfold watchedObject, set_watchedObject.
  cbn [watchedQueryKeysByContextId watchedContexts subscribedQueryKeys
       pendingSubscriptionUpdate watchedPrototypes subscribedPrototype
       set_watchedQueryKeysByContextId set_watchedPrototypes].
  rewrite lookup_assign_same, assign_assign. split.
  - destruct (proto o);
      now rewrite ?lookup_delete_same, ?lookup_assign_same.
  - unfold set_watchedPrototypes, set_watchedQueryKeysByContextId.
    cbn [watchedQueryKeysByContextId watchedContexts subscribedQueryKeys
         pendingSubscriptionUpdate watchedPrototypes subscribedPrototype].
    destruct (proto o); now rewrite ?delete_delete, ?assign_assign.
Qed.



Lemma registered_present c key query m (o : Obj Q) :
  watchedObject m (Watch.id c) = Some o ->
  registered toJS c key query m =
  set_watchedContexts (assign (watchedContexts m) (Watch.id c) c)
    (set_watchedObject (Watch.id c) (set toJS o key query) m).
Proof. intros H. unfold registered, queryKeysOf. now rewrite H. Qed.




(** ** A context goes away *)

(** X6.  Where none of the watched or subscribed keys is ["__proto__"]
    or ["hasOwnProperty"]: once the reset of a context has fired, the
    next reconciliation unsubscribes exactly the subscribed queries
    whose key no other context watches; what another context still
    watches stays subscribed. *)
Theorem reset_then_reconcile c m :
  ordinary_state m ->
  let m' := final (reset config c m) in
  let o := updateSubscriptions toJS config m' in
  exists unsubscribed rest,
    trace o = batched UnsubscribeCalled unsubscribed ++ rest /\
    (forall qs, ~ In (UnsubscribeCalled qs) rest) /\
    forall q,
      In q unsubscribed <->
      exists k,
        lookup (subscribedQueryKeys m) k = Some q /\
        forall id queryKeys,
          lookup (watchedQueryKeysByContextId m) id = Some queryKeys ->
          hasOwnProperty queryKeys k = true ->
          id = Watch.id c.
Proof.
  intros Hm. cbv zeta. set (m' := final (reset config c m)).
  assert (Hm' : ordinary_state m').
  { subst m'. rewrite reset_run. cbv zeta.
    pose proof (ordinary_state_unwatched (Watch.id c) m Hm).
    now destruct (pendingSubscriptionUpdate m). }
  assert (Hs : subscribedQueryKeys m' = subscribedQueryKeys m).
  { subst m'. rewrite reset_run. cbv zeta.
    now destruct (pendingSubscriptionUpdate m). }
  assert (Hw : watchedQueryKeysByContextId m' =
               delete (watchedQueryKeysByContextId m) (Watch.id c)).
  { subst m'. rewrite reset_run. cbv zeta.
    now destruct (pendingSubscriptionUpdate m). }
  exists (values (toUnsubscribe m')).
  assert (Hchar : forall q,
    In q (values (toUnsubscribe m')) <->
    exists k,
      lookup (subscribedQueryKeys m) k = Some q /\
      forall id queryKeys,
        lookup (watchedQueryKeysByContextId m) id = Some queryKeys ->
        hasOwnProperty queryKeys k = true ->
        id = Watch.id c).
  { intros q. rewrite values_In. split.
    - intros [k Hk]. exists k. rewrite toUnsubscribe_lookup, Hs in Hk.
      destruct (hasOwnProperty (keysBeingWatched m') k) eqn:E; [discriminate|].
      split; [assumption|]. intros id qk Hid Hqk.
      destruct (string_dec id (Watch.id c)) as [|Hne]; [assumption|].
      exfalso. apply not_true_iff_false in E. apply E.
      apply keysBeingWatched_union. exists id, qk. split; [|assumption].
      rewrite Hw, lookup_delete_other by congruence. assumption.
    - intros (k & Hk & Honly). exists k.
      rewrite toUnsubscribe_lookup, Hs.
      destruct (hasOwnProperty (keysBeingWatched m') k) eqn:E; [|assumption].
      exfalso. apply keysBeingWatched_union in E.
      destruct E as (id & qk & Hid & Hqk). rewrite Hw in Hid.
      destruct (string_dec (Watch.id c) id) as [<-|Hne].
      + now rewrite lookup_delete_same in Hid.
      + rewrite lookup_delete_other in Hid by assumption.
        apply Hne. symmetry. eapply Honly; eassumption. }
  rewrite updateSubscriptions_run by assumption. cbv zeta.
  destruct (answer (Config.unsubscribe config) (values (toUnsubscribe m')))
    as [e|u] eqn:Ea; cbn [trace].
  - exists []. split; [|split; [intros qs []|exact Hchar]].
    unfold answer in Ea. unfold batched.
    destruct (negb (Nat.eqb (length (values (toUnsubscribe m'))) 0));
      [reflexivity | discriminate].
  - exists (batched SubscribeCalled (values (toSubscribe m'))).
    split; [reflexivity|]. split; [|exact Hchar].
    intros qs. unfold batched.
    destruct (negb (Nat.eqb (length (values (toSubscribe m'))) 0));
      [intros [H|[]]; discriminate | intros []].
Qed.

End Quiescence.

(* ================================================================== *)
(** * Queries are held under their own keys *)
(* ================================================================== *)

Section OwnKeyFacts.

Import JS Objects Manager.
Context {T Q : Type} (toJS : Q -> Value)
        (config : Config.SubscriptionManagerConfig T Q).
Implicit Types (m : SubscriptionManager Q) (k key : string) (q query : Q).
Implicit Types (c : Watch.BaseSubscriptionContext).

Lemma lookup_assign_all_In {V} (l : list (string * V)) :
  forall (o : Dict V) k v,
  lookup (fold_left (fun o e => assign o (fst e) (snd e)) l o) k = Some v ->
  In (k, v) l \/ lookup o k = Some v.
Proof.
  induction l as [|[k' v'] l IH]; intros o k v H; cbn [fold_left] in H.
  - now right.
  - apply IH in H. destruct H as [H|H]; [left; now right|].
    cbn [fst snd] in H.
    destruct (String.eqb_spec k' k) as [->|Hne].
    + rewrite lookup_assign_same in H. injection H as ->. left. now left.
    + rewrite lookup_assign_other in H by assumption. now right.
Qed.

Lemma own_keys_same m m' :
  watchedQueryKeysByContextId m' = watchedQueryKeysByContextId m ->
  subscribedQueryKeys m' = subscribedQueryKeys m ->
  own_keys toJS config m -> own_keys toJS config m'.
Proof. unfold own_keys. now intros -> ->. Qed.

Lemma own_keys_new : own_keys toJS config new.
Proof. split; intros; discriminate. Qed.

Lemma lookup_set_all_In (l : list (string * Q)) :
  forall (o : Obj Q) k v,
  lookup (own (fold_left (fun o e => set toJS o (fst e) (snd e)) l o)) k
    = Some v ->
  In (k, v) l \/ lookup (own o) k = Some v.
Proof.
  induction l as [|[k' v'] l IH]; intros o k v H; cbn [fold_left] in H.
  - now right.
  - apply IH in H. destruct H as [H|H]; [left; now right|].
    cbn [fst snd] in H. apply set_lookup in H.
    destruct H as [[-> ->]|H]; [left; now left | now right].
Qed.

(** What a context watches once a query is registered for it, and what
    the others do. *)
Lemma registered_lookup_set c key query m id :
  lookup (watchedQueryKeysByContextId (registered toJS c key query m)) id =
  if Watch.id c =? id
  then Some (own (set toJS (queryKeysOf m (Watch.id c)) key query))
  else lookup (watchedQueryKeysByContextId m) id.
Proof.
  unfold registered.
  cbn [watchedQueryKeysByContextId set_watchedQueryKeysByContextId
       set_watchedContexts set_watchedObject set_watchedPrototypes].
  destruct (String.eqb_spec (Watch.id c) id) as [<-|Hne].
  - now rewrite lookup_assign_same.
  - rewrite lookup_assign_other by assumption.
    destruct (watchedObject m (Watch.id c)); [reflexivity|].
    cbn [watchedQueryKeysByContextId set_watchedQueryKeysByContextId
         set_watchedObject set_watchedPrototypes].
    now rewrite lookup_assign_other by assumption.
Qed.

Lemma own_keys_registered c key query m :
  toKey toJS config query = inr key ->
  own_keys toJS config m ->
  own_keys toJS config (registered toJS c key query m).
Proof.
  intros Hk [Hw Hs]. split.
  - intros id queryKeys k q. rewrite registered_lookup_set.
    destruct (Watch.id c =? id); [|apply Hw].
    intros [= <-] Hl. apply set_lookup in Hl.
    destruct Hl as [[-> ->]|Hl]; [assumption|].
    rewrite queryKeysOf_own in Hl. unfold watchedBy in Hl.
    destruct (lookup (watchedQueryKeysByContextId m) (Watch.id c))
      as [qk|] eqn:E; [|discriminate].
    now apply (Hw _ _ _ _ E).
  - now destruct (registered_subscribed toJS c key query m) as [-> _].
Qed.

Lemma own_keys_unwatched id m :
  own_keys toJS config m -> own_keys toJS config (unwatched id m).
Proof.
  intros [Hw Hs]. split; [|exact Hs].
  unfold unwatched.
  cbn [watchedQueryKeysByContextId set_watchedContexts
       set_watchedQueryKeysByContextId set_watchedPrototypes].
  intros id' queryKeys k q.
  destruct (String.eqb_spec id id') as [<-|Hne].
  - now rewrite lookup_delete_same.
  - rewrite lookup_delete_other by assumption. apply Hw.
Qed.

Lemma own_keys_afterUnsubscribing (toUnsubscribe : Dict Q) m :
  own_keys toJS config m ->
  own_keys toJS config (afterUnsubscribing toUnsubscribe m).
Proof.
  intros [Hw Hs]. split; [exact Hw|].
  intros k q. unfold afterUnsubscribing.
  cbn [subscribedQueryKeys set_subscribedQueryKeys].
  rewrite lookup_delete_all.
  destruct (in_dec string_dec k (Object_keys toUnsubscribe));
    [discriminate | apply Hs].
Qed.

Lemma own_keys_afterSubscribing (toSubscribe : Dict Q) m :
  (forall k q, lookup toSubscribe k = Some q -> toKey toJS config q = inr k) ->
  own_keys toJS config m ->
  own_keys toJS config (afterSubscribing toJS toSubscribe m).
Proof.
  intros Hts [Hw Hs]. split; [exact Hw|].
  intros k q Hl. unfold afterSubscribing in Hl.
  change (subscribedQueryKeys (set_subscribedObject ?o _)) with (own o) in Hl.
  apply lookup_set_all_In in Hl. destruct Hl as [Hl|Hl].
  - apply entries_In in Hl. now apply Hts.
  - now apply Hs.
Qed.

(** What the loops find to subscribe and to unsubscribe is held under
    its own key. *)
Lemma scans_own_keys m (toUnsubscribe toSubscribe : Dict Q) :
  own_keys toJS config m ->
  scans toJS m = inr (toUnsubscribe, toSubscribe) ->
  (forall k q, lookup toUnsubscribe k = Some q ->
               toKey toJS config q = inr k) /\
  (forall k q, lookup toSubscribe k = Some q ->
               toKey toJS config q = inr k).
Proof.
  intros [Hw Hs] H. apply scans_sound in H.
  destruct H as (_ & Hu & _ & Hsub). split.
  - intros k q Hl. now apply Hs, Hu.
  - intros k q Hl. destruct (Hsub _ _ Hl) as (id & qk & Hid & Hq).
    now apply (Hw _ _ _ _ Hid).
Qed.

Lemma updateSubscriptions_own_keys m :
  own_keys toJS config m ->
  own_keys toJS config (final (updateSubscriptions toJS config m)).
Proof.
  intros H. rewrite updateSubscriptions_scanned.
  destruct (scans toJS m) as [e|[toUnsubscribe toSubscribe]] eqn:Es;
    [exact H|].
  destruct (scans_own_keys _ _ _ H Es) as [_ Hts]. cbv zeta.
  destruct (answer (Config.unsubscribe config) (values toUnsubscribe));
    cbn [final].
  - now apply own_keys_afterUnsubscribing.
  - apply own_keys_afterSubscribing; [assumption|].
    now apply own_keys_afterUnsubscribing.
Qed.

Lemma own_keys_reachable (s : System Q) :
  reachable toJS config s -> own_keys toJS config (manager s).
Proof.
  induction 1 as [|s st s' Hs IH Hstep]; [apply own_keys_new|].
  destruct st as [g query context|c|param|]; simpl in Hstep.
  - injection Hstep as <-. unfold after. cbn [manager].
    rewrite get_run.
    destruct (Config.get config query); [exact IH|].
    destruct (available g context) as [c|]; [|exact IH].
    destruct (toKey toJS config query) as [e|key] eqn:Ek; [exact IH|].
    cbv zeta. cbn [final].
    destruct (pendingSubscriptionUpdate (manager s)).
    + now apply own_keys_registered.
    + eapply own_keys_same;
        [| |apply (own_keys_registered c key query _ Ek IH)]; reflexivity.
  - injection Hstep as <-. unfold after. cbn [manager].
    rewrite reset_run. cbv zeta.
    destruct (pendingSubscriptionUpdate (manager s)); cbn [final].
    + now apply own_keys_unwatched.
    + eapply own_keys_same;
        [| |apply (own_keys_unwatched (Watch.id c) _ IH)]; reflexivity.
  - injection Hstep as <-. unfold after. cbn [manager].
    now destruct (updateQueries_quiet toJS config param (manager s)) as [-> _].
  - destruct (Nat.eqb (outstanding s) 0); [discriminate|].
    injection Hstep as <-. unfold after. cbn [manager].
    now apply updateSubscriptions_own_keys.
Qed.

Lemma values_own_keys (o : Dict Q) :
  (forall k q, lookup o k = Some q -> toKey toJS config q = inr k) ->
  map (toKey toJS config) (values o) = map inr (Object_keys o).
Proof.
  intros H. pose proof (keys_values_Forall2 o) as F.
  induction F as [|k q ks qs Hkq F IH]; [reflexivity|].
  cbn [map]. rewrite IH. now rewrite (H _ _ Hkq).
Qed.

Lemma batch_distinct (o : Dict Q) :
  (forall k q, lookup o k = Some q -> toKey toJS config q = inr k) ->
  NoDup (Object_keys o) ->
  NoDup (map (toKey toJS config) (values o)) /\
  forall q, In q (values o) -> exists k, toKey toJS config q = inr k.
Proof.
  intros H Hnd. split.
  - rewrite (values_own_keys o H).
    clear H. induction Hnd as [|k ks Hnot Hnd IH]; cbn [map]; constructor;
      [|assumption].
    rewrite in_map_iff. intros (k' & [= ->] & Hin). now apply Hnot.
  - intros q Hq. apply values_In in Hq. destruct Hq as [k Hk].
    exists k. now apply H.
Qed.

(** X7.  A manager holds every query under its own key, and so never
    hands [subscribe] or [unsubscribe] two queries with the same key at
    once: in every state a manager reaches, each watched and each
    subscribed query is stored under the key it converts to, and each
    batch the next reconciliation passes to [unsubscribe] or [subscribe]
    consists of queries that convert to pairwise distinct keys. *)
Theorem reconciliation_batches_distinct_keys (s : System Q) :
  reachable toJS config s ->
  let m := manager s in
  let o := updateSubscriptions toJS config m in
  (forall id queryKeys k q,
     lookup (watchedQueryKeysByContextId m) id = Some queryKeys ->
     lookup queryKeys k = Some q ->
     toKey toJS config q = inr k) /\
  (forall k q,
     lookup (subscribedQueryKeys m) k = Some q ->
     toKey toJS config q = inr k) /\
  (forall queries,
     In (UnsubscribeCalled queries) (trace o) \/
     In (SubscribeCalled queries) (trace o) ->
     NoDup (map (toKey toJS config) queries) /\
     forall q, In q queries -> exists k, toKey toJS config q = inr k).
Proof.
  intros Hs m o. subst o m.
  pose proof (own_keys_reachable s Hs) as Hown.
  split; [apply Hown|]. split; [apply Hown|].
  intros queries. rewrite updateSubscriptions_scanned.
  destruct (scans toJS (manager s)) as [e|[toUnsubscribe toSubscribe]] eqn:Es.
  { cbn [trace]. intros [[]|[]]. }
  destruct (scans_own_keys _ _ _ Hown Es) as [Hku Hks].
  destruct (scans_sound _ _ _ _ Es) as (Hnu & _ & Hns & _).
  assert (Hu := batch_distinct toUnsubscribe Hku (Object_keys_NoDup _ Hnu)).
  assert (Hsub := batch_distinct toSubscribe Hks (Object_keys_NoDup _ Hns)).
  cbv zeta.
  destruct (answer (Config.unsubscribe config) (values toUnsubscribe));
    cbn [trace].
  - intros [[H|[]]|[H|[]]]; [|discriminate]. now injection H as <-.
  - unfold batched.
    destruct (negb (Nat.eqb (length (values toUnsubscribe)) 0));
    destruct (negb (Nat.eqb (length (values toSubscribe)) 0));
      cbn [app In]; intros [H|H];
      repeat match goal with
             | H : _ \/ _ |- _ => destruct H as [H|H]
             | H : False |- _ => destruct H
             end; try discriminate; now injection H as <-.
Qed.

End OwnKeyFacts.

(* ================================================================== *)
(** * updateQueries with a list of queries *)
(* ================================================================== *)

Section ListFormFacts.

Import JS Objects Manager.
Context {T Q : Type} (toJS : Q -> Value)
        (config : Config.SubscriptionManagerConfig T Q).
Implicit Types (m : SubscriptionManager Q) (k key : string) (q query : Q).
Implicit Types (c : Watch.BaseSubscriptionContext).

Lemma findM_pure_on {S E A} (l : list A) (test : A -> Eff S E bool)
    (f : A -> bool) :
  (forall x, In x l -> forall s, test x s = Build_Outcome (inr (f x)) s []) ->
  forall s, findM l test s = Build_Outcome (inr (find f l)) s [].
Proof.
  induction l as [|x l IH]; intros H s; simpl; [reflexivity|].
  erewrite bind_known by (apply H; now left).
  destruct (f x); [reflexivity|]. apply IH. intros; apply H; now right.
Qed.

Lemma bind_same {S E A B} (c c' : Eff S E A) (k k' : A -> Eff S E B) s :
  c s = c' s -> (forall a s', k a s' = k' a s') ->
  bind c k s = bind c' k' s.
Proof.
  intros Hc Hk. unfold bind. rewrite Hc. cbv zeta.
  destruct (result (c' s)); [reflexivity|]. now rewrite Hk.
Qed.

Lemma forEach_same {S E A} (l : list A) (body body' : A -> Eff S E unit) :
  (forall x, In x l -> forall s, body x s = body' x s) ->
  forall s, forEach l body s = forEach l body' s.
Proof.
  induction l as [|x l IH]; intros H s; simpl; [reflexivity|].
  apply bind_same; [apply H; now left|].
  intros _ s'. apply IH. intros; apply H; now right.
Qed.

Lemma testFn_list (param : list Q) q m :
  (forall p, In p param -> exists k, toKey toJS config p = inr k) ->
  (exists k, toKey toJS config q = inr k) ->
  testFn toJS config (QueryList param) q m =
  Build_Outcome (inr (listTest toJS config param q)) m [].
Proof.
  intros Hp [kq Hq]. unfold testFn, listTest. rewrite Hq.
  erewrite bind_known; [reflexivity|].
  apply findM_pure_on. intros p Hin s.
  destruct (Hp p Hin) as [kp Hkp]. unfold queryToString, sameKey.
  rewrite bind_lift, Hkp, bind_lift, Hq. reflexivity.
Qed.

Lemma entries_empty {V} (o : Dict V) : entries o = [] -> o = [].
Proof.
  intros H. destruct o as [|[k v] o]; [reflexivity|].
  assert (Hin : In k (Object_keys ((k, v) :: o))).
  { apply Object_keys_In, hasOwnProperty_lookup. exists v.
    unfold lookup. cbn. now rewrite String.eqb_refl. }
  rewrite <- entries_keys, H in Hin. destruct Hin.
Qed.

Lemma forcedUpdates_count param m c :
  in_step m ->
  forcedUpdates c
    (flat_map (forced param m) (entries (watchedQueryKeysByContextId m))) =
  if doUpdate (matches param) (watchedBy m (Watch.id c)) then 1 else 0.
Proof.
  intros (Hnd & Hlock & Hid). unfold watchedBy.
  destruct (lookup (watchedQueryKeysByContextId m) (Watch.id c))
    as [qk|] eqn:E.
  - apply forcedUpdates_once; try assumption.
    + intros id qk' Hin. rewrite <- Hlock.
      apply hasOwnProperty_lookup. exists qk'. now apply entries_In.
    + rewrite entries_keys. now apply Object_keys_NoDup.
    + now apply entries_In.
  - rewrite forcedUpdates_other; [reflexivity | assumption |].
    rewrite entries_keys, Object_keys_In.
    apply hasOwnProperty_false in E. congruence.
Qed.

Lemma updateQueries_list_run (param : list Q) m :
  own_keys toJS config m ->
  (forall p, In p param -> exists k, toKey toJS config p = inr k) ->
  updateQueries toJS config (QueryList param) m =
  updateQueries toJS config (QueryTest (listTest toJS config param)) m.
Proof.
  intros [Hw _] Hp. unfold updateQueries. rewrite !bind_this.
  apply forEach_same. intros [id queryKeys] Hin s.
  apply entries_In in Hin.
  apply bind_same; [|reflexivity].
  rewrite (findM_pure_on (entries queryKeys) _
             (fun e => listTest toJS config param (snd e))).
  2:{ intros [key query] Hq s'. apply entries_In in Hq.
      apply testFn_list; [assumption|]. exists key.
      now apply (Hw _ _ _ _ Hin). }
  rewrite (findM_pure (entries queryKeys) _
             (fun e => listTest toJS config param (snd e))).
  2:{ now intros [key query] s'. }
  reflexivity.
Qed.

(** X8.  [updateQueries(list)] is [updateQueries(test)] for the test "the
    first query of the list with the same key is truthy": in every state
    a manager reaches, if every query of the list converts to a key, the
    call with the list does exactly what the call with that test does; it
    returns, leaves the manager as it is, and calls [forceUpdate] on a
    context once if the first key it watches whose query passes the test
    is not the empty string, and not at all otherwise. *)
Theorem updateQueries_list_form (s : System Q) (param : list Q) c :
  reachable toJS config s ->
  (forall p, In p param -> exists k, toKey toJS config p = inr k) ->
  let m := manager s in
  let o := updateQueries toJS config (QueryList param) m in
  o = updateQueries toJS config (QueryTest (listTest toJS config param)) m /\
  result o = inr tt /\
  final o = m /\
  forcedUpdates c (trace o) =
    if doUpdate (listTest toJS config param) (watchedBy m (Watch.id c))
    then 1 else 0.
Proof.
  intros Hs Hp m o. subst o m.
  rewrite (updateQueries_list_run param (manager s)
             (own_keys_reachable toJS config s Hs) Hp).
  split; [reflexivity|].
  pose proof (in_step_reachable toJS config s Hs) as Hstep.
  rewrite (updateQueries_run toJS config
             (QueryTest (listTest toJS config param)) (manager s))
    by (discriminate || assumption).
  cbn [result final trace]. repeat split.
  apply (forcedUpdates_count (QueryTest (listTest toJS config param))).
  assumption.
Qed.

(** X9.  [updateQueries([])] updates nothing, where [updateQueries()]
    updates every context: with the empty list the call returns without
    calling anything and leaves the manager as it is, whatever the
    manager holds. *)
Theorem updateQueries_empty_list m :
  updateQueries toJS config (QueryList []) m = Build_Outcome (inr tt) m [].
Proof.
  unfold updateQueries. rewrite bind_this.
  rewrite (forEach_calls _ _ (fun _ => [])).
  - f_equal. induction (entries (watchedQueryKeysByContextId m));
      [reflexivity | assumption].
  - intros [id queryKeys] _.
    erewrite bind_known
      by (apply findM_pure with (f := fun _ => false);
          now intros [key query] s').
    assert (H : forall (l : list (string * Q)), find (fun _ => false) l = None)
      by (induction l; [reflexivity | assumption]).
    now rewrite H.
Qed.

Lemma testFn_list_unconvertible p (rest : list Q) q m e :
  toKey toJS config p = inl e ->
  testFn toJS config (QueryList (p :: rest)) q m = Build_Outcome (inl e) m [].
Proof.
  intros Hp. unfold testFn. cbn [findM]. do 2 apply bind_failed.
  unfold queryToString. now rewrite bind_lift, Hp.
Qed.

Lemma Object_keys_entries {V} (o : Dict V) :
  Nat.eqb (length (Object_keys o)) 0 = true -> entries o = [].
Proof.
  rewrite <- entries_keys, length_map.
  now destruct (entries o).
Qed.

Lemma updateQueries_list_unconvertible_run p (rest : list Q) e
    (l : list (string * Dict Q)) m :
  toKey toJS config p = inl e ->
  forEach l
    (fun '(id, queryKeys) =>
       (found <-
          findM (entries queryKeys)
            (fun '(key, query) =>
               testFn toJS config (QueryList (p :: rest)) query) ;;
        let doUpdate :=
          match found with
          | Some (key, _) => ToBoolean (Str key)
          | None => false
          end in
        if doUpdate then
          m <- this ;;
          match lookup (watchedContexts m) id with
          | None => throw (WatchedContextMissing id)
          | Some context => call (ForceUpdateCalled context) (inr tt)
          end
        else ret tt)%eff) m =
  Build_Outcome
    (if existsb (fun w => negb (Nat.eqb (length (Object_keys (snd w))) 0)) l
     then inl e else inr tt) m [].
Proof.
  intros Hp. induction l as [|[id queryKeys] l IH]; [reflexivity|].
  cbn [forEach existsb snd].
  destruct (Nat.eqb (length (Object_keys queryKeys)) 0) eqn:E; cbn [negb orb].
  - rewrite (Object_keys_entries _ E). cbn [findM].
    rewrite bind_assoc, bind_ret, bind_ret. exact IH.
  - destruct (entries queryKeys) as [|[key query] l'] eqn:Eq.
    { rewrite <- entries_keys, Eq in E. discriminate. }
    cbn [findM]. apply bind_failed. do 2 apply bind_failed.
    now apply testFn_list_unconvertible.
Qed.

(** X10.  A list whose first query does not convert to a key makes
    [updateQueries] throw the conversion's error as soon as some context
    watches a key, before any [forceUpdate]; while no context watches a
    key the call returns and the list is not looked at.  So where every
    context with an entry watches a key, the call throws unless the map
    of watched queries is empty. *)
Theorem updateQueries_list_unconvertible m p (rest : list Q) e :
  toKey toJS config p = inl e ->
  let o := updateQueries toJS config (QueryList (p :: rest)) m in
  final o = m /\ trace o = [] /\
  result o = (if watches_a_key m then inl e else inr tt) /\
  (nonempty_watched m ->
   result o =
     match watchedQueryKeysByContextId m with
     | [] => inr tt
     | _ :: _ => inl e
     end).
Proof.
  intros Hp o. subst o.
  unfold updateQueries. rewrite bind_this.
  rewrite (updateQueries_list_unconvertible_run p rest e _ m Hp).
  cbn [final trace result]. repeat split.
  intros Hsome. unfold nonempty_watched in Hsome.
  destruct (entries (watchedQueryKeysByContextId m))
    as [|[id queryKeys] l] eqn:E.
  - apply entries_empty in E. now rewrite E.
  - assert (Hin : lookup (watchedQueryKeysByContextId m) id = Some queryKeys)
      by (apply entries_In; rewrite E; now left).
    destruct (watchedQueryKeysByContextId m) as [|x w] eqn:Ew;
      [discriminate|]. rewrite <- Ew in *.
    specialize (Hsome _ _ Hin). cbn [existsb snd].
    destruct (Object_keys queryKeys); [now elim Hsome | reflexivity].
Qed.

End ListFormFacts.

(* ================================================================== *)
(** * When unsubscribe throws *)
(* ================================================================== *)

Section UnsubscribeThrows.

Import JS Manager.
Context {T Q : Type} (toJS : Q -> Value)
        (config : Config.SubscriptionManagerConfig T Q).
Implicit Types (m : SubscriptionManager Q) (k key : string) (q query : Q).

Lemma afterUnsubscribe_toUnsubscribe m : toUnsubscribe (afterUnsubscribe m) = [].
Proof.
  apply lookup_all_None. intros k. rewrite toUnsubscribe_lookup.
  rewrite (keysBeingWatched_same_watched (afterUnsubscribe m) m)
    by reflexivity.
  rewrite afterUnsubscribe_lookup.
  now destruct (hasOwnProperty (keysBeingWatched m) k).
Qed.

Lemma afterUnsubscribe_toSubscribe m k :
  lookup (toSubscribe (afterUnsubscribe m)) k = lookup (toSubscribe m) k.
Proof.
  rewrite !toSubscribe_lookup.
  rewrite (keysBeingWatched_same_watched (afterUnsubscribe m) m)
    by reflexivity.
  unfold hasOwnProperty at 1. rewrite afterUnsubscribe_lookup.
  fold (hasOwnProperty (subscribedQueryKeys m) k).
  destruct (hasOwnProperty (keysBeingWatched m) k) eqn:E; [reflexivity|].
  apply hasOwnProperty_false in E. rewrite E.
  now destruct (hasOwnProperty (subscribedQueryKeys m) k).
Qed.

(** X21.  Where none of the watched or subscribed keys is
    ["__proto__"] or ["hasOwnProperty"]: when [unsubscribe] throws,
    [updateSubscriptions] throws the same, having cleared the pending
    flag and forgotten the keys it was unsubscribing; it has not
    subscribed to anything.  The subscriptions it skipped are made by
    the next reconciliation, which unsubscribes nothing: that run passes
    to [subscribe] the queries the failed run would have passed. *)
Theorem unsubscribe_throws m what :
  ordinary_state m ->
  values (toUnsubscribe m) <> [] ->
  Config.unsubscribe config (values (toUnsubscribe m)) = inl what ->
  let first := updateSubscriptions toJS config m in
  let second := updateSubscriptions toJS config (final first) in
  result first = inl (Thrown what) /\
  trace first = [UnsubscribeCalled (values (toUnsubscribe m))] /\
  pendingSubscriptionUpdate (final first) = false /\
  (forall k,
     lookup (subscribedQueryKeys (final first)) k =
     if hasOwnProperty (keysBeingWatched m) k
     then lookup (subscribedQueryKeys m) k else None) /\
  exists subscribed,
    trace second = batched SubscribeCalled subscribed /\
    forall q, In q subscribed <-> In q (values (toSubscribe m)).
Proof.
  intros Hm Hne Hthrow first second. subst second first.
  assert (Ha : answer (Config.unsubscribe config) (values (toUnsubscribe m))
               = inl (Thrown what)).
  { unfold answer. rewrite Hthrow.
    destruct (values (toUnsubscribe m)); [now elim Hne | reflexivity]. }
  rewrite (updateSubscriptions_run toJS config m Hm). cbv zeta. rewrite Ha.
  cbn [result trace final].
  split; [reflexivity|]. split; [reflexivity|]. split; [reflexivity|].
  split; [apply afterUnsubscribe_lookup|].
  exists (values (toSubscribe (afterUnsubscribe m))). split.
  - rewrite updateSubscriptions_run by now apply afterUnsubscribe_ordinary.
    cbv zeta. rewrite afterUnsubscribe_toUnsubscribe. reflexivity.
  - intros q. rewrite !values_In.
    split; intros [k Hk]; exists k;
      [now rewrite <- afterUnsubscribe_toSubscribe
      | now rewrite afterUnsubscribe_toSubscribe].
Qed.

End UnsubscribeThrows.

(* ================================================================== *)
(** * The keys "__proto__" and "hasOwnProperty" *)
(* ================================================================== *)

Section SpecialKeys.

Import JS Objects Manager.
Context {T Q : Type} (toJS : Q -> Value)
        (config : Config.SubscriptionManagerConfig T Q).
Implicit Types (m : SubscriptionManager Q) (k key : string) (q query : Q).
Implicit Types (c : Watch.BaseSubscriptionContext).

(** Assigning under ["__proto__"] to an object that inherits from
    [Object.prototype] stores nothing. *)
Lemma set_proto_key (o : Obj Q) query :
  proto o = ObjectPrototype ->
  hasOwnProperty (own o) "__proto__" = false ->
  set toJS o "__proto__" query =
  {| own := own o; proto := setPrototypeOf ObjectPrototype (toJS query) |}.
Proof.
  intros Hp Ho. unfold set. cbn [String.eqb Ascii.eqb Bool.eqb negb].
  now rewrite Ho, Hp.
Qed.

Lemma registered_proto_key c query m :
  watchedObject m (Watch.id c) = None ->
  setPrototypeOf ObjectPrototype (toJS query) = ObjectPrototype ->
  watchedBy (registered toJS c "__proto__" query m) (Watch.id c) = [] /\
  watchedObject (registered toJS c "__proto__" query m) (Watch.id c) =
    Some empty.
Proof.
  intros Hnone Hq.
  assert (Hset : set toJS (queryKeysOf m (Watch.id c)) "__proto__" query =
                 empty).
  { unfold queryKeysOf. rewrite Hnone.
    rewrite set_proto_key by reflexivity. now rewrite Hq. }
  split.
  - now rewrite registered_watchedBy, Hset.
  - unfold registered. rewrite Hnone, Hset.
    unfold watchedObject, set_watchedObject.
    cbn [watchedQueryKeysByContextId watchedPrototypes
         set_watchedContexts set_watchedPrototypes
         set_watchedQueryKeysByContextId own proto empty].
    now rewrite lookup_assign_same, lookup_delete_same.
Qed.

(** X23.  Reading a query whose key is ["__proto__"] records no watched
    key: for a context with no entry and a query that is no object (a
    string, say), [registerQuery] registers the reset and leaves the
    context with an entry that holds no key; so the next
    [registerQuery] for the context registers the reset again, and
    again leaves it watching nothing. *)
Theorem registerQuery_proto_key c query m :
  toKey toJS config query = inr "__proto__" ->
  watchedObject m (Watch.id c) = None ->
  setPrototypeOf ObjectPrototype (toJS query) = ObjectPrototype ->
  let first := registerQuery toJS config c query m in
  let second := registerQuery toJS config c query (final first) in
  trace first = [RegisterResetCalled c] /\
  lookup (watchedQueryKeysByContextId (final first)) (Watch.id c) = Some [] /\
  trace second = [RegisterResetCalled c] /\
  lookup (watchedQueryKeysByContextId (final second)) (Watch.id c) = Some [] /\
  registrations c (trace first ++ trace second) = 2.
Proof.
  intros Hk Hnone Hq first second. subst second first.
  rewrite (registerQuery_run toJS config c query m), Hk. cbn [final trace].
  destruct (registered_proto_key c query m Hnone Hq) as [Hw Ho].
  assert (Hkeys : watchedKeys m (Watch.id c) = []).
  { unfold watchedKeys, watchedBy. unfold watchedObject in Hnone.
    now destruct (lookup (watchedQueryKeysByContextId m) (Watch.id c)). }
  assert (Hl : forall m', watchedObject m' (Watch.id c) = Some empty ->
                 lookup (watchedQueryKeysByContextId m') (Watch.id c)
                 = Some []).
  { intros m'. unfold watchedObject.
    destruct (lookup (watchedQueryKeysByContextId m') (Watch.id c));
      [|discriminate]. now intros [= -> _]. }
  rewrite Hkeys. cbn [length Nat.eqb].
  split; [reflexivity|]. split; [now apply Hl|].
  rewrite registerQuery_run, Hk. cbn [final trace].
  unfold watchedKeys. rewrite Hw. cbn [Object_keys length Nat.eqb].
  change (Nat.eqb (length (Object_keys (@nil (string * Q)))) 0) with true.
  cbv iota.
  assert (Hset : set toJS empty "__proto__" query = empty).
  { rewrite set_proto_key by reflexivity. now rewrite Hq. }
  split; [reflexivity|]. split.
  - apply Hl. rewrite (registered_present toJS c _ _ _ empty Ho), Hset.
    change (watchedObject (set_watchedContexts ?cs ?x) (Watch.id c))
      with (watchedObject x (Watch.id c)).
    now rewrite (proj1 (set_watchedObject_again (Watch.id c) empty _)).
  - unfold registrations. cbn [app filter]. rewrite String.eqb_refl.
    reflexivity.
Qed.

(** ** A subscribed key "hasOwnProperty" *)

Lemma scanWatchedKey_shadowed m q (acc : Obj Q * Obj Q) entry :
  lookup (subscribedQueryKeys m) "hasOwnProperty" = Some q ->
  (forall returns, toJS q <> Method returns) ->
  scanWatchedKey toJS m acc entry =
  inl (NotAFunction "this.subscribedQueryKeys.hasOwnProperty").
Proof.
  intros Hq Hf. destruct acc as [kbw ts], entry as [key query].
  unfold scanWatchedKey, call_hasOwnProperty.
  cbn [own subscribedObject]. rewrite Hq. unfold called.
  destruct (toJS q) as [| | | | | | |returns]; try reflexivity.
  now elim (Hf returns).
Qed.

Lemma watchedScan_shadowed m q :
  lookup (subscribedQueryKeys m) "hasOwnProperty" = Some q ->
  (forall returns, toJS q <> Method returns) ->
  watches_a_key m = true ->
  watchedScan toJS m =
  inl (NotAFunction "this.subscribedQueryKeys.hasOwnProperty").
Proof.
  intros Hq Hf. unfold watches_a_key, watchedScan.
  generalize (@empty Q, @empty Q).
  induction (entries (watchedQueryKeysByContextId m))
    as [|[id queryKeys] l IH]; intros acc Hw; [discriminate|].
  cbn [existsb snd] in Hw. cbn [foldE].
  destruct (Nat.eqb (length (Object_keys queryKeys)) 0) eqn:E.
  - rewrite (Object_keys_entries _ E). cbn [foldE]. now apply IH.
  - destruct (entries queryKeys) as [|entry l'] eqn:Eq.
    { rewrite <- entries_keys, Eq in E. discriminate. }
    cbn [foldE]. now rewrite (scanWatchedKey_shadowed m q acc entry Hq Hf).
Qed.

(** X24.  Once the manager is subscribed to a query under the key
    ["hasOwnProperty"] (a string, say: something that is no function),
    [this.subscribedQueryKeys.hasOwnProperty(key)] is a call of that
    query: while some context watches a key, [updateSubscriptions]
    clears the pending flag and throws a TypeError, having called
    neither callback and changed no subscription. *)
Theorem updateSubscriptions_shadowed_hasOwnProperty m q :
  lookup (subscribedQueryKeys m) "hasOwnProperty" = Some q ->
  (forall returns, toJS q <> Method returns) ->
  watches_a_key m = true ->
  updateSubscriptions toJS config m =
  Build_Outcome
    (inl (NotAFunction "this.subscribedQueryKeys.hasOwnProperty"))
    (set_pendingSubscriptionUpdate false m) [].
Proof.
  intros Hq Hf Hw. rewrite updateSubscriptions_scanned.
  unfold scans. now rewrite (watchedScan_shadowed m q Hq Hf Hw).
Qed.

End SpecialKeys.

(* ================================================================== *)
(** * Properties kept by computations *)
(* ================================================================== *)

Section InvariantFacts.

Context {S E : Type}.
Implicit Types (P : S -> Prop).

Lemma preserves_ret {A} P (a : A) : preserves P (@ret S E A a).
Proof. now intros s. Qed.

Lemma preserves_this P : preserves P (@this S E).
Proof. now intros s. Qed.

Lemma preserves_modify P (f : S -> S) :
  (forall s, P s -> P (f s)) -> preserves P (@modify S E f).
Proof. intros H s. apply H. Qed.

Lemma preserves_bind {A B} P (c : Eff S E A) (k : A -> Eff S E B) :
  preserves P c -> (forall a, preserves P (k a)) -> preserves P (bind c k).
Proof.
  intros Hc Hk s Hs. unfold bind. cbv zeta.
  destruct (result (c s)) as [e|a]; cbn [final]; [now apply Hc|].
  apply Hk. now apply Hc.
Qed.

Lemma preserves_forEach {A} P (l : list A) (body : A -> Eff S E unit) :
  (forall x, In x l -> preserves P (body x)) -> preserves P (forEach l body).
Proof.
  induction l as [|x l IH]; intros H; cbn [forEach]; [apply preserves_ret|].
  apply preserves_bind; [apply H; now left|].
  intros _. apply IH. intros; apply H; now right.
Qed.

Lemma preserves_mapM {A B} P (l : list A) (f : A -> Eff S E B) :
  (forall x, In x l -> preserves P (f x)) -> preserves P (mapM l f).
Proof.
  induction l as [|x l IH]; intros H; cbn [mapM]; [apply preserves_ret|].
  apply preserves_bind; [apply H; now left|]. intros y.
  apply preserves_bind; [apply IH; intros; apply H; now right|].
  intros ys. apply preserves_ret.
Qed.

Lemma mapM_cons_returned {A B} (x : A) (l : list A) (f : A -> Eff S E B)
    s y ys :
  result (f x s) = inr y ->
  result (mapM l f (final (f x s))) = inr ys ->
  result (mapM (x :: l) f s) = inr (y :: ys) /\
  final (mapM (x :: l) f s) = final (mapM l f (final (f x s))).
Proof.
  intros Hy Hys. cbn [mapM]. unfold bind. cbv zeta. rewrite Hy.
  cbn [result final]. rewrite Hys. now cbn.
Qed.

End InvariantFacts.

(* ================================================================== *)
(** * The store: managers and contexts together *)
(* ================================================================== *)

Section StoreFacts.

Import JS Manager.
Context {T Q : Type} (toJS : Q -> Value)
        (configOf : string -> Config.SubscriptionManagerConfig T Q).
Implicit Types (w : Rendering.World Q) (m : SubscriptionManager Q).
Implicit Types (i j id k key : string) (q query : Q).
Implicit Types (c : Watch.BaseSubscriptionContext).
Implicit Types (l : list Rendering.ResetCb).

#[local] Abbreviation managerAt := Rendering.managerAt.
#[local] Abbreviation resetsOf := Rendering.resetsOf.
#[local] Abbreviation onManager := Rendering.onManager.
#[local] Abbreviation ManagerReset := Rendering.ManagerReset.

(** ** Calls delivered to contexts *)

Lemma deliver_managers i (t : list (Event Q)) : forall w,
  Rendering.managers (fold_left (Rendering.deliver i) t w) =
  Rendering.managers w.
Proof.
  induction t as [|ev t IH]; intros w; cbn [fold_left]; [reflexivity|].
  rewrite IH. now destruct ev.
Qed.

Lemma deliver_globals i (t : list (Event Q)) : forall w,
  Rendering.globals (fold_left (Rendering.deliver i) t w) =
  Rendering.globals w.
Proof.
  induction t as [|ev t IH]; intros w; cbn [fold_left]; [reflexivity|].
  rewrite IH. now destruct ev.
Qed.

Lemma pushed_app i id (t t' : list (Event Q)) :
  Rendering.pushed i id (t ++ t') =
  Rendering.pushed i id t ++ Rendering.pushed i id t'.
Proof. unfold Rendering.pushed. apply flat_map_app. Qed.

Lemma deliver_resets i id (t : list (Event Q)) : forall w,
  resetsOf (fold_left (Rendering.deliver i) t w) id =
  resetsOf w id ++ Rendering.pushed i id t.
Proof.
  induction t as [|ev t IH]; intros w; cbn [fold_left].
  - cbn. now rewrite app_nil_r.
  - rewrite IH. change (ev :: t) with ([ev] ++ t).
    rewrite pushed_app, app_assoc. f_equal.
    destruct ev as [| | | | c|]; cbn; rewrite ?app_nil_r; try reflexivity.
    unfold Rendering.resetsOf at 1. cbn [Rendering.resets Rendering.set_resets].
    destruct (String.eqb_spec (Watch.id c) id) as [<-|Hne].
    + now rewrite lookup_assign_same.
    + rewrite lookup_assign_other by assumption. cbn. now rewrite app_nil_r.
Qed.

(** ** A method run in the store *)

Lemma onManager_result {A} i (method : Eff (SubscriptionManager Q) (Event Q) A) w :
  result (onManager i method w) = result (method (managerAt w i)).
Proof. reflexivity. Qed.

Lemma onManager_globals {A} i (method : Eff (SubscriptionManager Q) (Event Q) A) w :
  Rendering.globals (final (onManager i method w)) = Rendering.globals w.
Proof. unfold Rendering.onManager. cbn [final]. now rewrite deliver_globals. Qed.

Lemma onManager_same {A} i (method : Eff (SubscriptionManager Q) (Event Q) A) w :
  managerAt (final (onManager i method w)) i = final (method (managerAt w i)).
Proof.
  unfold Rendering.onManager. cbn [final].
  unfold Rendering.managerAt at 1. rewrite deliver_managers.
  cbn [Rendering.managers Rendering.set_managers].
  now rewrite lookup_assign_same.
Qed.

Lemma onManager_other {A} i j
    (method : Eff (SubscriptionManager Q) (Event Q) A) w :
  i <> j -> managerAt (final (onManager i method w)) j = managerAt w j.
Proof.
  intros Hne. unfold Rendering.onManager. cbn [final].
  unfold Rendering.managerAt at 1. rewrite deliver_managers.
  cbn [Rendering.managers Rendering.set_managers].
  now rewrite lookup_assign_other.
Qed.

Lemma onManager_resets {A} i id
    (method : Eff (SubscriptionManager Q) (Event Q) A) w :
  resetsOf (final (onManager i method w)) id =
  resetsOf w id ++ Rendering.pushed i id (trace (method (managerAt w i))).
Proof.
  unfold Rendering.onManager. cbn [final]. now rewrite deliver_resets.
Qed.

End StoreFacts.

(* ================================================================== *)
(** * The kinds of call a method makes *)
(* ================================================================== *)

Section EmitFacts.

Context {S E : Type}.
Implicit Types (P : E -> Prop).

Lemma emits_ret {A} P (a : A) : emits P (@ret S E A a).
Proof. intros s. constructor. Qed.

Lemma emits_this P : emits P (@this S E).
Proof. intros s. constructor. Qed.

Lemma emits_lift {A} P (r : Error + A) : emits P (@lift S E A r).
Proof. intros s. constructor. Qed.

Lemma emits_throw {A} P e : emits P (@throw S E A e).
Proof. intros s. constructor. Qed.

Lemma emits_call {A} P (ev : E) (r : Error + A) :
  P ev -> emits P (@call S E A ev r).
Proof. intros H s. now repeat constructor. Qed.

Lemma emits_bind {A B} P (c : Eff S E A) (k : A -> Eff S E B) :
  emits P c -> (forall a, emits P (k a)) -> emits P (bind c k).
Proof.
  intros Hc Hk s. unfold bind. cbv zeta.
  destruct (result (c s)) as [e|a]; cbn [trace]; [apply Hc|].
  apply Forall_app. split; [apply Hc | apply Hk].
Qed.

Lemma emits_forEach {A} P (l : list A) (body : A -> Eff S E unit) :
  (forall x, emits P (body x)) -> emits P (forEach l body).
Proof.
  intros H. induction l as [|x l IH]; cbn [forEach];
    [apply emits_ret | apply emits_bind; auto].
Qed.

Lemma emits_findM {A} P (l : list A) (test : A -> Eff S E bool) :
  (forall x, emits P (test x)) -> emits P (findM l test).
Proof.
  intros H. induction l as [|x l IH]; cbn [findM]; [apply emits_ret|].
  apply emits_bind; [apply H|]. intros [|]; [apply emits_ret | exact IH].
Qed.

End EmitFacts.

(* ================================================================== *)
(** * The managers of a store are managers as before *)
(* ================================================================== *)

Section StoreManagers.

Import JS Objects Manager.
Context {T Q : Type} (toJS : Q -> Value)
        (configOf : string -> Config.SubscriptionManagerConfig T Q).
Implicit Types (w : Rendering.World Q) (m : SubscriptionManager Q).
Implicit Types (i j id k key : string) (q query : Q).
Implicit Types (c : Watch.BaseSubscriptionContext).
Implicit Types (l : list Rendering.ResetCb).

#[local] Abbreviation managerAt := Rendering.managerAt.
#[local] Abbreviation resetsOf := Rendering.resetsOf.
#[local] Abbreviation onManager := Rendering.onManager.
#[local] Abbreviation ManagerReset := Rendering.ManagerReset.

(** The manager in state [m], with as many deferred reconciliations
    outstanding as its flag says, is a state the manager reaches. *)
#[local] Abbreviation reached i m :=
  (Manager.reachable toJS (configOf i)
     (@Build_System Q m (@pending_count Q m))).

Lemma reached_new i : reached i (@new Q).
Proof. apply reachable_start. Qed.

Lemma reached_get i g query context m :
  reached i m ->
  reached i (final (Manager.get toJS (configOf i) g query context m)).
Proof.
  intros H.
  eapply (reachable_step _ _ toJS (configOf i) _ (DoGet g query context));
    [exact H|].
  cbn [Manager.step]. unfold after. cbn [manager outstanding].
  rewrite (get_pending toJS (configOf i) g query context m).
  now rewrite Nat.sub_0_r.
Qed.

Lemma reached_reset i c m :
  reached i m -> reached i (final (Manager.reset (configOf i) c m)).
Proof.
  intros H.
  eapply (reachable_step _ _ toJS (configOf i) _ (DoReset c)); [exact H|].
  cbn [Manager.step]. unfold after. cbn [manager outstanding].
  rewrite (reset_pending (configOf i) c m). now rewrite Nat.sub_0_r.
Qed.

Lemma reached_updateQueries i param m :
  reached i m ->
  reached i (final (Manager.updateQueries toJS (configOf i) param m)).
Proof.
  intros H.
  eapply (reachable_step _ _ toJS (configOf i) _ (DoUpdateQueries param));
    [exact H|].
  cbn [Manager.step]. unfold after. cbn [manager outstanding].
  destruct (updateQueries_quiet toJS (configOf i) param m) as [Hf Ht].
  rewrite Ht, Hf. now rewrite Nat.sub_0_r, Nat.add_0_r.
Qed.

Lemma reached_updateSubscriptions i m :
  pendingSubscriptionUpdate m = true ->
  reached i m ->
  reached i (final (Manager.updateSubscriptions toJS (configOf i) m)).
Proof.
  intros Hp H.
  eapply (reachable_step _ _ toJS (configOf i) _ (Manager.RunDeferred)); [exact H|].
  cbn [Manager.step manager outstanding]. unfold pending_count at 1.
  rewrite Hp. cbn [Nat.eqb]. unfold after. cbn [manager outstanding].
  destruct (updateSubscriptions_pending toJS (configOf i) m) as [Hf Ht].
  unfold pending_count. now rewrite Hf, Ht, Hp.
Qed.

(** ** What a method of a manager does to the store *)

Lemma pushed_reset i id c m :
  Rendering.pushed i id (trace (Manager.reset (configOf i) c m)) = [].
Proof.
  rewrite reset_run. cbv zeta. now destruct (pendingSubscriptionUpdate m).
Qed.

Lemma pushed_batched i id (ev : list Q -> Event Q) (qs : list Q) :
  (forall (queries : list Q) c, ev queries <> RegisterResetCalled c) ->
  Rendering.pushed i id (batched ev qs) = [].
Proof.
  intros H. unfold batched.
  destruct (negb (Nat.eqb (length qs) 0)); [|reflexivity].
  cbn. destruct (ev qs) eqn:E; try reflexivity. now elim (H qs context).
Qed.

Lemma pushed_updateSubscriptions i id m :
  Rendering.pushed i id (trace (Manager.updateSubscriptions toJS (configOf i) m)) = [].
Proof.
  rewrite updateSubscriptions_scanned.
  destruct (scans toJS m) as [e|[toUnsubscribe toSubscribe]]; [reflexivity|].
  cbv zeta.
  destruct (answer (Config.unsubscribe (configOf i)) (values toUnsubscribe));
    cbn [trace]; [reflexivity|].
  now rewrite pushed_app, !pushed_batched by discriminate.
Qed.

Lemma pushed_none i id (t : list (Event Q)) :
  Forall (fun ev => forall c, ev <> RegisterResetCalled c) t ->
  Rendering.pushed i id t = [].
Proof.
  induction 1 as [|ev t Hev _ IH]; [reflexivity|].
  change (ev :: t) with ([ev] ++ t). rewrite pushed_app, IH, app_nil_r.
  destruct ev; try reflexivity. now elim (Hev context).
Qed.

Lemma updateQueries_emits i param :
  emits (fun ev => forall c, ev <> RegisterResetCalled c)
    (Manager.updateQueries toJS (configOf i) param).
Proof.
  unfold Manager.updateQueries.
  apply emits_bind; [apply emits_this|]. intros m.
  apply emits_forEach. intros [id queryKeys].
  apply emits_bind.
  - apply emits_findM. intros [key query].
    destruct param as [|ps|f]; cbn [testFn]; try apply emits_ret.
    apply emits_bind; [|intros; apply emits_ret].
    apply emits_findM. intros p.
    apply emits_bind; [apply emits_lift|]. intros kp.
    apply emits_bind; [apply emits_lift|]. intros kq. apply emits_ret.
  - intros found.
    destruct (match found with
              | Some (key, _) => ToBoolean (Str key)
              | None => false
              end); [|apply emits_ret].
    apply emits_bind; [apply emits_this|]. intros m'.
    destruct (lookup (watchedContexts m') id);
      [apply emits_call; discriminate | apply emits_throw].
Qed.

Lemma pushed_updateQueries i id param m :
  Rendering.pushed i id
    (trace (Manager.updateQueries toJS (configOf i) param m)) = [].
Proof. apply pushed_none, updateQueries_emits. Qed.

(** [get] in the store, by cases on what the manager's [get] does. *)
Lemma get_unfold i query context w :
  Rendering.get toJS configOf i query context w =
  onManager i
    (Manager.get toJS (configOf i) (Rendering.globals w) query context) w.
Proof. unfold Rendering.get. now rewrite bind_this. Qed.

Lemma get_effect i g query context m :
  let o := Manager.get toJS (configOf i) g query context m in
  (final o = m /\ (forall id, Rendering.pushed i id (trace o) = []) /\
   (available g context = None \/ exists e, result o = inl e)) \/
  (exists c key v,
     available g context = Some c /\
     toKey toJS (configOf i) query = inr key /\
     Config.get (configOf i) query = inr v /\
     result o = inr v /\
     (forall id,
        lookup (watchedQueryKeysByContextId (final o)) id =
        if Watch.id c =? id
        then Some (own (set toJS (queryKeysOf m (Watch.id c)) key query))
        else lookup (watchedQueryKeysByContextId m) id) /\
     subscribedQueryKeys (final o) = subscribedQueryKeys m /\
     forall id,
       Rendering.pushed i id (trace o) =
       if Nat.eqb (length (watchedKeys m (Watch.id c))) 0 && (Watch.id c =? id)
       then [ManagerReset i] else []).
Proof.
  cbv zeta. rewrite get_run.
  destruct (Config.get (configOf i) query) as [what|v] eqn:Eg.
  { left. cbn. repeat split; eauto. }
  destruct (available g context) as [c|] eqn:Ea.
  2:{ left. cbn. repeat split; eauto. }
  destruct (toKey toJS (configOf i) query) as [e|key] eqn:Ek.
  { left. cbn. repeat split; eauto. }
  right. exists c, key, v. cbv zeta. cbn [result final trace].
  repeat split.
  - intros id. rewrite <- (registered_lookup_set toJS c key query m id).
    now destruct (pendingSubscriptionUpdate m).
  - destruct (registered_subscribed toJS c key query m) as [Hs _].
    now destruct (pendingSubscriptionUpdate m).
  - intros id. change (GetCalled query :: ?t) with ([GetCalled query] ++ t).
    rewrite !pushed_app.
    destruct (Nat.eqb (length (watchedKeys m (Watch.id c))) 0);
      destruct (pendingSubscriptionUpdate m); cbn;
      destruct (Watch.id c =? id); reflexivity.
Qed.

End StoreManagers.

(* ================================================================== *)
(** * Reset lists and watched maps *)
(* ================================================================== *)

Section StoreInvariant.

Import JS Objects Manager.
Context {T Q : Type} (toJS : Q -> Value)
        (configOf : string -> Config.SubscriptionManagerConfig T Q).
Implicit Types (w : Rendering.World Q) (m : SubscriptionManager Q).
Implicit Types (i j id k key : string) (q query : Q).
Implicit Types (c : Watch.BaseSubscriptionContext).
Implicit Types (l : list Rendering.ResetCb).

#[local] Abbreviation managerAt := Rendering.managerAt.
#[local] Abbreviation resetsOf := Rendering.resetsOf.
#[local] Abbreviation onManager := Rendering.onManager.
#[local] Abbreviation ManagerReset := Rendering.ManagerReset.
#[local] Abbreviation reached i m :=
  (Manager.reachable toJS (configOf i)
     (@Build_System Q m (@pending_count Q m))).
#[local] Abbreviation all_reached w := (forall i, reached i (managerAt w i)).
#[local] Abbreviation good w := (Rendering.covered w /\ all_reached w).
#[local] Abbreviation neat w := (Rendering.linked w /\ Rendering.tidy w).

Lemma NoDup_snoc {A} (l : list A) (x : A) :
  NoDup l -> ~ In x l -> NoDup (l ++ [x]).
Proof.
  intros Hl Hx. apply (Permutation_NoDup (Permutation_cons_append l x)).
  now constructor.
Qed.

Lemma mentions_In j l :
  Rendering.mentions j l = true <-> In (ManagerReset j) l.
Proof.
  unfold Rendering.mentions. rewrite existsb_exists. split.
  - intros ([i] & Hin & E). apply String.eqb_eq in E. now subst.
  - intros H. exists (ManagerReset j). split; [assumption|].
    apply String.eqb_refl.
Qed.

Lemma watchedKeys_empty m id :
  nonempty_watched m ->
  Nat.eqb (length (watchedKeys m id)) 0 = true ->
  hasOwnProperty (watchedQueryKeysByContextId m) id = false.
Proof.
  intros Hsome H. apply hasOwnProperty_false.
  destruct (lookup (watchedQueryKeysByContextId m) id) as [qk|] eqn:E;
    [|reflexivity].
  specialize (Hsome _ _ E). unfold watchedKeys, watchedBy in H.
  rewrite E in H. destruct (Object_keys qk); [now elim Hsome | discriminate].
Qed.

Lemma watchedKeys_nonempty m id :
  Nat.eqb (length (watchedKeys m id)) 0 = false ->
  hasOwnProperty (watchedQueryKeysByContextId m) id = true.
Proof.
  intros H. unfold watchedKeys, watchedBy in H. unfold hasOwnProperty.
  destruct (lookup (watchedQueryKeysByContextId m) id); [reflexivity|].
  discriminate.
Qed.

Lemma linked_same w w' :
  (forall id, resetsOf w' id = resetsOf w id) ->
  (forall i, watchedQueryKeysByContextId (managerAt w' i) =
             watchedQueryKeysByContextId (managerAt w i)) ->
  Rendering.linked w -> Rendering.linked w'.
Proof.
  intros Hr Hm H id. rewrite Hr. split; [apply H|].
  intros i. rewrite Hm. apply H.
Qed.

Lemma covered_same w w' :
  (forall id, resetsOf w' id = resetsOf w id) ->
  (forall i, watchedQueryKeysByContextId (managerAt w' i) =
             watchedQueryKeysByContextId (managerAt w i)) ->
  Rendering.covered w -> Rendering.covered w'.
Proof. intros Hr Hm H i id. rewrite Hr, Hm. apply H. Qed.

(** ** A method of one manager, in the store *)

Lemma all_reached_onManager {A} i
    (method : Eff (SubscriptionManager Q) (Event Q) A) w :
  reached i (final (method (managerAt w i))) ->
  all_reached w -> all_reached (final (onManager i method w)).
Proof.
  intros Hr Ha j. destruct (String.eqb_spec i j) as [<-|Hne].
  - now rewrite onManager_same.
  - rewrite onManager_other by assumption. apply Ha.
Qed.

Lemma tidy_onManager {A} i
    (method : Eff (SubscriptionManager Q) (Event Q) A) w :
  (ordinary_state (managerAt w i) /\ nonempty_watched (managerAt w i) ->
   ordinary_state (final (method (managerAt w i))) /\
   nonempty_watched (final (method (managerAt w i)))) ->
  Rendering.tidy w -> Rendering.tidy (final (onManager i method w)).
Proof.
  intros Hm Ht j. destruct (String.eqb_spec i j) as [<-|Hne].
  - rewrite onManager_same. apply Hm, Ht.
  - rewrite onManager_other by assumption. apply Ht.
Qed.

Lemma onManager_watched_same {A} i
    (method : Eff (SubscriptionManager Q) (Event Q) A) w :
  watchedQueryKeysByContextId (final (method (managerAt w i))) =
    watchedQueryKeysByContextId (managerAt w i) ->
  forall j, watchedQueryKeysByContextId
              (managerAt (final (onManager i method w)) j) =
            watchedQueryKeysByContextId (managerAt w j).
Proof.
  intros Hw j. destruct (String.eqb_spec i j) as [<-|Hne].
  - now rewrite onManager_same.
  - now rewrite onManager_other.
Qed.

(** ** Methods that leave the watched maps alone *)

Lemma good_onManager {A} i
    (method : Eff (SubscriptionManager Q) (Event Q) A) w :
  (forall id, Rendering.pushed i id (trace (method (managerAt w i))) = []) ->
  watchedQueryKeysByContextId (final (method (managerAt w i))) =
    watchedQueryKeysByContextId (managerAt w i) ->
  reached i (final (method (managerAt w i))) ->
  good w -> good (final (onManager i method w)).
Proof.
  intros Hp Hw Hr [Hl Ha]. split.
  - apply (covered_same w); [| |assumption].
    + intros id. now rewrite onManager_resets, Hp, app_nil_r.
    + now apply onManager_watched_same.
  - now apply all_reached_onManager.
Qed.

Lemma linked_onManager {A} i
    (method : Eff (SubscriptionManager Q) (Event Q) A) w :
  (forall id, Rendering.pushed i id (trace (method (managerAt w i))) = []) ->
  watchedQueryKeysByContextId (final (method (managerAt w i))) =
    watchedQueryKeysByContextId (managerAt w i) ->
  Rendering.linked w -> Rendering.linked (final (onManager i method w)).
Proof.
  intros Hp Hw. apply linked_same.
  - intros id. now rewrite onManager_resets, Hp, app_nil_r.
  - now apply onManager_watched_same.
Qed.

Lemma good_updateQueries i param w :
  good w ->
  good (final (onManager i (Manager.updateQueries toJS (configOf i) param) w)).
Proof.
  intros H. apply good_onManager; [| | |assumption].
  - intros id. apply pushed_updateQueries.
  - now destruct (updateQueries_quiet toJS (configOf i) param (managerAt w i))
      as [-> _].
  - apply reached_updateQueries, H.
Qed.

Lemma neat_updateQueries i param w :
  neat w ->
  neat (final (onManager i (Manager.updateQueries toJS (configOf i) param) w)).
Proof.
  intros [Hl Ht].
  destruct (updateQueries_quiet toJS (configOf i) param (managerAt w i))
    as [Hf _].
  split.
  - apply linked_onManager; [| |assumption].
    + intros id. apply pushed_updateQueries.
    + now rewrite Hf.
  - apply tidy_onManager; [|assumption]. now rewrite Hf.
Qed.

Lemma good_updateSubscriptions i w :
  pendingSubscriptionUpdate (managerAt w i) = true ->
  good w ->
  good (final (onManager i (Manager.updateSubscriptions toJS (configOf i)) w)).
Proof.
  intros Hp H. apply good_onManager; [| | |assumption].
  - intros id. apply pushed_updateSubscriptions.
  - apply (updateSubscriptions_watched toJS (configOf i)).
  - apply reached_updateSubscriptions; [assumption | apply H].
Qed.

Lemma neat_updateSubscriptions i w :
  neat w ->
  neat (final (onManager i (Manager.updateSubscriptions toJS (configOf i)) w)).
Proof.
  intros [Hl Ht].
  destruct (updateSubscriptions_watched toJS (configOf i) (managerAt w i))
    as (Hw & _).
  split.
  - apply linked_onManager; [| |assumption].
    + intros id. apply pushed_updateSubscriptions.
    + exact Hw.
  - apply tidy_onManager; [|assumption]. intros [Ho Hn].
    split; [now apply updateSubscriptions_ordinary|].
    now apply (nonempty_watched_same (managerAt w i)).
Qed.

(** ** Reads *)

Lemma get_has i g query context m c key id :
  (forall id,
     lookup (watchedQueryKeysByContextId
               (final (Manager.get toJS (configOf i) g query context m))) id =
     if Watch.id c =? id
     then Some (own (set toJS (queryKeysOf m (Watch.id c)) key query))
     else lookup (watchedQueryKeysByContextId m) id) ->
  hasOwnProperty
    (watchedQueryKeysByContextId
       (final (Manager.get toJS (configOf i) g query context m))) id =
  (Watch.id c =? id) || hasOwnProperty (watchedQueryKeysByContextId m) id.
Proof.
  intros H. unfold hasOwnProperty. rewrite H.
  now destruct (Watch.id c =? id).
Qed.

Lemma good_get i query context :
  preserves (fun w => good w) (Rendering.get toJS configOf i query context).
Proof.
  intros w [Hl Ha]. rewrite get_unfold.
  set (g := Rendering.globals w). set (m := managerAt w i).
  assert (Hr : reached i (final (Manager.get toJS (configOf i) g query context m)))
    by apply reached_get, Ha.
  split; [|now apply all_reached_onManager].
  destruct (get_effect toJS configOf i g query context m)
    as [(Hf & Hp & _)|(c & key & v & _ & _ & _ & _ & Hw & _ & Hp)].
  - apply (covered_same w); [| |assumption].
    + intros id. rewrite onManager_resets. fold m. now rewrite Hp, app_nil_r.
    + apply onManager_watched_same. fold m. now rewrite Hf.
  - intros j id. rewrite onManager_resets. fold m. rewrite Hp, in_app_iff.
    destruct (String.eqb_spec i j) as [<-|Hij].
    + rewrite onManager_same. fold m.
      rewrite (get_has i g query context m c key id Hw).
      destruct (String.eqb_spec (Watch.id c) id) as [<-|Hne]; cbn [orb].
      * intros _.
        destruct (Nat.eqb (length (watchedKeys m (Watch.id c))) 0) eqn:Ek;
          cbn [andb]; [right; now left|].
        left. apply Hl. now apply watchedKeys_nonempty.
      * intros H. left. now apply Hl.
    + rewrite onManager_other by assumption. intros H. left. now apply Hl.
Qed.

Lemma neat_get i query context :
  ordinary_query toJS (configOf i) query ->
  preserves (fun w => neat w) (Rendering.get toJS configOf i query context).
Proof.
  intros Hq w [Hl Ht]. rewrite get_unfold.
  set (g := Rendering.globals w). set (m := managerAt w i).
  split.
  2:{ apply tidy_onManager; [|assumption].
      apply (get_ordinary toJS (configOf i) g query context); assumption. }
  destruct (Ht i) as [_ Hsome]. fold m in Hsome.
  destruct (get_effect toJS configOf i g query context m)
    as [(Hf & Hp & _)|(c & key & v & _ & _ & _ & _ & Hw & _ & Hp)].
  - apply (linked_same w); [| |assumption].
    + intros id. rewrite onManager_resets. fold m. now rewrite Hp, app_nil_r.
    + apply onManager_watched_same. fold m. now rewrite Hf.
  - intros id. rewrite onManager_resets. fold m. rewrite Hp.
    destruct (Hl id) as [Hnd Hin].
    destruct (Nat.eqb (length (watchedKeys m (Watch.id c))) 0) eqn:Ek;
      cbn [andb].
    + apply (watchedKeys_empty m _ Hsome) in Ek.
      destruct (String.eqb_spec (Watch.id c) id) as [Heq|Hne].
      * subst id. split.
        -- apply NoDup_snoc; [assumption|]. rewrite Hin. fold m. congruence.
        -- intros j. rewrite in_app_iff.
           destruct (String.eqb_spec i j) as [<-|Hij].
           ++ rewrite onManager_same. fold m.
              rewrite (get_has i g query context m c key _ Hw).
              rewrite String.eqb_refl.
              split; [reflexivity|]. intros _. right. now left.
           ++ rewrite onManager_other by assumption. rewrite <- Hin.
              split; [|now left]. intros [H|[H|[]]]; [assumption|].
              congruence.
      * rewrite app_nil_r. split; [assumption|]. intros j.
        destruct (String.eqb_spec i j) as [<-|Hij].
        -- rewrite onManager_same. fold m.
           rewrite (get_has i g query context m c key _ Hw).
           apply String.eqb_neq in Hne. rewrite Hne. apply Hin.
        -- rewrite onManager_other by assumption. apply Hin.
    + apply watchedKeys_nonempty in Ek.
      rewrite app_nil_r. split; [assumption|]. intros j.
      destruct (String.eqb_spec i j) as [<-|Hij].
      * rewrite onManager_same. fold m.
        rewrite (get_has i g query context m c key _ Hw).
        destruct (String.eqb_spec (Watch.id c) id) as [<-|Hne].
        -- cbn [orb]. split; [reflexivity|]. intros _. now apply Hin.
        -- apply Hin.
      * rewrite onManager_other by assumption. apply Hin.
Qed.

(** ** The reset of a context *)

Lemma runResets_reached c l :
  preserves (fun w => all_reached w)
    (forEach l (Rendering.runReset configOf c)).
Proof.
  apply preserves_forEach. intros [i] _ w Ha j. cbn [Rendering.runReset].
  destruct (String.eqb_spec i j) as [<-|Hne].
  - rewrite onManager_same. apply reached_reset, Ha.
  - rewrite onManager_other by assumption. apply Ha.
Qed.

Lemma runResets_tidy c l :
  preserves (fun w => Rendering.tidy w)
    (forEach l (Rendering.runReset configOf c)).
Proof.
  apply preserves_forEach. intros [i] _ w Ht. cbn [Rendering.runReset].
  apply tidy_onManager; [|assumption].
  apply (reset_ordinary (configOf i) c).
Qed.

Lemma runResets_run c l : forall w,
  let o := forEach l (Rendering.runReset configOf c) w in
  result o = inr tt /\
  Rendering.globals (final o) = Rendering.globals w /\
  (forall id, resetsOf (final o) id = resetsOf w id) /\
  forall j,
    subscribedQueryKeys (managerAt (final o) j) =
      subscribedQueryKeys (managerAt w j) /\
    watchedQueryKeysByContextId (managerAt (final o) j) =
      if Rendering.mentions j l
      then delete (watchedQueryKeysByContextId (managerAt w j)) (Watch.id c)
      else watchedQueryKeysByContextId (managerAt w j).
Proof.
  induction l as [|[i] l IH]; intros w; cbv zeta.
  - cbn. repeat split.
  - cbn [forEach].
    set (w1 := final (Rendering.runReset configOf c (ManagerReset i) w)).
    assert (Hr1 : result (Rendering.runReset configOf c (ManagerReset i) w)
                  = inr tt).
    { cbn [Rendering.runReset]. rewrite onManager_result, reset_run. cbv zeta.
      now destruct (pendingSubscriptionUpdate (managerAt w i)). }
    destruct (IH w1) as (Hres & Hg & Hrs & Hm).
    unfold bind. cbv zeta. rewrite Hr1. cbn [result final].
    fold w1. split; [exact Hres|]. split.
    { rewrite Hg. subst w1. cbn [Rendering.runReset].
      apply onManager_globals. }
    split.
    { intros id. rewrite Hrs. subst w1. cbn [Rendering.runReset].
      now rewrite onManager_resets, pushed_reset, app_nil_r. }
    intros j. destruct (Hm j) as [Hs Hw]. rewrite Hs, Hw.
    subst w1. cbn [Rendering.runReset Rendering.mentions existsb].
    fold (Rendering.mentions j l).
    destruct (String.eqb_spec i j) as [<-|Hne]; cbn [orb].
    + rewrite onManager_same, reset_run. cbv zeta.
      assert (E : forall b : bool,
                (if b then true else false) = b) by now intros [].
      destruct (pendingSubscriptionUpdate (managerAt w i)); cbn [final];
        unfold unwatched;
        cbn [subscribedQueryKeys watchedQueryKeysByContextId
             set_watchedContexts set_watchedQueryKeysByContextId
             set_watchedPrototypes set_pendingSubscriptionUpdate];
        (split; [reflexivity|]);
        destruct (Rendering.mentions i l); auto using delete_delete.
    + now rewrite onManager_other.
Qed.

Lemma reset_run_store c w :
  let o := Rendering.reset configOf c w in
  result o = inr tt /\
  Rendering.globals (final o) = Rendering.globals w /\
  (forall id,
     resetsOf (final o) id =
     if Watch.id c =? id then [] else resetsOf w id) /\
  forall j,
    subscribedQueryKeys (managerAt (final o) j) =
      subscribedQueryKeys (managerAt w j) /\
    watchedQueryKeysByContextId (managerAt (final o) j) =
      if Rendering.mentions j (resetsOf w (Watch.id c))
      then delete (watchedQueryKeysByContextId (managerAt w j)) (Watch.id c)
      else watchedQueryKeysByContextId (managerAt w j).
Proof.
  cbv zeta. unfold Rendering.reset. rewrite bind_this.
  destruct (runResets_run c (resetsOf w (Watch.id c)) w)
    as (Hres & Hg & Hrs & Hm).
  unfold bind. cbv zeta. rewrite Hres. cbn [result final modify].
  split; [reflexivity|]. split; [exact Hg|]. split; [|exact Hm].
  intros id. unfold Rendering.resetsOf at 1.
  cbn [Rendering.resets Rendering.set_resets].
  destruct (String.eqb_spec (Watch.id c) id) as [<-|Hne].
  - now rewrite lookup_assign_same.
  - rewrite lookup_assign_other by assumption. apply Hrs.
Qed.

(** Once the reset of a context is through, no manager has an entry for
    the context. *)
Lemma reset_unwatched c w j :
  Rendering.covered w ->
  lookup (watchedQueryKeysByContextId
            (managerAt (final (Rendering.reset configOf c w)) j))
    (Watch.id c) = None.
Proof.
  intros Hc. destruct (reset_run_store c w) as (_ & _ & _ & Hm).
  destruct (Hm j) as [_ ->].
  destruct (Rendering.mentions j (resetsOf w (Watch.id c))) eqn:E.
  - apply lookup_delete_same.
  - apply hasOwnProperty_false, not_true_iff_false. intros H.
    apply Hc, mentions_In in H. congruence.
Qed.

Lemma reset_watched_other c w j id :
  Watch.id c <> id ->
  lookup (watchedQueryKeysByContextId
            (managerAt (final (Rendering.reset configOf c w)) j)) id =
  lookup (watchedQueryKeysByContextId (managerAt w j)) id.
Proof.
  intros Hne. destruct (reset_run_store c w) as (_ & _ & _ & Hm).
  destruct (Hm j) as [_ ->].
  destruct (Rendering.mentions j (resetsOf w (Watch.id c))); [|reflexivity].
  now apply lookup_delete_other.
Qed.

Lemma all_reached_reset c :
  preserves (fun w => all_reached w) (Rendering.reset configOf c).
Proof.
  unfold Rendering.reset.
  apply (preserves_bind (fun w => all_reached w)); [apply preserves_this|].
  intros w0.
  apply (preserves_bind (fun w => all_reached w)); [apply runResets_reached|].
  intros _. now apply preserves_modify.
Qed.

Lemma tidy_reset c :
  preserves (fun w => Rendering.tidy w) (Rendering.reset configOf c).
Proof.
  unfold Rendering.reset.
  apply (preserves_bind (fun w => Rendering.tidy w));
    [apply preserves_this|].
  intros w0.
  apply (preserves_bind (fun w => Rendering.tidy w));
    [apply runResets_tidy|].
  intros _. now apply preserves_modify.
Qed.

Lemma good_reset c : preserves (fun w => good w) (Rendering.reset configOf c).
Proof.
  intros w [Hl Ha]. split; [|now apply all_reached_reset].
  destruct (reset_run_store c w) as (_ & _ & Hrs & _).
  intros j id. rewrite Hrs. unfold hasOwnProperty.
  destruct (String.eqb_spec (Watch.id c) id) as [<-|Hne].
  - now rewrite reset_unwatched.
  - rewrite reset_watched_other by assumption. apply Hl.
Qed.

Lemma linked_covered w : Rendering.linked w -> Rendering.covered w.
Proof. intros H i id Hin. now apply (H id). Qed.

Lemma neat_reset c : preserves (fun w => neat w) (Rendering.reset configOf c).
Proof.
  intros w [Hl Ht]. split; [|now apply tidy_reset].
  destruct (reset_run_store c w) as (_ & _ & Hrs & _).
  intros id. rewrite Hrs. destruct (Hl id) as [Hnd Hin].
  destruct (String.eqb_spec (Watch.id c) id) as [<-|Hne].
  - split; [constructor|]. intros j. unfold hasOwnProperty.
    rewrite reset_unwatched by now apply linked_covered.
    split; [intros [] | discriminate].
  - split; [assumption|]. intros j. unfold hasOwnProperty.
    rewrite reset_watched_other by assumption. apply Hin.
Qed.

End StoreInvariant.

(* ================================================================== *)
(** * Rendering *)
(* ================================================================== *)

Section RenderFacts.

Import JS Objects Manager.
Context {T Q : Type} (toJS : Q -> Value)
        (configOf : string -> Config.SubscriptionManagerConfig T Q).
Implicit Types (w : Rendering.World Q) (m : SubscriptionManager Q).
Implicit Types (i j id k key : string) (q query : Q).
Implicit Types (c : Watch.BaseSubscriptionContext).

#[local] Abbreviation managerAt := Rendering.managerAt.
#[local] Abbreviation resetsOf := Rendering.resetsOf.
#[local] Abbreviation onManager := Rendering.onManager.
#[local] Abbreviation ManagerReset := Rendering.ManagerReset.
#[local] Abbreviation watching := Rendering.watching.
#[local] Abbreviation reached i m :=
  (Manager.reachable toJS (configOf i)
     (@Build_System Q m (@pending_count Q m))).
#[local] Abbreviation all_reached w := (forall i, reached i (managerAt w i)).
#[local] Abbreviation good w := (Rendering.covered w /\ all_reached w).
#[local] Abbreviation neat w := (Rendering.linked w /\ Rendering.tidy w).
#[local] Abbreviation W := (Eff (Rendering.World Q) (string * Event Q)).

(** The store while [c] renders and once it has rendered. *)
#[local] Abbreviation current c w :=
  (Rendering.set_globals
     {| currentContext := c;
        noGetOutsideContext := noGetOutsideContext (Rendering.globals w) |} w).

Lemma preserves_finally {A} (P : Rendering.World Q -> Prop)
    (body : W A) (handler : W unit) :
  preserves P body -> preserves P handler ->
  preserves P (Rendering.finally body handler).
Proof. intros Hb Hh w Hw. unfold Rendering.finally. cbn [final]. auto. Qed.

Lemma good_current (x : option Watch.BaseSubscriptionContext) w :
  good w -> good (current x w).
Proof. intros H. exact H. Qed.

Lemma render_run {A} c (renderContent : W A) w :
  let o1 := Rendering.reset configOf c (current (Some c) w) in
  let o2 := renderContent (final o1) in
  Rendering.render configOf c renderContent w =
  Build_Outcome (result o2) (current None (final o2)) (trace o1 ++ trace o2).
Proof.
  cbv zeta. unfold Rendering.render, Rendering.setCurrentContext.
  rewrite bind_modify. unfold Rendering.finally. cbv zeta.
  destruct (reset_run_store configOf c (current (Some c) w)) as (Hres & _).
  unfold bind at 1 2 3. cbv zeta. rewrite Hres. cbn [result final trace modify].
  rewrite app_nil_r. f_equal. unfold bind. cbv zeta. now rewrite Hres.
Qed.

Lemma good_reads (content : list (Rendering.Read Q)) :
  preserves (fun w => good w) (Rendering.reads toJS configOf content).
Proof.
  apply preserves_mapM. intros [[i query] context] _. apply good_get.
Qed.

Lemma good_render c (content : list (Rendering.Read Q)) :
  preserves (fun w => good w)
    (Rendering.render configOf c (Rendering.reads toJS configOf content)).
Proof.
  intros w H. rewrite render_run. cbv zeta. cbn [final].
  apply good_current, good_reads. now apply good_reset, good_current.
Qed.

Lemma neat_reads (content : list (Rendering.Read Q)) :
  Rendering.ordinary_reads toJS configOf content ->
  preserves (fun w => neat w) (Rendering.reads toJS configOf content).
Proof.
  intros Ho. apply preserves_mapM. intros [[i query] context] Hin.
  apply neat_get. now apply (Ho i query context).
Qed.

Lemma neat_render c (content : list (Rendering.Read Q)) :
  Rendering.ordinary_reads toJS configOf content ->
  preserves (fun w => neat w)
    (Rendering.render configOf c (Rendering.reads toJS configOf content)).
Proof.
  intros Ho w H. rewrite render_run. cbv zeta. cbn [final].
  change (neat (final (Rendering.reads toJS configOf content
                         (final (Rendering.reset configOf c
                                   (current (Some c) w)))))).
  apply neat_reads; [assumption|].
  now apply (neat_reset configOf).
Qed.

Lemma good_start : good (@Rendering.start Q).
Proof.
  split.
  - intros i id. cbn. discriminate.
  - intros i. apply reached_new.
Qed.

Lemma neat_start : neat (@Rendering.start Q).
Proof.
  split.
  - intros id. split; [constructor|]. intros i. cbn. split; [intros []|].
    discriminate.
  - intros i. cbn. split; [|intros id queryKeys; discriminate].
    split; [reflexivity|]. split; [now split|].
    intros id queryKeys. discriminate.
Qed.

Lemma good_reachable w : Rendering.reachable toJS configOf w -> good w.
Proof.
  induction 1 as [|w st w' Hw IH Hstep]; [apply good_start|].
  destruct st as [b|c content|c|i query context|i param|i]; cbn in Hstep.
  - injection Hstep as <-. exact IH.
  - injection Hstep as <-. now apply good_render.
  - injection Hstep as <-. now apply good_reset.
  - injection Hstep as <-. now apply good_get.
  - injection Hstep as <-. now apply good_updateQueries.
  - destruct (pendingSubscriptionUpdate (managerAt w i)) eqn:Ep;
      [|discriminate].
    injection Hstep as <-. now apply good_updateSubscriptions.
Qed.

Lemma neat_reachable w :
  Rendering.reachable_ordinarily toJS configOf w -> neat w.
Proof.
  induction 1 as [|w st w' Hw IH Hst Hstep]; [apply neat_start|].
  destruct st as [b|c content|c|i query context|i param|i]; cbn in Hstep, Hst.
  - injection Hstep as <-. exact IH.
  - injection Hstep as <-. now apply neat_render.
  - injection Hstep as <-. now apply (neat_reset configOf).
  - injection Hstep as <-. now apply neat_get.
  - injection Hstep as <-. now apply neat_updateQueries.
  - destruct (pendingSubscriptionUpdate (managerAt w i)) eqn:Ep;
      [|discriminate].
    injection Hstep as <-. now apply neat_updateSubscriptions.
Qed.

Lemma reachable_ordinarily_reachable_store w :
  Rendering.reachable_ordinarily toJS configOf w ->
  Rendering.reachable toJS configOf w.
Proof.
  induction 1 as [|w st w' Hw IH Hst Hstep]; [constructor|].
  econstructor; eassumption.
Qed.

(** X11.  Every manager of a store is in a state that a manager on its
    own reaches, so what holds of a manager in the states it reaches
    holds of each manager while contexts render, re-render and unmount
    around it. *)
Theorem store_managers_reachable w i :
  Rendering.reachable toJS configOf w ->
  Manager.reachable toJS (configOf i)
    {| manager := managerAt w i;
       outstanding := pending_count (managerAt w i) |}.
Proof. intros H. now apply good_reachable. Qed.

Lemma watching_some w i id :
  nonempty_watched (managerAt w i) ->
  hasOwnProperty (watchedQueryKeysByContextId (managerAt w i)) id = true <->
  exists k, hasOwnProperty (watching w i id) k = true.
Proof.
  intros Hsome. unfold Rendering.watching, watchedBy.
  unfold hasOwnProperty at 1.
  destruct (lookup (watchedQueryKeysByContextId (managerAt w i)) id)
    as [qk|] eqn:E.
  - split; [intros _|reflexivity]. specialize (Hsome _ _ E).
    destruct (Object_keys qk) as [|k ks] eqn:Ek; [now elim Hsome|].
    exists k. apply Object_keys_In. rewrite Ek. now left.
  - split; [discriminate|]. now intros [k Hk].
Qed.

(** X12.  A context's reset list and the managers' watched maps are
    linked in every state the store reaches by reads of queries whose
    key is neither ["__proto__"] nor ["hasOwnProperty"]: the list holds
    no callback twice, and it holds the reset of a manager exactly when
    that manager watches a query for the context. *)
Theorem resets_linked w id :
  Rendering.reachable_ordinarily toJS configOf w ->
  NoDup (resetsOf w id) /\
  forall i,
    In (ManagerReset i) (resetsOf w id) <->
    exists k, hasOwnProperty (watching w i id) k = true.
Proof.
  intros H. destruct (neat_reachable w H) as [Hl Ht].
  destruct (Hl id) as [Hnd Hin]. split; [assumption|].
  intros i. rewrite Hin. apply watching_some. apply Ht.
Qed.

(** ** What a render pass tracks *)

Lemma get_view i query context w c v key :
  available (Rendering.globals w) context = Some c ->
  Config.get (configOf i) query = inr v ->
  toKey toJS (configOf i) query = inr key ->
  key <> "__proto__" ->
  let o := Rendering.get toJS configOf i query context w in
  result o = inr v /\
  Rendering.globals (final o) = Rendering.globals w /\
  (forall j, subscribedQueryKeys (managerAt (final o) j) =
             subscribedQueryKeys (managerAt w j)) /\
  forall j id k,
    hasOwnProperty (watching (final o) j id) k =
    hasOwnProperty (watching w j id) k ||
    ((i =? j) && (Watch.id c =? id) && (key =? k)).
Proof.
  intros Ha Hg Hk Hproto. cbv zeta. rewrite get_unfold.
  rewrite onManager_result, onManager_globals.
  destruct (get_effect toJS configOf i (Rendering.globals w) query context
              (managerAt w i))
    as [(_ & _ & [Hn|[e He]])|(c' & key' & v' & Ha' & Hk' & Hg' & Hres & Hw & Hs & _)].
  { congruence. }
  { rewrite get_run, Hg, Ha, Hk in He. discriminate. }
  rewrite Ha in Ha'. injection Ha' as <-.
  rewrite Hk in Hk'. injection Hk' as <-.
  rewrite Hg in Hg'. injection Hg' as <-. rewrite Hres.
  repeat split.
  - intros j. destruct (String.eqb_spec i j) as [<-|Hne].
    + now rewrite onManager_same.
    + now rewrite onManager_other.
  - intros j id k. unfold Rendering.watching.
    destruct (String.eqb_spec i j) as [<-|Hne]; cbn [andb].
    + rewrite onManager_same. unfold watchedBy at 1. rewrite Hw.
      destruct (String.eqb_spec (Watch.id c) id) as [<-|Hid]; cbn [andb].
      * rewrite set_stored by assumption. cbn [own].
        rewrite queryKeysOf_own, hasOwnProperty_assign. apply orb_comm.
      * now rewrite orb_false_r.
    + rewrite onManager_other by assumption. now rewrite orb_false_r.
Qed.

Lemma reads_view c (content : list (Rendering.Read Q)) : forall w,
  currentContext (Rendering.globals w) = Some c ->
  Rendering.readable toJS configOf content ->
  Rendering.storable toJS configOf content ->
  let o := Rendering.reads toJS configOf content w in
  (exists vs,
     result o = inr vs /\
     Forall2 (fun (r : Rendering.Read Q) v =>
                Config.get (configOf (fst (fst r))) (snd (fst r)) = inr v)
       content vs) /\
  Rendering.globals (final o) = Rendering.globals w /\
  (forall j, subscribedQueryKeys (managerAt (final o) j) =
             subscribedQueryKeys (managerAt w j)) /\
  forall j id k,
    hasOwnProperty (watching (final o) j id) k = true <->
    hasOwnProperty (watching w j id) k = true \/
    exists query context,
      In (j, query, context) content /\
      Watch.id (Rendering.target c (j, query, context)) = id /\
      toKey toJS (configOf j) query = inr k.
Proof.
  induction content as [|[[i query] context] content IH];
    intros w Hc Hr Hst; cbv zeta.
  - cbn. split; [exists []; split; [reflexivity|constructor]|].
    repeat split; auto. intros [H|(? & ? & [] & _)]. assumption.
  - destruct (Hr i query context (or_introl eq_refl)) as [[v Hv] [key Hk]].
    assert (Hproto : key <> "__proto__").
    { intros ->. exact (Hst i query context (or_introl eq_refl) Hk). }
    assert (Ha : available (Rendering.globals w) context =
                 Some (Rendering.target c (i, query, context))).
    { unfold available, Rendering.target, getCurrentContext. cbn [snd].
      now destruct context. }
    destruct (get_view i query context w _ v key Ha Hv Hk Hproto)
      as (Hres & Hg & Hs & Hview).
    set (w1 := final (Rendering.get toJS configOf i query context w)) in *.
    assert (Hc1 : currentContext (Rendering.globals w1) = Some c)
      by now rewrite Hg.
    assert (Hr1 : Rendering.readable toJS configOf content)
      by (intros i' q' x' Hin; apply (Hr i' q' x'); now right).
    assert (Hst1 : Rendering.storable toJS configOf content)
      by (intros i' q' x' Hin; apply (Hst i' q' x'); now right).
    destruct (IH w1 Hc1 Hr1 Hst1)
      as ((vs & Hvs & Hall) & Hg' & Hs' & Hview').
    assert (H2 :
      result (Rendering.reads toJS configOf
                (@cons (Rendering.Read Q) (i, query, context) content) w)
        = inr (v :: vs) /\
      final (Rendering.reads toJS configOf
               (@cons (Rendering.Read Q) (i, query, context) content) w)
        = final (Rendering.reads toJS configOf content w1))
      by exact (mapM_cons_returned (i, query, context) content _ w v vs
                  Hres Hvs).
    destruct H2 as [Hres2 ->].
    split; [exists (v :: vs); split; [assumption|now constructor]|].
    split; [congruence|]. split; [intros j; now rewrite Hs', Hs|].
    intros j id k. rewrite Hview', Hview. rewrite orb_true_iff.
    rewrite !andb_true_iff, !String.eqb_eq. split.
    + intros [[H|((<- & Hid) & <-)]|(q' & x' & Hin & Hid & Hq)].
      * now left.
      * right. exists query, context. repeat split; auto. now left.
      * right. exists q', x'. repeat split; auto. now right.
    + intros [H|(q' & x' & [[= <- <- <-]|Hin] & Hid & Hq)].
      * left. now left.
      * left. right. rewrite Hq in Hk. injection Hk as <-. auto.
      * right. exists q', x'. auto.
Qed.

Lemma reset_view c w :
  Rendering.covered w ->
  forall j id,
    watching (final (Rendering.reset configOf c w)) j id =
    if Watch.id c =? id then [] else watching w j id.
Proof.
  intros Hl j id. unfold Rendering.watching, watchedBy.
  destruct (String.eqb_spec (Watch.id c) id) as [<-|Hne].
  - now rewrite reset_unwatched.
  - now rewrite reset_watched_other.
Qed.

Lemma render_view c (content : list (Rendering.Read Q)) w :
  Rendering.covered w ->
  Rendering.readable toJS configOf content ->
  Rendering.storable toJS configOf content ->
  let o := Rendering.render configOf c
             (Rendering.reads toJS configOf content) w in
  (exists vs,
     result o = inr vs /\
     Forall2 (fun (r : Rendering.Read Q) v =>
                Config.get (configOf (fst (fst r))) (snd (fst r)) = inr v)
       content vs) /\
  Rendering.globals (final o) = Rendering.globals (current None w) /\
  (forall j, subscribedQueryKeys (managerAt (final o) j) =
             subscribedQueryKeys (managerAt w j)) /\
  forall j id k,
    hasOwnProperty (watching (final o) j id) k = true <->
    (id <> Watch.id c /\ hasOwnProperty (watching w j id) k = true) \/
    exists query context,
      In (j, query, context) content /\
      Watch.id (Rendering.target c (j, query, context)) = id /\
      toKey toJS (configOf j) query = inr k.
Proof.
  intros Hl Hr Hst. cbv zeta. rewrite render_run. cbv zeta.
  cbn [result final].
  destruct (reset_run_store configOf c (current (Some c) w))
    as (_ & Hg & _ & Hm).
  set (w1 := final (Rendering.reset configOf c (current (Some c) w))) in *.
  assert (Hc1 : currentContext (Rendering.globals w1) = Some c)
    by now rewrite Hg.
  destruct (reads_view c content w1 Hc1 Hr Hst)
    as (Hres & Hg' & Hs' & Hview).
  split; [exact Hres|]. split.
  { cbn [Rendering.globals Rendering.set_globals]. now rewrite Hg', Hg. }
  split.
  { intros j. change (managerAt (current None ?x) j) with (managerAt x j).
    rewrite Hs'. now destruct (Hm j) as [-> _]. }
  intros j id k.
  change (watching (current None ?x) j id) with (watching x j id).
  rewrite Hview. subst w1.
  rewrite (reset_view c (current (Some c) w) Hl j id).
  change (watching (current (Some c) w) j id) with (watching w j id).
  destruct (String.eqb_spec (Watch.id c) id) as [<-|Hne].
  - split; (intros [H|H]; [|now right]).
    + discriminate.
    + now destruct H.
  - split; (intros [H|H]; [left|now right]).
    + split; [congruence | assumption].
    + apply H.
Qed.


(** X14.  Unmounting a context lets go of everything it watched: in any
    state of the store [componentWillUnmount] returns, empties the
    context's reset list, leaves no manager with an entry for the
    context, and changes neither what the managers watch for other
    contexts nor what they are subscribed to. *)
Theorem unmount_unwatches c w :
  Rendering.reachable toJS configOf w ->
  let o := Rendering.componentWillUnmount configOf c w in
  result o = inr tt /\
  resetsOf (final o) (Watch.id c) = [] /\
  (forall j,
     lookup (watchedQueryKeysByContextId (managerAt (final o) j)) (Watch.id c)
       = None /\
     lookup (watchedContexts (managerAt (final o) j)) (Watch.id c) = None /\
     subscribedQueryKeys (managerAt (final o) j) =
       subscribedQueryKeys (managerAt w j)) /\
  (forall j id,
     id <> Watch.id c ->
     watching (final o) j id = watching w j id /\
     resetsOf (final o) id = resetsOf w id).
Proof.
  intros Hw. cbv zeta. unfold Rendering.componentWillUnmount.
  pose proof (good_reachable w Hw) as Hgood.
  pose proof (good_reset toJS configOf c w Hgood) as [_ Ha'].
  destruct Hgood as [Hl Ha].
  destruct (reset_run_store configOf c w) as (Hres & _ & Hrs & Hm).
  split; [exact Hres|]. split.
  { now rewrite Hrs, String.eqb_refl. }
  split.
  - intros j. destruct (Hm j) as [Hs _].
    pose proof (in_step_reachable toJS (configOf j) _ (Ha' j)) as Hstep.
    cbn [manager] in Hstep.
    pose proof (reset_unwatched configOf c w j Hl) as H.
    split; [exact H|]. split; [|exact Hs].
    destruct Hstep as (_ & Hlock & _).
    apply hasOwnProperty_false. rewrite <- Hlock.
    unfold hasOwnProperty. now rewrite H.
  - intros j id Hne. split.
    + rewrite (reset_view c w Hl).
      destruct (String.eqb_spec (Watch.id c) id); [congruence | reflexivity].
    + rewrite Hrs.
      destruct (String.eqb_spec (Watch.id c) id); [congruence | reflexivity].
Qed.

(** X15.  [render] makes the context the current one for its render
    function and always clears the current context afterwards, also
    when the render function throws; it returns or throws what the
    render function does, run after the context's reset. *)
Theorem render_clears_current_context {A} c (renderContent : W A) w :
  let o := Rendering.render configOf c renderContent w in
  let before :=
    final (Rendering.reset configOf c
             (final (Rendering.setCurrentContext (Some c) w))) in
  currentContext (Rendering.globals before) = Some c /\
  result o = result (renderContent before) /\
  currentContext (Rendering.globals (final o)) = None.
Proof.
  cbv zeta. rewrite render_run. cbv zeta. cbn [result final].
  destruct (reset_run_store configOf c (current (Some c) w)) as (_ & Hg & _).
  unfold Rendering.setCurrentContext. cbn [modify final].
  rewrite Hg. repeat split.
Qed.

End RenderFacts.

(* ================================================================== *)
(** * Rendering and reconciliation together *)
(* ================================================================== *)

Section Rerender.

Import JS Objects Manager.
Context {T Q : Type} (toJS : Q -> Value)
        (configOf : string -> Config.SubscriptionManagerConfig T Q).
Implicit Types (w : Rendering.World Q) (m : SubscriptionManager Q).
Implicit Types (i j id k key : string) (q query : Q).
Implicit Types (c : Watch.BaseSubscriptionContext).

#[local] Abbreviation managerAt := Rendering.managerAt.
#[local] Abbreviation resetsOf := Rendering.resetsOf.
#[local] Abbreviation onManager := Rendering.onManager.
#[local] Abbreviation watching := Rendering.watching.

(** The deferred [updateSubscriptions] of manager [i], run in the store. *)
#[local] Abbreviation reconcile i :=
  (Rendering.onManager i (Manager.updateSubscriptions toJS (configOf i))).

Lemma keysBeingWatched_watchedBy m k :
  hasOwnProperty (keysBeingWatched m) k = true <->
  exists id, hasOwnProperty (watchedBy m id) k = true.
Proof.
  rewrite keysBeingWatched_union. unfold watchedBy. split.
  - intros (id & qk & Hid & Hk). exists id. now rewrite Hid.
  - intros (id & Hk).
    destruct (lookup (watchedQueryKeysByContextId m) id) as [qk|] eqn:E;
      [|discriminate].
    now exists id, qk.
Qed.

Lemma reconcile_watching i w j id :
  watching (final (reconcile i w)) j id = watching w j id.
Proof.
  unfold Rendering.watching, watchedBy.
  destruct (String.eqb_spec i j) as [<-|Hne].
  - rewrite onManager_same.
    now destruct (updateSubscriptions_watched toJS (configOf i)
                    (managerAt w i)) as [-> _].
  - now rewrite onManager_other.
Qed.

Lemma reconcile_subscribed i w k :
  ordinary_state (managerAt w i) ->
  (forall queries, Config.unsubscribe (configOf i) queries = inr tt) ->
  hasOwnProperty (subscribedQueryKeys (managerAt (final (reconcile i w)) i)) k =
  hasOwnProperty (keysBeingWatched (managerAt w i)) k.
Proof.
  intros Ho Hu. rewrite onManager_same, updateSubscriptions_run by assumption.
  cbv zeta.
  rewrite (answer_returns _ _ Hu). cbn [final]. apply afterSubscribe_keys.
Qed.

(** A manager that is subscribed to the keys watched has nothing to
    reconcile. *)
Lemma updateSubscriptions_settled (config : Config.SubscriptionManagerConfig T Q) m :
  ordinary_state m ->
  (forall k, hasOwnProperty (subscribedQueryKeys m) k =
             hasOwnProperty (keysBeingWatched m) k) ->
  updateSubscriptions toJS config m =
  Build_Outcome (inr tt) (set_pendingSubscriptionUpdate false m) [].
Proof.
  intros Ho H.
  assert (Hu : toUnsubscribe m = []).
  { apply lookup_all_None. intros k. rewrite toUnsubscribe_lookup.
    destruct (hasOwnProperty (keysBeingWatched m) k) eqn:E; [reflexivity|].
    apply hasOwnProperty_false. congruence. }
  assert (Hs : toSubscribe m = []).
  { apply lookup_all_None. intros k. rewrite toSubscribe_lookup.
    destruct (hasOwnProperty (subscribedQueryKeys m) k) eqn:E; [reflexivity|].
    apply hasOwnProperty_false. congruence. }
  rewrite updateSubscriptions_run by assumption.
  unfold afterSubscribe, afterUnsubscribe, afterUnsubscribing.
  rewrite Hu, Hs. cbn. now destruct m.
Qed.

Lemma ordinary_reads_storable (content : list (Rendering.Read Q)) :
  Rendering.ordinary_reads toJS configOf content ->
  Rendering.storable toJS configOf content.
Proof.
  intros Ho i query context Hin Hk.
  destruct (Ho i query context Hin _ Hk) as [H _]. now apply H.
Qed.

(** X16.  Subscriptions follow rendering: once a context has rendered
    and the deferred reconciliation of a manager has run, the manager is
    subscribed to exactly the keys read from it for the rendered context
    in that pass and the keys it watches for other contexts.  (No query
    read so far or in this pass has the key ["__proto__"] or
    ["hasOwnProperty"], the reads of this pass have getters that return
    and queries with keys, and the manager's [unsubscribe] does not
    throw.) *)
Theorem subscriptions_follow_rendering c
    (content : list (Rendering.Read Q)) i w :
  Rendering.reachable_ordinarily toJS configOf w ->
  Rendering.readable toJS configOf content ->
  Rendering.ordinary_reads toJS configOf content ->
  (forall queries, Config.unsubscribe (configOf i) queries = inr tt) ->
  let rendered :=
    final (Rendering.render configOf c
             (Rendering.reads toJS configOf content) w) in
  let reconciled := final (reconcile i rendered) in
  forall k,
    hasOwnProperty (subscribedQueryKeys (managerAt reconciled i)) k = true <->
    (exists id,
       id <> Watch.id c /\ hasOwnProperty (watching w i id) k = true) \/
    (exists query context,
       In (i, query, context) content /\
       toKey toJS (configOf i) query = inr k).
Proof.
  intros Hw Hr Ho Hu rendered reconciled k. subst reconciled.
  pose proof (neat_reachable toJS configOf w Hw) as Hneat.
  pose proof (neat_render toJS configOf c content Ho w Hneat) as [_ Ht].
  fold rendered in Ht.
  rewrite (reconcile_subscribed i rendered k (proj1 (Ht i)) Hu),
    keysBeingWatched_watchedBy.
  destruct (render_view toJS configOf c content w
              (linked_covered _ (proj1 Hneat)) Hr
              (ordinary_reads_storable content Ho))
    as (_ & _ & _ & Hview).
  fold rendered in Hview. split.
  - intros [id Hk]. apply Hview in Hk.
    destruct Hk as [[Hne Hk]|(query & context & Hin & _ & Hq)].
    + left. now exists id.
    + right. now exists query, context.
  - intros [(id & Hne & Hk)|(query & context & Hin & Hq)].
    + exists id. apply Hview. now left.
    + exists (Watch.id (Rendering.target c (i, query, context))).
      apply Hview. right. now exists query, context.
Qed.

Lemma rerender_settled c (content : list (Rendering.Read Q)) i w
    (rendered reconciled rerendered : Rendering.World Q) :
  Rendering.covered w ->
  Rendering.readable toJS configOf content ->
  Rendering.storable toJS configOf content ->
  (forall queries, Config.unsubscribe (configOf i) queries = inr tt) ->
  rendered = final (Rendering.render configOf c
                      (Rendering.reads toJS configOf content) w) ->
  reconciled = final (reconcile i rendered) ->
  rerendered = final (Rendering.render configOf c
                        (Rendering.reads toJS configOf content) reconciled) ->
  ordinary_state (managerAt rendered i) ->
  Rendering.covered reconciled ->
  subscribedQueryKeys (managerAt rerendered i) =
    subscribedQueryKeys (managerAt reconciled i) /\
  forall k,
    hasOwnProperty (subscribedQueryKeys (managerAt rerendered i)) k =
    hasOwnProperty (keysBeingWatched (managerAt rerendered i)) k.
Proof.
  intros Hl Hr Hst Hu E1 E2 E3 Ho1 Hl2.
  destruct (render_view toJS configOf c content w Hl Hr Hst)
    as (_ & _ & _ & Hview1).
  destruct (render_view toJS configOf c content reconciled Hl2 Hr Hst)
    as (_ & _ & Hsub3 & Hview3).
  rewrite <- E1 in Hview1. rewrite <- E3 in Hview3, Hsub3.
  assert (Hsame : forall id k,
            hasOwnProperty (watching rerendered i id) k = true <->
            hasOwnProperty (watching rendered i id) k = true).
  { intros id k. rewrite Hview3, Hview1. rewrite E2.
    rewrite reconcile_watching, Hview1. tauto. }
  split; [apply Hsub3|].
  intros k. rewrite Hsub3, E2.
  rewrite (reconcile_subscribed i rendered k Ho1 Hu).
  apply eq_true_iff_eq. rewrite !keysBeingWatched_watchedBy.
  split; intros [id H]; exists id; now apply Hsame.
Qed.

Lemma rerender_quiet c (content : list (Rendering.Read Q)) i w
    (rendered reconciled rerendered : Rendering.World Q) :
  Rendering.reachable_ordinarily toJS configOf w ->
  Rendering.readable toJS configOf content ->
  Rendering.ordinary_reads toJS configOf content ->
  (forall queries, Config.unsubscribe (configOf i) queries = inr tt) ->
  rendered = final (Rendering.render configOf c
                      (Rendering.reads toJS configOf content) w) ->
  reconciled = final (reconcile i rendered) ->
  rerendered = final (Rendering.render configOf c
                        (Rendering.reads toJS configOf content) reconciled) ->
  result (reconcile i rerendered) = inr tt /\
  trace (reconcile i rerendered) = [] /\
  subscribedQueryKeys (managerAt (final (reconcile i rerendered)) i) =
    subscribedQueryKeys (managerAt reconciled i).
Proof.
  intros Hw Hr Ho Hu E1 E2 E3.
  pose proof (neat_reachable toJS configOf w Hw) as Hneat.
  assert (Hn1 : Rendering.linked rendered /\ Rendering.tidy rendered).
  { rewrite E1. now apply (neat_render toJS configOf c content Ho w). }
  assert (Hn2 : Rendering.linked reconciled /\ Rendering.tidy reconciled).
  { rewrite E2. now apply (neat_updateSubscriptions toJS configOf). }
  assert (Hn3 : Rendering.linked rerendered /\ Rendering.tidy rerendered).
  { rewrite E3. now apply (neat_render toJS configOf c content Ho). }
  destruct (rerender_settled c content i w rendered reconciled rerendered
              (linked_covered _ (proj1 Hneat)) Hr
              (ordinary_reads_storable content Ho) Hu E1 E2 E3
              (proj1 (proj2 Hn1 i)) (linked_covered _ (proj1 Hn2)))
    as [Hsub Hsettled].
  clear E1 E2 E3.
  pose proof (updateSubscriptions_settled (configOf i) _
                (proj1 (proj2 Hn3 i)) Hsettled) as Hrun.
  rewrite onManager_result, onManager_same.
  change (trace (reconcile i rerendered))
    with (map (pair i)
            (trace (updateSubscriptions toJS (configOf i) (managerAt rerendered i)))).
  rewrite Hrun. cbn [result trace final map].
  split; [reflexivity|]. split; [reflexivity|]. exact Hsub.
Qed.

(** X17.  Rendering again with the same reads causes no subscription
    traffic: if a context renders, the reconciliation of a manager runs,
    the context renders again with the same reads and the
    reconciliation runs again, then the second reconciliation returns,
    calls neither [subscribe] nor [unsubscribe] and leaves the manager's
    subscriptions as they are.  (No query read so far or in these
    passes has the key ["__proto__"] or ["hasOwnProperty"].) *)
Theorem rerender_causes_no_traffic c
    (content : list (Rendering.Read Q)) i w :
  Rendering.reachable_ordinarily toJS configOf w ->
  Rendering.readable toJS configOf content ->
  Rendering.ordinary_reads toJS configOf content ->
  (forall queries, Config.unsubscribe (configOf i) queries = inr tt) ->
  let render := Rendering.render configOf c
                  (Rendering.reads toJS configOf content) in
  let rendered := final (render w) in
  let reconciled := final (reconcile i rendered) in
  let rerendered := final (render reconciled) in
  let o := reconcile i rerendered in
  result o = inr tt /\
  trace o = [] /\
  subscribedQueryKeys (managerAt (final o) i) =
    subscribedQueryKeys (managerAt reconciled i).
Proof.
  intros Hw Hr Ho Hu render rendered reconciled rerendered o.
  exact (rerender_quiet c content i w rendered reconciled rerendered
           Hw Hr Ho Hu eq_refl eq_refl eq_refl).
Qed.

End Rerender.

(* ================================================================== *)
(** * Ids *)
(* ================================================================== *)

Section Ids.

Import JS.
Context {E : Type}.

Lemma index_to_string_inj (n n' : N) :
  index_to_string n = index_to_string n' -> n = n'.
Proof.
  unfold index_to_string. intros H.
  apply (f_equal NilEmpty.uint_of_string) in H.
  rewrite !NilEmpty.usu in H. injection H as H.
  apply (f_equal N.of_uint) in H.
  now rewrite !DecimalN.Unsigned.of_to in H.
Qed.

Lemma getId_run (idCount : N) :
  @Rendering.getId E idCount =
  Build_Outcome (inr (Rendering.ToString (Rendering.increment idCount)))
    (Rendering.increment idCount) [].
Proof.
  unfold Rendering.getId. now rewrite bind_modify, bind_this.
Qed.

Lemma NoDup_map_injective {A B} (f : A -> B) (l : list A) :
  (forall x y, In x l -> In y l -> f x = f y -> x = y) ->
  NoDup l -> NoDup (map f l).
Proof.
  intros Hinj Hnd. induction Hnd as [|x l Hx Hnd IH]; cbn [map]; constructor.
  - rewrite in_map_iff. intros (y & Hy & Hin).
    apply Hx. rewrite (Hinj x y); auto; [now left | now right].
  - apply IH. intros y z Hy Hz. apply Hinj; now right.
Qed.

Lemma getIds_run (calls : nat) : forall idCount : N,
  (idCount + N.of_nat calls <= 9007199254740992)%N ->
  mapM (repeat tt calls) (fun _ => @Rendering.getId E) idCount =
  Build_Outcome
    (inr (map (fun d => Rendering.ToString (idCount + N.of_nat d))
            (seq 1 calls)))
    (idCount + N.of_nat calls)%N [].
Proof.
  induction calls as [|calls IH]; intros idCount H.
  - cbn. now rewrite N.add_0_r.
  - cbn [repeat mapM].
    assert (Hi : Rendering.increment idCount = (idCount + 1)%N).
    { unfold Rendering.increment.
      destruct (N.ltb_spec idCount 9007199254740992); [reflexivity | lia]. }
    erewrite bind_known by (rewrite getId_run, Hi; reflexivity).
    erewrite bind_known by (apply IH; lia).
    unfold ret. f_equal; [|lia].
    cbn [seq map]. f_equal. f_equal.
    rewrite <- (seq_shift calls 1), map_map. apply map_ext. intros d.
    f_equal. lia.
Qed.

(** X18.  The ids [getId] hands out are pairwise distinct for the first
    2^53 calls: called that often or less, starting from the initial
    [idCount], it returns as many ids, no two of them equal, and leaves
    [idCount] at the number of calls.  After that it is stuck: from
    2^53 on, [idCount += 1] changes nothing and every call returns the
    id of the call before. *)
Theorem getId_distinct :
  (forall calls : nat,
     (N.of_nat calls <= 9007199254740992)%N ->
     let o := mapM (repeat tt calls) (fun _ => @Rendering.getId E) 0%N in
     exists ids,
       result o = inr ids /\ length ids = calls /\ NoDup ids /\
       final o = N.of_nat calls) /\
  (let o := @Rendering.getId E 9007199254740992%N in
   final o = 9007199254740992%N /\
   result (@Rendering.getId E (final o)) = result o).
Proof.
  split.
  - intros calls H. cbv zeta. rewrite getIds_run by lia.
    eexists. split; [reflexivity|]. cbn [final].
    split; [now rewrite length_map, length_seq|]. split; [|lia].
    apply NoDup_map_injective; [|apply seq_NoDup].
    intros x y _ _ Hxy. apply index_to_string_inj in Hxy. lia.
  - cbv zeta. rewrite getId_run. cbn [final result].
    now rewrite getId_run.
Qed.

End Ids.

(* ================================================================== *)
(** * Reads outside a render, and reads that fail *)
(* ================================================================== *)

Section ReadsOutside.

Import JS Manager.
Context {T Q : Type} (toJS : Q -> Value)
        (configOf : string -> Config.SubscriptionManagerConfig T Q).
Implicit Types (w : Rendering.World Q) (m : SubscriptionManager Q).
Implicit Types (i j id k key : string) (q query : Q).
Implicit Types (c : Watch.BaseSubscriptionContext).

#[local] Abbreviation managerAt := Rendering.managerAt.
#[local] Abbreviation resetsOf := Rendering.resetsOf.
#[local] Abbreviation onManager := Rendering.onManager.
#[local] Abbreviation watching := Rendering.watching.
#[local] Abbreviation current c w :=
  (Rendering.set_globals
     {| currentContext := c;
        noGetOutsideContext := noGetOutsideContext (Rendering.globals w) |} w).

Lemma reachable_no_current w :
  Rendering.reachable toJS configOf w ->
  currentContext (Rendering.globals w) = None.
Proof.
  induction 1 as [|w st w' Hw IH Hstep]; [reflexivity|].
  destruct st as [b|c content|c|i query context|i param|i];
    cbn [Rendering.step] in Hstep.
  - injection Hstep as <-. exact IH.
  - injection Hstep as <-. reflexivity.
  - injection Hstep as <-.
    change (currentContext
              (Rendering.globals (final (Rendering.reset configOf c w)))
            = None).
    destruct (reset_run_store configOf c w) as (_ & -> & _). exact IH.
  - injection Hstep as <-.
    change (currentContext
              (Rendering.globals
                 (final (Rendering.get toJS configOf i query context w)))
            = None).
    now rewrite get_unfold, onManager_globals.
  - injection Hstep as <-.
    change (currentContext
              (Rendering.globals
                 (final (onManager i
                           (Manager.updateQueries toJS (configOf i) param) w)))
            = None).
    now rewrite onManager_globals.
  - destruct (pendingSubscriptionUpdate (managerAt w i)); [|discriminate].
    injection Hstep as <-.
    change (currentContext
              (Rendering.globals
                 (final (onManager i
                           (Manager.updateSubscriptions toJS (configOf i)) w)))
            = None).
    now rewrite onManager_globals.
Qed.

(** X19.  Between renders no context is current, so a read made then
    without a context is attributed to none: in every state of the
    store [currentContext] is null, and [get(query)] calls the getter,
    registers nothing with any manager or context, and throws "outside
    context" when the getter returned and [noGetOutsideContext] is set,
    and otherwise returns or throws as the getter does. *)
Theorem get_between_renders i query w :
  Rendering.reachable toJS configOf w ->
  let o := Rendering.get toJS configOf i query None w in
  currentContext (Rendering.globals w) = None /\
  result o =
    match Config.get (configOf i) query with
    | inl what => inl (Thrown what)
    | inr v =>
        if noGetOutsideContext (Rendering.globals w)
        then inl (OutsideContext "get") else inr v
    end /\
  trace o = [(i, GetCalled query)] /\
  (forall j, managerAt (final o) j = managerAt w j) /\
  (forall id, resetsOf (final o) id = resetsOf w id).
Proof.
  intros Hw. cbv zeta. pose proof (reachable_no_current w Hw) as Hc.
  split; [exact Hc|]. rewrite get_unfold.
  assert (Hrun :
    Manager.get toJS (configOf i) (Rendering.globals w) query None
      (managerAt w i) =
    Build_Outcome
      match Config.get (configOf i) query with
      | inl what => inl (Thrown what)
      | inr v =>
          if noGetOutsideContext (Rendering.globals w)
          then inl (OutsideContext "get") else inr v
      end (managerAt w i) [GetCalled query]).
  { rewrite get_run. unfold available, getCurrentContext. rewrite Hc.
    now destruct (Config.get (configOf i) query). }
  rewrite onManager_result, Hrun. cbn [result]. split; [reflexivity|].
  split.
  { change (trace (onManager i ?method w))
      with (map (pair i) (trace (method (managerAt w i)))).
    now rewrite Hrun. }
  split.
  - intros j. destruct (String.eqb_spec i j) as [<-|Hne].
    + now rewrite onManager_same, Hrun.
    + now rewrite onManager_other.
  - intros id. rewrite onManager_resets, Hrun. cbn. now rewrite app_nil_r.
Qed.

(** ** A render function that throws part-way *)






End ReadsOutside.

(* ================================================================== *)
(** * watch.spec replayed in the store *)
(* ================================================================== *)

Section StoreTests.

Import JS Manager Examples Scenes.

#[local] Abbreviation mount q1 q2 :=
  (Rendering.render managers12 context1
     (Rendering.reads Str managers12 (WatchedComponent q1 q2))).
#[local] Abbreviation deferred i :=
  (Rendering.onManager i (updateSubscriptions Str (managers12 i))).

(** 'batches subscribe calls per manager' *)
Example store_batches_subscribe_calls_per_manager :
  let mounted := mount ["p1a"; "p1b"] ["p2a"; "p2b"] Rendering.start in
  let deferred1 := deferred "1" (final mounted) in
  let deferred2 := deferred "2" (final deferred1) in
  result mounted = inr ["get1-p1a"; "get1-p1b"; "get2-p2a"; "get2-p2b"] /\
  trace mounted =
    [("1", GetCalled "p1a");
     ("1", RegisterResetCalled context1);
     ("1", DeferCalled (Config.configured "updateSubscription1"));
     ("1", GetCalled "p1b");
     ("2", GetCalled "p2a");
     ("2", RegisterResetCalled context1);
     ("2", DeferCalled (Config.configured "updateSubscription2"));
     ("2", GetCalled "p2b")] /\
  trace deferred1 = [("1", SubscribeCalled ["p1a"; "p1b"])] /\
  trace deferred2 = [("2", SubscribeCalled ["p2a"; "p2b"])].
Proof. cbv zeta. repeat split; reflexivity. Qed.

(** 'unsubscribes from queries on prop change after subscribing' *)
Example store_unsubscribes_on_prop_change :
  let mounted := mount ["p1a"] ["p2a"] Rendering.start in
  let deferred1 := deferred "1" (final mounted) in
  let deferred2 := deferred "2" (final deferred1) in
  let updated := mount ["p1b"] [] (final deferred2) in
  let deferred1' := deferred "1" (final updated) in
  let deferred2' := deferred "2" (final deferred1') in
  trace deferred1 = [("1", SubscribeCalled ["p1a"])] /\
  trace deferred2 = [("2", SubscribeCalled ["p2a"])] /\
  trace deferred1' =
    [("1", UnsubscribeCalled ["p1a"]); ("1", SubscribeCalled ["p1b"])] /\
  trace deferred2' = [("2", UnsubscribeCalled ["p2a"])].
Proof. cbv zeta. repeat split; reflexivity. Qed.

(** 'unsubscribes on unmount' *)
Example store_unsubscribes_on_unmount :
  let mounted := mount ["p1a"; "p1b"] ["p2a"; "p2b"] Rendering.start in
  let deferred1 := deferred "1" (final mounted) in
  let deferred2 := deferred "2" (final deferred1) in
  let unmounted :=
    Rendering.componentWillUnmount managers12 context1 (final deferred2) in
  let deferred1' := deferred "1" (final unmounted) in
  let deferred2' := deferred "2" (final deferred1') in
  Rendering.step Str managers12 (final deferred2) (Rendering.RunDeferred "1")
    = None /\
  trace unmounted =
    [("1", DeferCalled (Config.configured "updateSubscription1"));
     ("2", DeferCalled (Config.configured "updateSubscription2"))] /\
  trace deferred1' = [("1", UnsubscribeCalled ["p1a"; "p1b"])] /\
  trace deferred2' = [("2", UnsubscribeCalled ["p2a"; "p2b"])].
Proof. cbv zeta. repeat split; reflexivity. Qed.

End StoreTests.

(* ================================================================== *)
(** * The further theorems at sample inputs *)
(* ================================================================== *)

Section MoreSamples.

Import JS Manager Examples Scenes.

Example mounted_fields :
  mounted =
  {| Rendering.globals := globalConfig;
     Rendering.resets :=
       [("1", [Rendering.ManagerReset "1"; Rendering.ManagerReset "2"])];
     Rendering.managers :=
       [("1", {| watchedQueryKeysByContextId :=
                   [("1", [("p1a", "p1a"); ("p1b", "p1b")])];
                 watchedContexts := [("1", context1)];
                 subscribedQueryKeys := [];
                 pendingSubscriptionUpdate := true;
                 watchedPrototypes := [];
                 subscribedPrototype := ObjectPrototype |});
        ("2", {| watchedQueryKeysByContextId := [("1", [("p2a", "p2a")])];
                 watchedContexts := [("1", context1)];
                 subscribedQueryKeys := [];
                 pendingSubscriptionUpdate := true;
                 watchedPrototypes := [];
                 subscribedPrototype := ObjectPrototype |})] |}.
Proof. reflexivity. Qed.

Example first_subscribed_fields :
  first_subscribed =
  {| manager :=
       {| watchedQueryKeysByContextId := [("1", [("p1a", "p1a")])];
          watchedContexts := [("1", context1)];
          subscribedQueryKeys := [("p1a", "p1a")];
          pendingSubscriptionUpdate := false;
                 watchedPrototypes := [];
                 subscribedPrototype := ObjectPrototype |};
     outstanding := 0 |}.
Proof. reflexivity. Qed.

Lemma first_read_reachable : reachable Str config1 first_read.
Proof.
  exact (reachable_step _ _ Str config1 start
           (DoGet (rendering context1) "p1a" None) first_read
           (reachable_start _ _ Str config1) eq_refl).
Qed.

Lemma first_subscribed_reachable : reachable Str config1 first_subscribed.
Proof.
  exact (reachable_step _ _ Str config1 first_read RunDeferred
           first_subscribed first_read_reachable eq_refl).
Qed.

Lemma second_read_reachable : reachable Str config1 second_read.
Proof.
  exact (reachable_step _ _ Str config1 first_read
           (DoGet (rendering context1) "p1b" None) second_read
           first_read_reachable eq_refl).
Qed.

(** The string queries of the samples have ordinary keys. *)
Lemma sample_ordinary_query (config : Config.SubscriptionManagerConfig string string)
    (query : string) :
  Config.queryToString config = None ->
  (query =? "__proto__") || (query =? "hasOwnProperty") = false ->
  ordinary_query Str config query.
Proof.
  intros Hc Hq key. unfold toKey. rewrite Hc. cbn. intros [= <-].
  apply orb_false_elim in Hq. destruct Hq as [Hp Hh].
  split; now apply String.eqb_neq.
Qed.

Lemma first_subscribed_ordinarily :
  reachable_ordinarily Str config1 first_subscribed.
Proof.
  apply (reachable_by_step _ _ Str config1 _ first_read RunDeferred);
    [|exact I | reflexivity].
  apply (reachable_by_step _ _ Str config1 _ start
           (DoGet (rendering context1) "p1a" None));
    [constructor | now apply sample_ordinary_query | reflexivity].
Qed.

Lemma strings_ordinary (content : list (Rendering.Read string)) :
  forallb (fun r : Rendering.Read string =>
             negb ((snd (fst r) =? "__proto__") ||
                   (snd (fst r) =? "hasOwnProperty"))) content = true ->
  Rendering.ordinary_reads Str managers1 content.
Proof.
  intros H i query context Hin. rewrite forallb_forall in H.
  apply H in Hin. cbn [fst snd] in Hin. apply negb_true_iff in Hin.
  now apply sample_ordinary_query.
Qed.

Lemma mounted_ordinarily :
  Rendering.reachable_ordinarily Str managers1 mounted.
Proof.
  apply (Rendering.reachable_by_step Str managers1 _ Rendering.start
           (Rendering.Render context1 content1));
    [constructor | now apply strings_ordinary | reflexivity].
Qed.

Lemma any_read_reachable : reachable (fun q => q) config_any any_read.
Proof.
  exact (reachable_step _ _ (fun q => q) config_any start
           (DoGet (rendering context1) (Str "a") None) any_read
           (reachable_start _ _ (fun q => q) config_any) eq_refl).
Qed.

Lemma mounted_reachable : Rendering.reachable Str managers1 mounted.
Proof.
  exact (Rendering.reachable_step Str managers1 Rendering.start
           (Rendering.Render context1 content1) mounted
           (Rendering.reachable_start Str managers1) eq_refl).
Qed.

Lemma strings_readable (content : list (Rendering.Read string)) :
  Rendering.readable Str managers1 content.
Proof. intros i query context _. split; eexists; reflexivity. Qed.

(** X4 at a sample: the manager of [first_read] after its
    reconciliation. *)
Lemma subscribed_is_watched_when_idle_sample :
  (forall queries, Config.unsubscribe config1 queries = inr tt) /\
  reachable_ordinarily Str config1 first_subscribed /\
  pendingSubscriptionUpdate (manager first_subscribed) = false /\
  (hasOwnProperty (subscribedQueryKeys (manager first_subscribed)) "p1a"
     = true <->
   exists id queryKeys,
     lookup (watchedQueryKeysByContextId (manager first_subscribed)) id
       = Some queryKeys /\
     hasOwnProperty queryKeys "p1a" = true).
Proof.
  split; [reflexivity|]. split; [exact first_subscribed_ordinarily|].
  split; [reflexivity|].
  exact (subscribed_is_watched_when_idle Str config1 first_subscribed
           (fun _ => eq_refl) first_subscribed_ordinarily eq_refl "p1a").
Defined.


(** X6 at a sample: [context1] has read "p1a" and the manager has
    subscribed; the reset of [context1] fires. *)
Lemma reset_then_reconcile_sample :
  let m := manager first_subscribed in
  let m' := final (reset config1 context1 m) in
  let o := updateSubscriptions Str config1 m' in
  ordinary_state m /\
  trace o = [UnsubscribeCalled ["p1a"]] /\
  exists unsubscribed rest,
    trace o = batched UnsubscribeCalled unsubscribed ++ rest /\
    (forall qs, ~ In (UnsubscribeCalled qs) rest) /\
    forall q,
      In q unsubscribed <->
      exists k,
        lookup (subscribedQueryKeys m) k = Some q /\
        forall id queryKeys,
          lookup (watchedQueryKeysByContextId m) id = Some queryKeys ->
          hasOwnProperty queryKeys k = true ->
          id = Watch.id context1.
Proof.
  cbv zeta. split; [apply ordinary_stateb_sound; reflexivity|].
  split; [reflexivity|].
  exact (reset_then_reconcile Str config1 context1 (manager first_subscribed)
           (ordinary_stateb_sound (manager first_subscribed) eq_refl)).
Defined.

(** X7 at a sample: [context1] has read "p1a" and "p1b"; the batch
    that subscribes both. *)
Lemma reconciliation_batches_distinct_keys_sample :
  reachable Str config1 second_read /\
  trace (updateSubscriptions Str config1 (manager second_read))
    = [SubscribeCalled ["p1a"; "p1b"]] /\
  NoDup (map (toKey Str config1) ["p1a"; "p1b"]).
Proof.
  split; [exact second_read_reachable|]. split; [reflexivity|].
  exact (proj1
           (proj2 (proj2
              (reconciliation_batches_distinct_keys Str config1 second_read
                 second_read_reachable))
              ["p1a"; "p1b"] (or_intror (or_introl eq_refl)))).
Defined.

(** X8 at a sample: [updateQueries(["p1a"])] updates [context1] once. *)
Lemma updateQueries_list_form_sample :
  reachable Str config1 first_read /\
  (forall p, In p ["p1a"] -> exists k, toKey Str config1 p = inr k) /\
  forcedUpdates context1
    (trace (updateQueries Str config1 (QueryList ["p1a"]) (manager first_read)))
  = 1.
Proof.
  assert (H : forall p, In p ["p1a"] -> exists k, toKey Str config1 p = inr k)
    by (intros p _; now exists p).
  split; [exact first_read_reachable|]. split; [exact H|].
  exact (proj2 (proj2 (proj2
           (updateQueries_list_form Str config1 first_read ["p1a"] context1
              first_read_reachable H)))).
Defined.

(** X21 at a sample: [unsubscribe] throws while "p1a" is to be
    unsubscribed and "p1c" to be subscribed. *)
Lemma unsubscribe_throws_sample :
  let first := updateSubscriptions Str config1_failing rerendered in
  let second := updateSubscriptions Str config1_failing (final first) in
  ordinary_state rerendered /\
  values (toUnsubscribe rerendered) <> [] /\
  Config.unsubscribe config1_failing (values (toUnsubscribe rerendered))
    = inl (Str "offline") /\
  result first = inl (Thrown (Str "offline")) /\
  trace first = [UnsubscribeCalled ["p1a"]] /\
  trace second = [SubscribeCalled ["p1c"]].
Proof.
  assert (H : values (toUnsubscribe rerendered) <> []) by discriminate.
  cbv zeta. split; [apply ordinary_stateb_sound; reflexivity|].
  split; [exact H|]. split; [reflexivity|].
  split; [|split; reflexivity].
  exact (proj1 (unsubscribe_throws Str config1_failing rerendered
                  (Str "offline")
                  (ordinary_stateb_sound rerendered eq_refl) H eq_refl)).
Defined.

(** X10 at a sample: [null] heads the list and "a" is watched. *)
Lemma updateQueries_list_unconvertible_sample :
  toKey (fun q => q) config_any Null = inl FalseyQuery /\
  watches_a_key (manager any_read) = true /\
  result (updateQueries (fun q => q) config_any (QueryList [Null; Str "a"])
            (manager any_read))
  = inl FalseyQuery.
Proof.
  split; [reflexivity|]. split; [reflexivity|].
  exact (proj1 (proj2 (proj2
           (updateQueries_list_unconvertible (fun q => q) config_any
              (manager any_read) Null [Str "a"] FalseyQuery eq_refl)))).
Defined.

(** X11 at a sample: manager 1 of [mounted]. *)
Lemma store_managers_reachable_sample :
  Rendering.reachable Str managers1 mounted /\
  reachable Str (managers1 "1")
    {| manager := Rendering.managerAt mounted "1";
       outstanding := pending_count (Rendering.managerAt mounted "1") |}.
Proof.
  split; [exact mounted_reachable|].
  exact (store_managers_reachable Str managers1 mounted "1" mounted_reachable).
Defined.

(** X12 at a sample: the reset list of [context1] in [mounted]. *)
Lemma resets_linked_sample :
  Rendering.reachable_ordinarily Str managers1 mounted /\
  Rendering.resetsOf mounted "1"
    = [Rendering.ManagerReset "1"; Rendering.ManagerReset "2"] /\
  NoDup (Rendering.resetsOf mounted "1") /\
  forall i,
    In (Rendering.ManagerReset i) (Rendering.resetsOf mounted "1") <->
    exists k, hasOwnProperty (Rendering.watching mounted i "1") k = true.
Proof.
  split; [exact mounted_ordinarily|]. split; [reflexivity|].
  exact (resets_linked Str managers1 mounted "1" mounted_ordinarily).
Defined.


(** X14 at a sample: [context1] unmounts. *)
Lemma unmount_unwatches_sample :
  let o := Rendering.componentWillUnmount managers1 context1 mounted in
  Rendering.reachable Str managers1 mounted /\
  result o = inr tt /\
  Rendering.resetsOf (final o) "1" = [] /\
  forall j,
    lookup (watchedQueryKeysByContextId (Rendering.managerAt (final o) j)) "1"
      = None /\
    lookup (watchedContexts (Rendering.managerAt (final o) j)) "1" = None /\
    subscribedQueryKeys (Rendering.managerAt (final o) j) =
      subscribedQueryKeys (Rendering.managerAt mounted j).
Proof.
  cbv zeta. split; [exact mounted_reachable|].
  pose proof (unmount_unwatches Str managers1 context1 mounted
                mounted_reachable) as H.
  cbv zeta in H. destruct H as (H1 & H2 & H3 & _).
  split; [exact H1|]. split; [exact H2 | exact H3].
Defined.

(** X16 at a sample: after the first render of [context1] and the
    reconciliation of manager 1. *)
Lemma subscriptions_follow_rendering_sample :
  let rendered :=
    final (Rendering.render managers1 context1
             (Rendering.reads Str managers1 content1) Rendering.start) in
  let reconciled :=
    final (Rendering.onManager "1" (updateSubscriptions Str (managers1 "1"))
             rendered) in
  Rendering.reachable_ordinarily Str managers1 Rendering.start /\
  Rendering.readable Str managers1 content1 /\
  Rendering.ordinary_reads Str managers1 content1 /\
  (forall queries, Config.unsubscribe (managers1 "1") queries = inr tt) /\
  subscribedQueryKeys (Rendering.managerAt reconciled "1")
    = [("p1a", "p1a"); ("p1b", "p1b")] /\
  (hasOwnProperty (subscribedQueryKeys (Rendering.managerAt reconciled "1"))
     "p1a" = true <->
   (exists id,
      id <> "1" /\
      hasOwnProperty (Rendering.watching (@Rendering.start string) "1" id) "p1a"
        = true)
   \/
   (exists query context,
      In ("1", query, context) content1 /\
      toKey Str (managers1 "1") query = inr "p1a")).
Proof.
  assert (Ho : Rendering.ordinary_reads Str managers1 content1)
    by now apply strings_ordinary.
  cbv zeta.
  split; [exact (Rendering.reachable_by_start Str managers1 _)|].
  split; [exact (strings_readable content1)|]. split; [exact Ho|].
  split; [reflexivity|]. split; [reflexivity|].
  exact (subscriptions_follow_rendering Str managers1 context1 content1 "1"
           Rendering.start (Rendering.reachable_by_start Str managers1 _)
           (strings_readable content1) Ho (fun _ => eq_refl) "p1a").
Defined.

(** X17 at a sample: [context1] renders [content1] twice. *)
Lemma rerender_causes_no_traffic_sample :
  let render := Rendering.render managers1 context1
                  (Rendering.reads Str managers1 content1) in
  let reconcile :=
    Rendering.onManager "1" (updateSubscriptions Str (managers1 "1")) in
  Rendering.reachable_ordinarily Str managers1 Rendering.start /\
  Rendering.readable Str managers1 content1 /\
  Rendering.ordinary_reads Str managers1 content1 /\
  (forall queries, Config.unsubscribe (managers1 "1") queries = inr tt) /\
  trace (reconcile (final (render Rendering.start)))
    = [("1", SubscribeCalled ["p1a"; "p1b"])] /\
  trace (reconcile
           (final (render (final (reconcile (final (render Rendering.start)))))))
    = [].
Proof.
  assert (Ho : Rendering.ordinary_reads Str managers1 content1)
    by now apply strings_ordinary.
  cbv zeta.
  split; [exact (Rendering.reachable_by_start Str managers1 _)|].
  split; [exact (strings_readable content1)|]. split; [exact Ho|].
  split; [reflexivity|]. split; [reflexivity|].
  exact (proj1 (proj2
           (rerender_causes_no_traffic Str managers1 context1 content1 "1"
              Rendering.start (Rendering.reachable_by_start Str managers1 _)
              (strings_readable content1) Ho (fun _ => eq_refl)))).
Defined.

(** X19 at a sample: a read from manager 1 once [context1] has
    rendered. *)
Lemma get_between_renders_sample :
  Rendering.reachable Str managers1 mounted /\
  result (Rendering.get Str managers1 "1" "p1a" None mounted)
    = inl (OutsideContext "get").
Proof.
  split; [exact mounted_reachable|].
  exact (proj1 (proj2
           (get_between_renders Str managers1 "1" "p1a" mounted
              mounted_reachable))).
Defined.


(** X23 at a sample, reading "__proto__" twice: [context1] is asked to
    register the reset twice and watches nothing. *)
Lemma registerQuery_proto_key_sample :
  let first := registerQuery Str config1 context1 "__proto__" new in
  let second :=
    registerQuery Str config1 context1 "__proto__" (final first) in
  toKey Str config1 "__proto__" = inr "__proto__" /\
  watchedObject (@new string) "1" = None /\
  setPrototypeOf ObjectPrototype (Str "__proto__") = ObjectPrototype /\
  watchedQueryKeysByContextId (final second) = [("1", [])] /\
  registrations context1 (trace first ++ trace second) = 2.
Proof.
  cbv zeta. split; [reflexivity|]. split; [reflexivity|].
  split; [reflexivity|]. split; [reflexivity|].
  exact (proj2 (proj2 (proj2 (proj2
           (registerQuery_proto_key Str config1 context1 "__proto__" new
              eq_refl eq_refl eq_refl))))).
Defined.

(** X24 at a sample, subscribed to "hasOwnProperty" and watching "b"
    as well: the
    reconciliation throws and "b" stays unsubscribed. *)
Lemma updateSubscriptions_shadowed_sample :
  lookup (subscribedQueryKeys shadowed) "hasOwnProperty"
    = Some "hasOwnProperty" /\
  (forall returns, Str "hasOwnProperty" <> Method returns) /\
  watches_a_key shadowed = true /\
  watchedBy shadowed "1" = [("hasOwnProperty", "hasOwnProperty"); ("b", "b")] /\
  updateSubscriptions Str config1 shadowed =
  Build_Outcome
    (inl (NotAFunction "this.subscribedQueryKeys.hasOwnProperty"))
    (set_pendingSubscriptionUpdate false shadowed) [].
Proof.
  split; [reflexivity|]. split; [discriminate|]. split; [reflexivity|].
  split; [reflexivity|].
  exact (updateSubscriptions_shadowed_hasOwnProperty Str config1 shadowed
           "hasOwnProperty" eq_refl (fun returns => ltac:(discriminate))
           eq_refl).
Defined.

End MoreSamples.
